(** * Clarus.js inference engine: a shallow embedding and its properties

    The development follows the JavaScript sources:
    - [src/strategies/AdvancedMatcher.js]          (module [Matcher])
    - [src/strategies/SalienceConflictResolver.js] (module [Resolver])
    - [src/strategies/Accumulators.js]             (module [Accumulators])
    - [src/components/FactStorage.js]              (module [FactStorage])
    - [src/components/Agenda.js]                   (module [Agenda])
    - [src/engine/LeapEngine.js]: guards (module [Guard]), the operations
      on facts and definitions (module [Engine]), the condition join
      (module [Join]), the run loop and truth maintenance (module [Run]),
      the ordering of query results (module [Query]), the reading of
      facts (module [Facts])

    JavaScript values are a closed inductive type; numbers are IEEE-754
    binary64 values given by the Standard Library's [spec_float].  The
    definitions come first, the properties after them. *)

From Stdlib Require Import List String Ascii ZArith Lia Bool PeanoNat.
From Stdlib Require Import SpecFloat DecimalString Permutation Sorted.
Import ListNotations.
Open Scope string_scope.
Open Scope list_scope.
Open Scope nat_scope.

Set Implicit Arguments.
Set Warnings "-register-all".

(** ** JavaScript values *)

Module JS.

(** binary64: 53 bits of precision, exponents below 1024. *)
Definition prec : Z := 53.
Definition emax : Z := 1024.

Definition number := spec_float.

(** The number denoted by an integer literal. *)
Definition num_of_Z (z : Z) : number := binary_normalize prec emax z 0 false.
Definition num_of_nat (n : nat) : number := num_of_Z (Z.of_nat n).

Definition NaN : number := S754_nan.
Definition pos_zero : number := S754_zero false.
Definition neg_zero : number := S754_zero true.
Definition pos_infinity : number := S754_infinity false.
Definition neg_infinity : number := S754_infinity true.

(** Values.  [VSym n] is the n-th symbol created by the program and
    [VFun n] the n-th function object: both are compared by identity.
    [VArr] is an array with its elements; [VObj] a plain object with its
    own enumerable properties, listed in enumeration order. *)
Inductive value : Type :=
| VUndef
| VNull
| VBool (b : bool)
| VNum (x : number)
| VStr (s : string)
| VSym (n : nat)
| VFun (n : nat)
| VArr (xs : list value)
| VObj (fs : list (string * value)).

Definition fields := list (string * value).

Inductive jstype := TUndefined | TObject | TBoolean | TNumber | TString | TSymbol | TFunction.

(** [typeof v]. *)
Definition typeof (v : value) : jstype :=
  match v with
  | VUndef => TUndefined
  | VNull => TObject
  | VBool _ => TBoolean
  | VNum _ => TNumber
  | VStr _ => TString
  | VSym _ => TSymbol
  | VFun _ => TFunction
  | VArr _ => TObject
  | VObj _ => TObject
  end.

Definition is_undefined (v : value) : bool :=
  match v with VUndef => true | _ => false end.

Definition is_nullish (v : value) : bool :=
  match v with VUndef | VNull => true | _ => false end.

(** [typeof v === 'object' && v !== null] *)
Definition is_object (v : value) : bool :=
  match v with VArr _ | VObj _ => true | _ => false end.

Definition is_array (v : value) : bool :=
  match v with VArr _ => true | _ => false end.

Definition is_nan (x : number) : bool :=
  match x with S754_nan => true | _ => false end.

Definition is_zero (x : number) : bool :=
  match x with S754_zero _ => true | _ => false end.

(** ToBoolean. *)
Definition to_boolean (v : value) : bool :=
  match v with
  | VUndef | VNull => false
  | VBool b => b
  | VNum x => negb (is_nan x || is_zero x)
  | VStr s => negb (String.eqb s EmptyString)
  | VSym _ | VFun _ | VArr _ | VObj _ => true
  end.

(** SameValue on numbers ([Object.is]): NaN is itself, the two zeros differ. *)
Definition num_same (x y : number) : bool :=
  match x, y with
  | S754_nan, S754_nan => true
  | S754_zero a, S754_zero b => Bool.eqb a b
  | S754_infinity a, S754_infinity b => Bool.eqb a b
  | S754_finite a m e, S754_finite b n f =>
      Bool.eqb a b && Pos.eqb m n && Z.eqb e f
  | _, _ => false
  end.

(** IEEE equality ([===] on numbers): NaN differs from itself, the zeros agree. *)
Definition num_eq (x y : number) : bool := SFeqb x y.
Definition num_lt (x y : number) : bool := SFltb x y.

(** [Object.is(a, b)] for a primitive [a].  Objects, arrays are compared by
    reference in JavaScript, a notion these values do not carry; with a
    primitive first argument the answer never depends on it: a primitive is
    never the same value as an object. *)
Definition Object_is (a b : value) : bool :=
  match a, b with
  | VUndef, VUndef => true
  | VNull, VNull => true
  | VBool x, VBool y => Bool.eqb x y
  | VNum x, VNum y => num_same x y
  | VStr x, VStr y => String.eqb x y
  | VSym x, VSym y => Nat.eqb x y
  | VFun x, VFun y => Nat.eqb x y
  | _, _ => false
  end.

(** [s.startsWith(p)] *)
Definition startsWith (s p : string) : bool := String.prefix p s.

(** [s.substring(n)] *)
Definition substring_from (n : nat) (s : string) : string :=
  String.substring n (String.length s - n) s.

(** *** Own properties *)

Fixpoint assoc (fs : fields) (k : string) : option value :=
  match fs with
  | [] => None
  | (k', v) :: fs' => if String.eqb k' k then Some v else assoc fs' k
  end.

(** [o[k]] on the own properties of a plain object: [undefined] when absent. *)
Definition obj_get (fs : fields) (k : string) : value :=
  match assoc fs k with Some v => v | None => VUndef end.

Definition obj_has (fs : fields) (k : string) : bool :=
  match assoc fs k with Some _ => true | None => false end.

(** [o[k] = v]: an existing property keeps its place, a new one goes last. *)
Fixpoint obj_set (fs : fields) (k : string) (v : value) : fields :=
  match fs with
  | [] => [(k, v)]
  | (k', v') :: fs' =>
      if String.eqb k' k then (k', v) :: fs' else (k', v') :: obj_set fs' k v
  end.

(** [delete o[k]] *)
Fixpoint obj_delete (fs : fields) (k : string) : fields :=
  match fs with
  | [] => []
  | (k', v') :: fs' =>
      if String.eqb k' k then obj_delete fs' k else (k', v') :: obj_delete fs' k
  end.

(** [{ ...a, ...b }] *)
Definition obj_spread (a b : fields) : fields :=
  fold_left (fun acc kv => obj_set acc (fst kv) (snd kv)) b a.

Definition string_of_nat (n : nat) : string := NilEmpty.string_of_uint (Nat.to_uint n).

(** The array index a property key denotes, if it is a canonical one. *)
Definition array_index (k : string) : option nat :=
  match NilEmpty.uint_of_string k with
  | Some u =>
      let n := Nat.of_uint u in
      if String.eqb (string_of_nat n) k then Some n else None
  | None => None
  end.

(** Own property of a value: plain objects by key, arrays and strings by
    index and ["length"].  Members inherited from prototypes are not part
    of the model. *)
Definition get_own (v : value) (k : string) : option value :=
  match v with
  | VObj fs => assoc fs k
  | VArr xs =>
      if String.eqb k "length" then Some (VNum (num_of_nat (List.length xs)))
      else match array_index k with
           | Some i => nth_error xs i
           | None => None
           end
  | VStr s =>
      if String.eqb k "length" then Some (VNum (num_of_nat (String.length s)))
      else match array_index k with
           | Some i =>
               match String.get i s with
               | Some c => Some (VStr (String c EmptyString))
               | None => None
               end
           | None => None
           end
  | _ => None
  end.

(** [Object.prototype.hasOwnProperty.call(v, k)] *)
Definition hasOwnProperty (v : value) (k : string) : bool :=
  match get_own v k with Some _ => true | None => false end.

(** [v[k]] for a value [v] that is not [undefined] or [null]. *)
Definition get_prop (v : value) (k : string) : value :=
  match get_own v k with Some x => x | None => VUndef end.

(** [Object.keys(v)] of a plain object. *)
Definition keys (fs : fields) : list string := map fst fs.

End JS.
Export JS.

(** ** The order of numbers

    A number that is not NaN is placed on a line by [rank]: its class, then
    its exponent, then its mantissa, mirrored for the negative ones.  The
    comparison of numbers is the lexicographic order of their ranks. *)

Module NumOrder.
Local Open Scope Z_scope.

Definition rank (x : number) : Z * Z * Z :=
  match x with
  | S754_nan => (0, 0, 0)
  | S754_infinity true => (-2, 0, 0)
  | S754_finite true m e => (-1, - e, - Zpos m)
  | S754_zero _ => (0, 0, 0)
  | S754_finite false m e => (1, e, Zpos m)
  | S754_infinity false => (2, 0, 0)
  end.

Definition lex_lt (a b : Z * Z * Z) : Prop :=
  let '(a1, a2, a3) := a in
  let '(b1, b2, b3) := b in
  a1 < b1 \/ (a1 = b1 /\ (a2 < b2 \/ (a2 = b2 /\ a3 < b3))).

End NumOrder.

(** ** The host environment

    What the engine receives from its surroundings and this model does not
    look into: user functions (predicates used as patterns), the injected
    accumulator table, and conversions of the language runtime. *)

Record Host : Type := {
  (** [f(v)] for the function object [VFun f]: [Some r] when it returns [r],
      [None] when it throws. *)
  call_fn : nat -> value -> option value;
  (** [accumulators[name](field)(facts)]: [None] when the table has no such
      entry or the call throws. *)
  accumulators : string -> option (value -> list value -> option value);
  (** ToString of a value. *)
  host_to_string : value -> string;
  (** [a === b] when both are objects, arrays, functions (reference identity). *)
  ref_eq : value -> value -> bool;
  (** [a < b] on operands that are not both numbers and not both strings. *)
  host_lt : value -> value -> bool;
  (** The schema step of [assertFact] (template lookup, defaults, checks):
      [Some f] is the fact to store, defaults applied, and is the fact itself
      when its type has no template; [None] is a schema violation. *)
  schema_validate : string -> fields -> option fields;
  (** [Date.now()] *)
  date_now : number
}.

(** ** AdvancedMatcher.js *)

Module Matcher.

Definition bindings := fields.

Record match_result := MatchResult { isMatch : bool; result_bindings : bindings }.

(** The wildcard [ANY = Symbol("clarus.any_value_wildcard")]: the first symbol. *)
Definition ANY : value := VSym 0.

Definition is_ANY (v : value) : bool :=
  match v with VSym 0 => true | _ => false end.

(** [typeof p === 'string' && p.startsWith('...')] *)
Definition is_rest (p : value) : bool :=
  match p with VStr s => startsWith s "..." | _ => false end.

(** [pattern.findIndex(is_rest)]: [None] stands for -1. *)
Fixpoint findIndex (f : value -> bool) (l : list value) : option nat :=
  match l with
  | [] => None
  | x :: l' => if f x then Some 0 else option_map S (findIndex f l')
  end.

(** [a.slice(i, j)] for in-range bounds. *)
Definition slice (i j : nat) (l : list value) : list value :=
  firstn (j - i) (skipn i l).

Section Match.
Variable h : Host.

(** The positional loops of the array branches:
    [for (i = 0; i < ps.length; i++) match(ps[i], fact[off + i], current)]. *)
Fixpoint match_positional (rec : value -> value -> bindings -> option match_result)
    (ps : list value) (fact : list value) (idx : nat) (current : bindings)
    : option match_result :=
  match ps with
  | [] => Some (MatchResult true current)
  | p :: ps' =>
      match rec p (nth idx fact VUndef) current with
      | None => None
      | Some r =>
          if isMatch r then match_positional rec ps' fact (S idx) (result_bindings r)
          else Some (MatchResult false (result_bindings r))
      end
  end.

(** The loop of the object branch: [for (const key in pattern) ...]. *)
Fixpoint match_keys (rec : value -> value -> bindings -> option match_result)
    (ks : list string) (pattern : fields) (fact : value) (current : bindings)
    : option match_result :=
  match ks with
  | [] => Some (MatchResult true current)
  | key :: ks' =>
      if negb (hasOwnProperty fact key) then Some (MatchResult false current)
      else
        match rec (obj_get pattern key) (get_prop fact key) current with
        | None => None
        | Some r =>
            if isMatch r then match_keys rec ks' pattern fact (result_bindings r)
            else Some (MatchResult false (result_bindings r))
        end
  end.

(** [match(pattern, fact, initialBindings)].  The recursion through a bound
    variable is not structural; [depth] bounds the call stack, and [None]
    is the stack overflow ([RangeError]) the runtime raises when it is
    exceeded. *)
Fixpoint match_ (depth : nat) (pattern fact : value) (initialBindings : bindings)
    {struct depth} : option match_result :=
  match depth with
  | O => None
  | S depth' =>
    let bindings := initialBindings in
    let primitive := Some (MatchResult (Object_is pattern fact) bindings) in
    (* 1. ANY wildcard *)
    if is_ANY pattern then Some (MatchResult true bindings) else
    match pattern with
    (* 2. predicate function *)
    | VFun f =>
        match call_fn h f fact with
        | Some r => Some (MatchResult (to_boolean r) bindings)
        | None => Some (MatchResult false bindings)
        end
    (* 3. variable binding / consistency check *)
    | VStr s =>
        if startsWith s "?" then
          let boundValue := obj_get bindings s in
          if negb (is_undefined boundValue) then match_ depth' boundValue fact bindings
          else Some (MatchResult true (obj_set bindings s fact))
        else primitive
    (* 4. array pattern *)
    | VArr ps =>
        match fact with
        | VArr fs =>
            match findIndex is_rest ps with
            | Some restOperatorIndex =>
                if 1 <? List.length (filter is_rest ps) then Some (MatchResult false bindings)
                else
                  let headPattern := firstn restOperatorIndex ps in
                  let tailPattern := skipn (restOperatorIndex + 1) ps in
                  let restVariableName := nth restOperatorIndex ps VUndef in
                  if List.length fs <? List.length headPattern + List.length tailPattern
                  then Some (MatchResult false bindings)
                  else
                    match match_positional (match_ depth') headPattern fs 0 bindings with
                    | None => None
                    | Some rh =>
                        if negb (isMatch rh) then Some (MatchResult false (result_bindings rh))
                        else
                          match match_positional (match_ depth') tailPattern fs
                                  (List.length fs - List.length tailPattern)
                                  (result_bindings rh) with
                          | None => None
                          | Some rt =>
                              if negb (isMatch rt) then Some (MatchResult false (result_bindings rt))
                              else
                                let name :=
                                  match restVariableName with
                                  | VStr s => substring_from 3 s
                                  | _ => EmptyString
                                  end in
                                Some (MatchResult true
                                  (obj_set (result_bindings rt) name
                                     (VArr (slice (List.length headPattern)
                                              (List.length fs - List.length tailPattern) fs))))
                          end
                    end
            | None =>
                if negb (List.length ps =? List.length fs) then Some (MatchResult false bindings)
                else match_positional (match_ depth') ps fs 0 bindings
            end
        | _ => Some (MatchResult false bindings)
        end
    (* 5. object pattern *)
    | VObj pfs =>
        if negb (is_object fact) then Some (MatchResult false bindings)
        else match_keys (match_ depth') (keys pfs) pfs fact bindings
    (* 6. primitive equality *)
    | _ => primitive
    end
  end.

End Match.

(** A pattern that reaches the last branch of [match]: not the wildcard,
    not a function, not a variable reference, not an array, not an object. *)
Definition is_literal (p : value) : bool :=
  match p with
  | VUndef | VNull | VBool _ | VNum _ => true
  | VStr s => negb (startsWith s "?")
  | VSym n => negb (is_ANY p)
  | VFun _ | VArr _ | VObj _ => false
  end.

(** *** Sequence destructuring, as specified

    These two definitions follow the words of the specification, not the
    code: they are what [match_] is compared with. *)

(** Pattern elements matched one by one against the values they face,
    bindings flowing from left to right, stopping at the first failure. *)
Fixpoint match_pairwise (rec : value -> value -> bindings -> option match_result)
    (pairs : list (value * value)) (current : bindings) : option match_result :=
  match pairs with
  | [] => Some (MatchResult true current)
  | (p, v) :: rest =>
      match rec p v current with
      | None => None
      | Some r =>
          if isMatch r then match_pairwise rec rest (result_bindings r)
          else Some (MatchResult false (result_bindings r))
      end
  end.

(** Head, rest variable, tail: the candidate must be at least as long as
    head and tail together; the head faces the front of the candidate, the
    tail faces its back, and what lies between is bound to the variable. *)
Definition destructure_spec (rec : value -> value -> bindings -> option match_result)
    (head : list value) (restName : string) (tail : list value)
    (candidate : list value) (b : bindings) : option match_result :=
  let n := List.length candidate in
  if n <? List.length head + List.length tail then Some (MatchResult false b)
  else
    let front := firstn (List.length head) candidate in
    let back := skipn (n - List.length tail) candidate in
    let middle := skipn (List.length head) (firstn (n - List.length tail) candidate) in
    match match_pairwise rec (combine head front) b with
    | None => None
    | Some rh =>
        if isMatch rh then
          match match_pairwise rec (combine tail back) (result_bindings rh) with
          | None => None
          | Some rt =>
              if isMatch rt
              then Some (MatchResult true (obj_set (result_bindings rt) restName (VArr middle)))
              else Some (MatchResult false (result_bindings rt))
          end
        else Some (MatchResult false (result_bindings rh))
    end.

End Matcher.

(** ** Insertion-ordered maps and sets

    A JavaScript [Map] iterates in insertion order, and so does a [Set];
    both are association lists here.  Keys are compared by the equality
    given ([SameValueZero] on the keys the engine uses: identities and
    type names). *)

Module JSMap.
Section Def.
Variables K V : Type.
Variable eqb : K -> K -> bool.

Definition t := list (K * V).

Fixpoint get (m : t) (k : K) : option V :=
  match m with
  | [] => None
  | (k', v) :: m' => if eqb k' k then Some v else get m' k
  end.

Definition has (m : t) (k : K) : bool :=
  match get m k with Some _ => true | None => false end.

(** [m.set(k, v)]: an existing key keeps its position. *)
Fixpoint set (m : t) (k : K) (v : V) : t :=
  match m with
  | [] => [(k, v)]
  | (k', v') :: m' => if eqb k' k then (k', v) :: m' else (k', v') :: set m' k v
  end.

Fixpoint delete (m : t) (k : K) : t :=
  match m with
  | [] => []
  | (k', v') :: m' => if eqb k' k then m' else (k', v') :: delete m' k
  end.

Definition values (m : t) : list V := map snd m.
Definition size (m : t) : nat := List.length m.

End Def.
End JSMap.

Module JSSet.

(** A [Set] of identities. *)
Definition t := list nat.

Definition has (s : t) (x : nat) : bool := existsb (Nat.eqb x) s.
Definition add (s : t) (x : nat) : t := if has s x then s else s ++ [x].

End JSSet.

(** ** FactStorage.js *)

Module FactStorage.

(** The metadata object of an entry: [{}] at first; a logical assertion sets
    [logical = true] and [producedBy] to the identity of the activation. *)
Record Metadata := { logical : bool; producedBy : option nat }.

Definition no_metadata : Metadata := {| logical := false; producedBy := None |}.

(** [{ fact, metadata }].  [fact] is the stored copy, which carries the
    identity as its [_id] property; [fact_id] is that identity.  Identities
    are the integers 1, 2, 3, ... of the counter, written into fact objects
    as the numbers [num_of_nat id]. *)
Record FactEntry := { fact : fields; fact_id : nat; metadata : Metadata }.

Record t := {
  factIdCounter : nat;
  facts : JSMap.t nat FactEntry;
  alphaNetwork : JSMap.t string (JSMap.t nat fields)
}.

Definition empty : t := {| factIdCounter := 0; facts := []; alphaNetwork := [] |}.

(** [getFactsByType(type)]: the facts of the type index, oldest first, as
    pairs of identity and fact object. *)
Definition getFactsByType (st : t) (type : string) : list (nat * fields) :=
  match JSMap.get String.eqb (alphaNetwork st) type with
  | Some idx => idx
  | None => []
  end.

Definition getFactEntry (st : t) (id : nat) : option FactEntry :=
  JSMap.get Nat.eqb (facts st) id.

(** [assert(fact, metadata = {})]: [None] is the [null] returned for an
    invalid fact. *)
Definition assert (st : t) (fact : value) (metadata : Metadata) : t * option FactEntry :=
  if negb (to_boolean fact) then (st, None) else
  match get_prop fact "type", fact with
  | VStr type, VObj fs =>
      let factId := S (factIdCounter st) in
      let newFact := obj_set fs "_id" (VNum (num_of_nat factId)) in
      let factEntry := {| fact := newFact; fact_id := factId; metadata := metadata |} in
      let facts' := JSMap.set Nat.eqb (facts st) factId factEntry in
      let alpha' :=
        match JSMap.get String.eqb (alphaNetwork st) type with
        | Some factTypeIndex =>
            JSMap.set String.eqb (alphaNetwork st) type
              (JSMap.set Nat.eqb factTypeIndex factId newFact)
        | None => JSMap.set String.eqb (alphaNetwork st) type [(factId, newFact)]
        end in
      ({| factIdCounter := factId; facts := facts'; alphaNetwork := alpha' |}, Some factEntry)
  | _, _ => (st, None)
  end.

(** The type under which a stored fact is indexed: [entry.fact.type]. *)
Definition type_of (f : fields) : option string :=
  match obj_get f "type" with VStr s => Some s | _ => None end.

(** [retract(factId)] *)
Definition retract (st : t) (factId : nat) : t * option FactEntry :=
  match JSMap.get Nat.eqb (facts st) factId with
  | None => (st, None)
  | Some entry =>
      let facts' := JSMap.delete Nat.eqb (facts st) factId in
      let alpha' :=
        match type_of (fact entry) with
        | Some type =>
            match JSMap.get String.eqb (alphaNetwork st) type with
            | Some factTypeIndex =>
                let idx' := JSMap.delete Nat.eqb factTypeIndex factId in
                if JSMap.size idx' =? 0 then JSMap.delete String.eqb (alphaNetwork st) type
                else JSMap.set String.eqb (alphaNetwork st) type idx'
            | None => alphaNetwork st
            end
        | None => alphaNetwork st
        end in
      ({| factIdCounter := factIdCounter st; facts := facts'; alphaNetwork := alpha' |},
       Some entry)
  end.

(** The entry with its metadata object updated in place
    ([finalEntry.metadata.logical = true; finalEntry.metadata.producedBy = id]). *)
Definition set_metadata (st : t) (id : nat) (m : Metadata) : t :=
  match JSMap.get Nat.eqb (facts st) id with
  | Some entry =>
      {| factIdCounter := factIdCounter st;
         facts := JSMap.set Nat.eqb (facts st) id
                    {| fact := fact entry; fact_id := fact_id entry; metadata := m |};
         alphaNetwork := alphaNetwork st |}
  | None => st
  end.

Definition clear (st : t) : t := empty.

(** What holds of every store the operations above produce from [empty]:
    no identity beyond the counter, no identity twice, every entry under
    the identity it carries. *)
Definition wf (st : t) : Prop :=
  (forall id, In id (map fst (facts st)) -> id <= factIdCounter st)
  /\ NoDup (map fst (facts st))
  /\ (forall id entry, getFactEntry st id = Some entry -> fact_id entry = id).

End FactStorage.

(** ** Agenda.js *)

Module Agenda.

Inductive task_type := TAssert | TRetract.

(** [{ type, fact }]; [task_fact_id] is [fact._id]. *)
Record Task := { task_type_of : task_type; task_fact : fields; task_fact_id : nat }.

Definition t := list Task.

Definition hasTasks (a : t) : bool := 0 <? List.length a.
Definition push (a : t) (x : Task) : t := a ++ [x].
Definition shift (a : t) : option Task * t :=
  match a with
  | [] => (None, [])
  | x :: a' => (Some x, a')
  end.
Definition clear (a : t) : t := [].

End Agenda.

(** ** Definitions: rules, queries and what a rule's action may do *)

Module Defs.

Import Matcher.

(** A condition of a [when] list.
    - [CLacks p]: [{ _isLacksCondition: true, pattern: p }];
    - [CAccumulate from accumulate on into]:
      [{ _isAccumulator: true, from, accumulate, on, into }];
    - [CPattern patternObject guards]: [[patternObject, ...guards]], or the
      bare [patternObject] when there is no guard. *)
Inductive condition :=
| CLacks (pattern : fields)
| CAccumulate (from : fields) (accumulate : string) (on : value) (into : string)
| CPattern (patternObject : fields) (guards : list value).

(** What an action does with the context it is given, as a tree: each node
    is one call on the context and the continuation receives what the call
    returned (for [assertFact] the asserted fact object, given with the
    identity its [_id] holds, or [None] for [null]).  [Throw name] ends the action with an exception whose
    constructor is called [name]. *)
Inductive action :=
| Done
| Throw (name : string)
| CtxAssertFact (factData : fields) (logical : bool) (k : option (nat * fields) -> action)
| CtxModifyFact (factId : nat) (updates : fields) (k : action)
| CtxUpdateFact (factId : nat) (updateFn : fields -> value) (k : action)
| CtxRetractWhere (patternObject : value) (k : action)
| CtxPublish (topicName : value) (payload : value) (k : action)
| CtxAddRule (r : rule) (k : action)
| CtxRetractRule (ruleId : string) (k : bool -> action)
(** A rule: [id], [when], [pre], [salience] (any value, possibly absent) and
    the action [then].  The optional hooks [around], [after], [post],
    [throws] and [log] are absent from the rules considered here. *)
with rule :=
| Rule (id : string) (when : list condition) (pre : list value) (salience : value)
       (then_ : bindings -> action).

Definition rule_id (r : rule) : string := let (i, _, _, _, _) := r in i.
Definition rule_when (r : rule) : list condition := let (_, w, _, _, _) := r in w.
Definition rule_pre (r : rule) : list value := let (_, _, p, _, _) := r in p.
Definition rule_salience (r : rule) : value := let (_, _, _, s, _) := r in s.
Definition rule_then (r : rule) : bindings -> action := let (_, _, _, _, t) := r in t.

Inductive direction := Asc | Desc.

(** A query: [id], [when] and the result-shaping options. *)
Record query := {
  query_id : string;
  query_when : list condition;
  orderBy : option (string * direction);
  offset : value;
  limit : value
}.

(** An entry of the definition table; [type === 'query'] tells them apart. *)
Inductive definition :=
| DRule (r : rule)
| DQuery (q : query).

Definition def_id (d : definition) : string :=
  match d with DRule r => rule_id r | DQuery q => query_id q end.

Definition def_when (d : definition) : list condition :=
  match d with DRule r => rule_when r | DQuery q => query_when q end.

(** [{ rule, bindings, consumedFactIds }] *)
Record Activation := {
  act_rule : definition;
  act_bindings : bindings;
  consumedFactIds : JSSet.t
}.

(** [rule.salience] of an activation: queries have none. *)
Definition act_salience (a : Activation) : value :=
  match act_rule a with DRule r => rule_salience r | DQuery _ => VUndef end.

(** The error a guard evaluation raises. *)
Inductive guard_failure :=
| NotAnExpression
| WrongArity (op : string) (got : nat)
| NonNumericOperand (op : string) (position : nat)
| DivisionByZero
| UnknownOperator (op : value).

(** Exceptions. *)
Inductive exn :=
| GuardTypeError (f : guard_failure)
| GuardError (f : guard_failure)
| TypeError_
| StackOverflow
| UserError (name : string).

(** Events given to the emitter, by name, with the parts of the payload the
    properties below look at. *)
Inductive event :=
| engine_error
| engine_schemaError
| engine_definitionAdded (definitionId : string)
| engine_definitionRetracted (definitionId : string)
| engine_guardError (ruleId : option string) (guard : value) (error : exn) (b : bindings)
| engine_beforeCycle
| engine_afterCycle
| fact_asserted (f : fields)
| fact_retracted (f : fields) (factId : nat)
| fact_assertedByRule (f : fields) (ruleId : string) (logical : bool)
| fact_produced (f : fields) (ruleId : string)
| agenda_taskProcessed (t : Agenda.Task)
| rule_activationFound (ruleId : string) (b : bindings)
| rule_beforePreConditions (ruleId : string)
| rule_preConditionsFailed (ruleId : string)
| rule_afterPreConditions (ruleId : string)
| rule_beforeAction (ruleId : string)
| rule_actionSuccess (ruleId : string)
| rule_actionError (ruleId : string) (error : exn)
| rule_activationYielded (ruleId : string) (b : bindings)
| tms_processingStarted (retractedFactId : nat) (potentialInvalidations : nat)
| tms_activationInvalidated (ruleId : string) (activationId : nat)
| tms_factRetracted (f : fields) (ruleId : string) (originFactId : nat).

End Defs.
Export Defs.

(** ** SalienceConflictResolver.js *)

Module Resolver.

(** The property key a number denotes.  [groups[salience]] goes through
    ToString, which is injective on numbers except that both zeros print
    as ["0"], and [Number] reads the key back as the same number: a key is
    represented by the number it prints. *)
Definition key_of (x : number) : number :=
  match x with S754_zero _ => pos_zero | _ => x end.

(** [rule.salience !== undefined && typeof rule.salience === 'number'
     ? rule.salience : 0] *)
Definition salience_of (a : Activation) : number :=
  match act_salience a with
  | VNum x => x
  | _ => pos_zero
  end.

(** The key an activation is grouped under. *)
Definition key (a : Activation) : number := key_of (salience_of a).

Definition groups := JSMap.t number (list Activation).

(** One step of the [reduce]: [groups[salience].push(activation)], the
    group being created when it does not exist yet. *)
Definition group_step (g : groups) (activation : Activation) : groups :=
  let salience := key_of (salience_of activation) in
  match JSMap.get num_same g salience with
  | None => JSMap.set num_same g salience [activation]
  | Some grp => JSMap.set num_same g salience (grp ++ [activation])
  end.

Definition groupedBySalience (activations : list Activation) : groups :=
  fold_left group_step activations [].

(** [Math.max(a, b)]: NaN if either is, and [+0] is above [-0]. *)
Definition max2 (a b : number) : number :=
  if is_nan a || is_nan b then NaN
  else match a, b with
       | S754_zero sa, S754_zero sb => S754_zero (sa && sb)
       | _, _ => if num_lt a b then b else a
       end.

(** [Math.max(...l)] *)
Definition math_max (l : list number) : number := fold_left max2 l neg_infinity.

(** [resolve(matchIterator)]; [None] is [null]. *)
Definition resolve (activations : list Activation) : option Activation :=
  match activations with
  | [] => None
  | [a] => Some a
  | _ =>
      let g := groupedBySalience activations in
      let salienceLevels := map fst g in
      let highestSalience := math_max salienceLevels in
      match JSMap.get num_same g (key_of highestSalience) with
      | Some grp => hd_error grp
      | None => None
      end
  end.

End Resolver.

(** ** Computations that emit events and may throw *)

Module Eff.

(** The events emitted, oldest first, and then a result or the exception
    that ended the computation. *)
Definition M (A : Type) : Type := list event * (A + exn).

Definition ret {A} (a : A) : M A := ([], inl a).
Definition throw {A} (e : exn) : M A := ([], inr e).
Definition emit (ev : event) : M unit := ([ev], inl tt).
Definition bind {A B} (c : M A) (k : A -> M B) : M B :=
  match c with
  | (evs, inl a) => let (evs', r) := k a in (evs ++ evs', r)
  | (evs, inr e) => (evs, inr e)
  end.

(** [try { c } catch (e) { handler }] *)
Definition try_catch {A} (c : M A) (handler : exn -> M A) : M A :=
  match c with
  | (evs, inl a) => (evs, inl a)
  | (evs, inr e) => let (evs', r) := handler e in (evs ++ evs', r)
  end.

Definition events_of {A} (c : M A) : list event := fst c.
Definition outcome {A} (c : M A) : A + exn := snd c.

End Eff.

Declare Scope eff_scope.
Delimit Scope eff_scope with eff.
Notation "x <- c ;; k" := (Eff.bind c (fun x => k))
  (at level 61, c at next level, right associativity) : eff_scope.
Notation "c ;;; k" := (Eff.bind c (fun _ => k))
  (at level 61, right associativity) : eff_scope.

(** ** The guard interpreter of LeapEngine.js *)

Module Guard.
Import Eff Matcher.
Local Open Scope eff_scope.

Definition one : number := num_of_Z 1.

(** [typeof arg === 'boolean' ? (arg ? 1 : 0) : Number(arg)], on an operand
    that is a number or a boolean. *)
Definition numeric (v : value) : number :=
  match v with
  | VBool true => one
  | VBool false => pos_zero
  | VNum x => x
  | _ => NaN
  end.

Definition is_numeric_operand (v : value) : bool :=
  match v with VNum _ | VBool _ => true | _ => false end.

Definition is_string (v : value) : bool :=
  match v with VStr _ => true | _ => false end.

(** [#resolveGuardValue(v, bindings)] for an operand that is not a nested
    expression: a variable reference reads the bindings, anything else is a
    literal. *)
Definition resolve_plain (b : Matcher.bindings) (v : value) : value :=
  match v with
  | VStr s => if startsWith s "?" then obj_get b s else v
  | _ => v
  end.

(** The exceptions the guard interpreter itself raises. *)
Definition is_guard_exn (ex : exn) : bool :=
  match ex with GuardTypeError _ | GuardError _ => true | _ => false end.

Definition add (x y : number) : number := SFadd prec emax x y.
Definition sub (x y : number) : number := SFsub prec emax x y.
Definition mul (x y : number) : number := SFmul prec emax x y.
Definition div (x y : number) : number := SFdiv prec emax x y.
Definition neg (x : number) : number := SFopp x.

Section Interp.
Variable h : Host.

(** [a === b] *)
Definition strict_eq (a b : value) : bool :=
  match a, b with
  | VUndef, VUndef => true
  | VNull, VNull => true
  | VBool x, VBool y => Bool.eqb x y
  | VNum x, VNum y => num_eq x y
  | VStr x, VStr y => String.eqb x y
  | VSym x, VSym y => Nat.eqb x y
  | (VFun _ | VArr _ | VObj _), (VFun _ | VArr _ | VObj _) => ref_eq h a b
  | _, _ => false
  end.

(** The property key a value is used as. *)
Definition to_key (v : value) : string :=
  match v with VStr s => s | _ => host_to_string h v end.

(** [l.join('')] *)
Definition join (l : list value) : string :=
  fold_right (fun v acc =>
    ((match v with
      | VUndef | VNull => EmptyString
      | VStr s => s
      | _ => host_to_string h v
      end) ++ acc)%string) EmptyString l.

(** The loop over the path segments. *)
Fixpoint walk_path (obj : value) (pathSegments : list value) : value :=
  match pathSegments with
  | [] => obj
  | part :: rest =>
      if to_boolean obj && is_object obj then
        let direct := get_prop obj (to_key part) in
        let next := if is_nullish direct then get_prop obj ("?" ++ to_key part)%string
                    else direct in
        walk_path next rest
      else VUndef
  end.

(** [expectNumericOperands(opName, operands, numExpected)], as a scan for
    the first offending operand. *)
Fixpoint first_non_numeric (operands : list value) (i : nat) : option nat :=
  match operands with
  | [] => None
  | o :: rest => if is_numeric_operand o then first_non_numeric rest (S i) else Some (S i)
  end.

Definition expectNumericOperands (guard : value) (b : bindings) (ruleId : option string)
    (opName : string) (operands : list value) (numExpected : option nat) : M unit :=
  let fail f := (emit (engine_guardError ruleId guard (GuardTypeError f) b) ;;;
                 throw (GuardTypeError f)) in
  match numExpected with
  | Some n =>
      if negb (List.length operands =? n) then fail (WrongArity opName (List.length operands))
      else match first_non_numeric operands 0 with
           | Some i => fail (NonNumericOperand opName i)
           | None => ret tt
           end
  | None =>
      match first_non_numeric operands 0 with
      | Some i => fail (NonNumericOperand opName i)
      | None => ret tt
      end
  end.

(** The operator dispatch ([switch (op)]) on resolved operands. *)
Definition apply_operator (guard : value) (b : bindings) (ruleId : option string)
    (op : value) (resolvedArgs : list value) : M value :=
  let numericArgs := map numeric resolvedArgs in
  let n0 := nth 0 numericArgs NaN in
  let n1 := nth 1 numericArgs NaN in
  let expect := expectNumericOperands guard b ruleId in
  let unknown := (emit (engine_guardError ruleId guard (GuardError (UnknownOperator op)) b) ;;;
                  throw (GuardError (UnknownOperator op))) in
  match op with
  | VStr o =>
      if String.eqb o ">" then expect o resolvedArgs (Some 2) ;;; ret (VBool (num_lt n1 n0))
      else if String.eqb o ">=" then expect o resolvedArgs (Some 2) ;;; ret (VBool (SFleb n1 n0))
      else if String.eqb o "<" then expect o resolvedArgs (Some 2) ;;; ret (VBool (num_lt n0 n1))
      else if String.eqb o "<=" then expect o resolvedArgs (Some 2) ;;; ret (VBool (SFleb n0 n1))
      else if String.eqb o "===" then
        ret (VBool (strict_eq (nth 0 resolvedArgs VUndef) (nth 1 resolvedArgs VUndef)))
      else if String.eqb o "!==" then
        ret (VBool (negb (strict_eq (nth 0 resolvedArgs VUndef) (nth 1 resolvedArgs VUndef))))
      else if String.eqb o "+" then
        if existsb is_string resolvedArgs then ret (VStr (join resolvedArgs))
        else expect o resolvedArgs None ;;; ret (VNum (fold_left add numericArgs pos_zero))
      else if String.eqb o "-" then
        expect o resolvedArgs None ;;;
        match numericArgs with
        | [] => ret VUndef
        | [x] => ret (VNum (neg x))
        | x :: rest => ret (VNum (fold_left sub rest x))
        end
      else if String.eqb o "*" then
        expect o resolvedArgs None ;;; ret (VNum (fold_left mul numericArgs one))
      else if String.eqb o "/" then
        expect o resolvedArgs (Some 2) ;;;
        if num_eq n1 pos_zero then
          emit (engine_guardError ruleId guard (GuardError DivisionByZero) b) ;;;
          throw (GuardError DivisionByZero)
        else ret (VNum (div n0 n1))
      else unknown
  | _ => unknown
  end.

(** [#executeGuard(guard, bindings, ruleIdForContext)], with
    [#resolveGuardValue] inlined at its uses: a variable reference reads the
    bindings, an array is evaluated as a nested expression (reported with no
    rule identity), anything else is a literal. *)
Fixpoint executeGuard (guard : value) (b : bindings) (ruleIdForContext : option string)
    {struct guard} : M value :=
  match guard with
  | VArr (op :: args) =>
      let resolveGuardValue := fun (v : value) (sub : M value) =>
        match v with
        | VStr s => if startsWith s "?" then ret (obj_get b s) else ret v
        | VArr _ => sub
        | _ => ret v
        end in
      let resolve_nth := fun (i : nat) =>
        (fix pick (l : list value) (i : nat) {struct l} : M value :=
           match l, i with
           | [], _ => ret VUndef
           | v :: _, O => resolveGuardValue v (executeGuard v b None)
           | _ :: l', S i' => pick l' i'
           end) args i in
      let is_op := fun (name : string) =>
        match op with VStr o => String.eqb o name | _ => false end in
      if is_op "path" || is_op "pathOr" then
        let isOr := is_op "pathOr" in
        let defaultValue := if isOr then nth 0 args VUndef else VUndef in
        let pathSegments := if isOr then skipn 2 args else skipn 1 args in
        obj <- resolve_nth (if isOr then 1 else 0) ;;
        let r := walk_path obj pathSegments in
        ret (if is_undefined r && isOr then defaultValue else r)
      else if is_op "isNil" then
        if negb (List.length args =? 1)
        then throw (GuardTypeError (WrongArity "isNil" (List.length args)))
        else val <- resolve_nth 0 ;; ret (VBool (is_nullish val))
      else if is_op "isDefined" then
        if negb (List.length args =? 1)
        then throw (GuardTypeError (WrongArity "isDefined" (List.length args)))
        else val <- resolve_nth 0 ;; ret (VBool (negb (is_nullish val)))
      else if is_op "hasSize" then
        if negb (List.length args =? 2)
        then throw (GuardTypeError (WrongArity "hasSize" (List.length args)))
        else
          target <- resolve_nth 0 ;;
          sizeMatcher <- resolve_nth 1 ;;
          let len := get_prop target "length" in
          let size := if is_nullish len then get_prop target "size" else len in
          match size with
          | VNum _ =>
              match sizeMatcher with
              | VFun f =>
                  match call_fn h f size with
                  | Some r => ret r
                  | None => throw (UserError "Error")
                  end
              | _ => ret (VBool (strict_eq size sizeMatcher))
              end
          | _ => ret (VBool false)
          end
      else
        resolvedArgs <-
          (fix resolve_all (l : list value) {struct l} : M (list value) :=
             match l with
             | [] => ret []
             | v :: l' =>
                 x <- resolveGuardValue v (executeGuard v b None) ;;
                 xs <- resolve_all l' ;;
                 ret (x :: xs)
             end) args ;;
        apply_operator guard b ruleIdForContext op resolvedArgs
  | _ =>
      emit (engine_guardError ruleIdForContext guard (GuardTypeError NotAnExpression) b) ;;;
      throw (GuardTypeError NotAnExpression)
  end.

End Interp.
End Guard.

(** ** LeapEngine.js: state and fact operations *)

Module Engine.
Import Matcher.

(** An entry of the activation table:
    [{ ruleId, consumed, produced }]. *)
Record TrackedActivation := {
  ruleId : string;
  consumed : JSSet.t;
  produced : JSSet.t
}.

(** The private fields of the engine; [emitted] is everything handed to the
    event emitter so far, oldest first. *)
Record t := {
  factStorage : FactStorage.t;
  agenda : Agenda.t;
  definitions : JSMap.t string definition;
  activations : JSMap.t nat TrackedActivation;
  activationCounter : nat;
  emitted : list event
}.

Definition init : t :=
  {| factStorage := FactStorage.empty; agenda := []; definitions := [];
     activations := []; activationCounter := 0; emitted := [] |}.

Definition with_storage (e : t) (fs : FactStorage.t) : t :=
  {| factStorage := fs; agenda := agenda e; definitions := definitions e;
     activations := activations e; activationCounter := activationCounter e;
     emitted := emitted e |}.

Definition with_agenda (e : t) (a : Agenda.t) : t :=
  {| factStorage := factStorage e; agenda := a; definitions := definitions e;
     activations := activations e; activationCounter := activationCounter e;
     emitted := emitted e |}.

Definition with_definitions (e : t) (d : JSMap.t string definition) : t :=
  {| factStorage := factStorage e; agenda := agenda e; definitions := d;
     activations := activations e; activationCounter := activationCounter e;
     emitted := emitted e |}.

Definition with_activations (e : t) (a : JSMap.t nat TrackedActivation) : t :=
  {| factStorage := factStorage e; agenda := agenda e; definitions := definitions e;
     activations := a; activationCounter := activationCounter e;
     emitted := emitted e |}.

Definition with_activationCounter (e : t) (n : nat) : t :=
  {| factStorage := factStorage e; agenda := agenda e; definitions := definitions e;
     activations := activations e; activationCounter := n;
     emitted := emitted e |}.

(** [#emit(eventName, data)] *)
Definition emit (e : t) (ev : event) : t :=
  {| factStorage := factStorage e; agenda := agenda e; definitions := definitions e;
     activations := activations e; activationCounter := activationCounter e;
     emitted := emitted e ++ [ev] |}.

Definition emit_all (e : t) (evs : list event) : t := fold_left emit evs e.

(** White space removed by [trim()], among the characters of these strings. *)
Definition is_space (c : ascii) : bool :=
  let n := nat_of_ascii c in
  ((9 <=? n) && (n <=? 13)) || (n =? 32) || (n =? 160).

Fixpoint all_space (s : string) : bool :=
  match s with
  | EmptyString => true
  | String c s' => is_space c && all_space s'
  end.

(** [s.trim() === ''] *)
Definition is_blank (s : string) : bool := all_space s.

(** [addDefinition(definition)] *)
Definition addDefinition (e : t) (d : definition) : t :=
  if is_blank (def_id d) then emit e engine_error
  else emit (with_definitions e (JSMap.set String.eqb (definitions e) (def_id d) d))
            (engine_definitionAdded (def_id d)).

(** [retractDefinition(definitionId)] *)
Definition retractDefinition (e : t) (definitionId : string) : t * bool :=
  if JSMap.has String.eqb (definitions e) definitionId then
    (emit (with_definitions e (JSMap.delete String.eqb (definitions e) definitionId))
          (engine_definitionRetracted definitionId), true)
  else (emit e engine_error, false).

(** [retractFact(factId)] *)
Definition retractFact (e : t) (factId : nat) : t :=
  match FactStorage.retract (factStorage e) factId with
  | (fs', Some retractedEntry) =>
      let e1 := emit (with_storage e fs')
                  (fact_retracted (FactStorage.fact retractedEntry) factId) in
      with_agenda e1
        (Agenda.push (agenda e1)
           {| Agenda.task_type_of := Agenda.TRetract;
              Agenda.task_fact := FactStorage.fact retractedEntry;
              Agenda.task_fact_id := FactStorage.fact_id retractedEntry |})
  | (_, None) => e
  end.

Section WithHost.
Variable h : Host.

(** [assertFact(factData)]: the asserted fact object, given with the
    identity its [_id] holds, or [None] for [null]. *)
Definition assertFact (e : t) (factData : fields) : t * option (nat * fields) :=
  let factToAssert := factData in
  match obj_get factToAssert "type" with
  | VStr templateName =>
      if is_blank templateName then (emit e engine_error, None)
      else
        match schema_validate h templateName factToAssert with
        | None => (emit e engine_schemaError, None)
        | Some factToAssert' =>
            match FactStorage.assert (factStorage e) (VObj factToAssert')
                    FactStorage.no_metadata with
            | (fs', Some newFactEntry) =>
                let e1 := emit (with_storage e fs')
                            (fact_asserted (FactStorage.fact newFactEntry)) in
                (with_agenda e1
                   (Agenda.push (agenda e1)
                      {| Agenda.task_type_of := Agenda.TAssert;
                         Agenda.task_fact := FactStorage.fact newFactEntry;
                         Agenda.task_fact_id := FactStorage.fact_id newFactEntry |}),
                 Some (FactStorage.fact_id newFactEntry, FactStorage.fact newFactEntry))
            | (_, None) => (e, None)
            end
        end
  | _ => (emit e engine_error, None)
  end.

(** [modifyFact(factId, updates)] *)
Definition modifyFact (e : t) (factId : nat) (updates : fields) : t :=
  match FactStorage.getFactEntry (factStorage e) factId with
  | None => emit e engine_error
  | Some originalEntry =>
      let newFactData := obj_spread (FactStorage.fact originalEntry) updates in
      let originalType := obj_get (FactStorage.fact originalEntry) "type" in
      let newFactData := obj_delete newFactData "_id" in
      let e1 := retractFact e factId in
      fst (assertFact e1 (obj_set newFactData "type" originalType))
  end.

(** [updateFact(factId, updateFn)] *)
Definition updateFact (e : t) (factId : nat) (updateFn : fields -> value) : t :=
  match FactStorage.getFactEntry (factStorage e) factId with
  | None => emit e engine_error
  | Some originalEntry =>
      match updateFn (FactStorage.fact originalEntry) with
      | VObj updates => modifyFact e factId updates
      | _ => emit e engine_error
      end
  end.

(** [Object.keys(v)[0]] *)
Definition first_key (v : value) : option string :=
  match v with
  | VObj fs => hd_error (keys fs)
  | VArr (_ :: _) => Some "0"
  | VStr (String _ _) => Some "0"
  | _ => None
  end.

(** [retractWhere(patternObject)]; the exception is the matcher's stack
    overflow. *)
Definition retractWhere (depth : nat) (e : t) (patternObject : value) : t * option exn :=
  if negb (is_object patternObject) then (emit e engine_error, None) else
  match first_key patternObject with
  | None => (emit e engine_error, None)
  | Some factType =>
      if String.eqb factType EmptyString then (emit e engine_error, None) else
      let pattern := get_prop patternObject factType in
      if negb (is_object pattern) then (emit e engine_error, None) else
      let scan :=
        fold_left
          (fun (acc : list nat * option exn) (factEntry : nat * fields) =>
             match acc with
             | (_, Some _) => acc
             | (factsToRetract, None) =>
                 let plainFact :=
                   if is_undefined (obj_get (snd factEntry) "fact") then VObj (snd factEntry)
                   else obj_get (snd factEntry) "fact" in
                 if negb (to_boolean plainFact) then acc
                 else match match_ h depth pattern plainFact [] with
                      | None => (factsToRetract, Some StackOverflow)
                      | Some r =>
                          if isMatch r then (factsToRetract ++ [fst factEntry], None)
                          else acc
                      end
             end)
          (FactStorage.getFactsByType (factStorage e) factType) ([], None) in
      match scan with
      | (_, Some ex) => (e, Some ex)
      | (factsToRetract, None) => (fold_left retractFact factsToRetract e, None)
      end
  end.

End WithHost.
End Engine.

(** ** LeapEngine.js: the condition join *)

Module Join.
Import Matcher Eff.
Local Open Scope eff_scope.

(** What a generator did when run to its end: the events it emitted, the
    values it yielded, and the exception that ended it, if one did. *)
Record Gen := {
  gen_events : list event;
  gen_yields : list Activation;
  gen_thrown : option exn
}.

Definition gen_empty : Gen := {| gen_events := []; gen_yields := []; gen_thrown := None |}.
Definition gen_throw (ex : exn) : Gen :=
  {| gen_events := []; gen_yields := []; gen_thrown := Some ex |}.
Definition gen_yield (a : Activation) : Gen :=
  {| gen_events := []; gen_yields := [a]; gen_thrown := None |}.

(** [g1] and then, unless it threw, [g2]. *)
Definition gen_seq (g1 g2 : Gen) : Gen :=
  match gen_thrown g1 with
  | Some _ => g1
  | None => {| gen_events := gen_events g1 ++ gen_events g2;
               gen_yields := gen_yields g1 ++ gen_yields g2;
               gen_thrown := gen_thrown g2 |}
  end.

(** [try { g } catch (e) {}] *)
Definition gen_catch (g : Gen) : Gen :=
  {| gen_events := gen_events g; gen_yields := gen_yields g; gen_thrown := None |}.

Definition gen_emit (evs : list event) (g : Gen) : Gen :=
  {| gen_events := evs ++ gen_events g; gen_yields := gen_yields g;
     gen_thrown := gen_thrown g |}.

(** [(factEntry && typeof factEntry.fact === 'object' && factEntry.fact !== null)
     ? factEntry.fact : factEntry] *)
Definition plainFact_of (factEntry : fields) : value :=
  if is_object (obj_get factEntry "fact") then obj_get factEntry "fact"
  else VObj factEntry.

(** The source of a Lacks or Accumulator condition:
    [factType = Object.keys(o)[0]], [pattern = o[factType]], and the facts
    [getFactsByType(factType)] has. *)
Definition source_pattern (o : fields) : value :=
  match hd_error (keys o) with
  | Some factType => obj_get o factType
  | None => VUndef
  end.

Definition source_candidates (fs : FactStorage.t) (o : fields) : list (nat * fields) :=
  match hd_error (keys o) with
  | Some factType => FactStorage.getFactsByType fs factType
  | None => []
  end.

Definition is_pattern_condition (c : condition) : bool :=
  match c with CPattern _ _ => true | _ => false end.

(** The number of Pattern conditions of a condition list. *)
Definition count_patterns (cs : list condition) : nat :=
  List.length (filter is_pattern_condition cs).

Section WithHost.
Variable h : Host.
Variable depth : nat.

(** [guards.every(guard => executeGuard(guard, bindings, ruleId))] *)
Fixpoint every_guard (guards : list value) (b : bindings) (rid : option string) : M bool :=
  match guards with
  | [] => ret true
  | guard :: rest =>
      r <- Guard.executeGuard h guard b rid ;;
      if to_boolean r then every_guard rest b rid else ret false
  end.

(** The scan of a Lacks condition: [inl found], or the matcher's failure. *)
Fixpoint lacks_scan (pattern : value) (candidates : list (nat * fields))
    (initialBindings : bindings) : bool + exn :=
  match candidates with
  | [] => inl false
  | factEntry :: rest =>
      match match_ h depth pattern (plainFact_of (snd factEntry)) initialBindings with
      | None => inr StackOverflow
      | Some r => if isMatch r then inl true else lacks_scan pattern rest initialBindings
      end
  end.

(** The scan of an Accumulator condition: the matching source facts. *)
Fixpoint accumulate_scan (pattern : value) (candidates : list (nat * fields))
    (initialBindings : bindings) : list value + exn :=
  match candidates with
  | [] => inl []
  | factEntry :: rest =>
      match match_ h depth pattern (plainFact_of (snd factEntry)) initialBindings with
      | None => inr StackOverflow
      | Some r =>
          match accumulate_scan pattern rest initialBindings with
          | inr ex => inr ex
          | inl sourceFacts =>
              inl (if isMatch r then plainFact_of (snd factEntry) :: sourceFacts
                   else sourceFacts)
          end
      end
  end.

(** The alias bindings of a Pattern condition. *)
Definition bind_alias (currentBindings : bindings) (factAlias : string) (plainFact : value)
    : bindings :=
  if negb (to_boolean (VStr factAlias)) then currentBindings else
  let b1 := if negb (to_boolean (obj_get currentBindings factAlias))
            then obj_set currentBindings factAlias plainFact else currentBindings in
  let varAlias := if startsWith factAlias "?" then factAlias
                  else ("?" ++ factAlias)%string in
  if negb (to_boolean (obj_get b1 varAlias)) then obj_set b1 varAlias plainFact else b1.

(** [pattern.type || (factAlias.startsWith('?') ? null : factAlias)], and
    the facts [getFactsByType] has for it. *)
Definition typeToQuery (pattern : value) (factAlias : string) : value :=
  if to_boolean (get_prop pattern "type") then get_prop pattern "type"
  else if startsWith factAlias "?" then VNull else VStr factAlias.

Definition candidates_of (fs : FactStorage.t) (type : value) : list (nat * fields) :=
  match type with
  | VStr s => FactStorage.getFactsByType fs s
  | _ => []
  end.

(** The loop of a Pattern condition over the candidate facts; [continue_]
    is the recursive call on the remaining conditions.  What the [try]
    block of a candidate throws is caught and the loop goes on. *)
Fixpoint pattern_loop (rid : string) (pattern : value) (factAlias : string)
    (guards : list value) (initialBindings : bindings) (consumed : JSSet.t)
    (continue_ : bindings -> JSSet.t -> Gen) (candidates : list (nat * fields)) : Gen :=
  match candidates with
  | [] => gen_empty
  | factEntry :: rest =>
      let plainFact := plainFact_of (snd factEntry) in
      match match_ h depth pattern plainFact initialBindings with
      | None => gen_throw StackOverflow
      | Some matchResult =>
          if isMatch matchResult then
            let currentBindings :=
              bind_alias (result_bindings matchResult) factAlias plainFact in
            let guarded := every_guard guards currentBindings (Some rid) in
            let body :=
              match outcome guarded with
              | inl true =>
                  let consumedId := fst factEntry in
                  let newConsumed := JSSet.add consumed consumedId in
                  gen_emit (events_of guarded) (continue_ currentBindings newConsumed)
              | inl false => gen_emit (events_of guarded) gen_empty
              | inr ex => gen_emit (events_of guarded) (gen_throw ex)
              end in
            gen_seq (gen_catch body)
              (pattern_loop rid pattern factAlias guards initialBindings consumed
                 continue_ rest)
          else pattern_loop rid pattern factAlias guards initialBindings consumed
                 continue_ rest
      end
  end.

(** [#checkRule(ruleOrQuery, whenConditions, initialBindings, consumed)],
    run to its end against the working memory [fs]. *)
Fixpoint checkRule (fs : FactStorage.t) (ruleOrQuery : definition)
    (whenConditions : list condition) (initialBindings : bindings) (consumed : JSSet.t)
    {struct whenConditions} : Gen :=
  match whenConditions with
  | [] =>
      gen_yield {| act_rule := ruleOrQuery; act_bindings := initialBindings;
                   consumedFactIds := consumed |}
  | CLacks lacksPatternObject :: remainingConditions =>
      let pattern := source_pattern lacksPatternObject in
      let candidates := source_candidates fs lacksPatternObject in
      match lacks_scan pattern candidates initialBindings with
      | inr ex => gen_throw ex
      | inl foundMatch =>
          if foundMatch then gen_empty
          else checkRule fs ruleOrQuery remainingConditions initialBindings consumed
      end
  | CAccumulate fromPatternObject accumulate onField intoVariable :: remainingConditions =>
      let pattern := source_pattern fromPatternObject in
      let candidates := source_candidates fs fromPatternObject in
      match accumulate_scan pattern candidates initialBindings with
      | inr ex => gen_throw ex
      | inl sourceFacts =>
          match accumulators h accumulate with
          | None => gen_throw TypeError_
          | Some accumulatorFn =>
              match accumulatorFn onField sourceFacts with
              | None => gen_throw (UserError "Error")
              | Some result =>
                  let nextBindings := obj_set initialBindings intoVariable result in
                  checkRule fs ruleOrQuery remainingConditions nextBindings consumed
              end
          end
      end
  | CPattern patternObject guards :: remainingConditions =>
      match hd_error (keys patternObject) with
      | None => gen_throw TypeError_
      | Some factAlias =>
          let pattern := obj_get patternObject factAlias in
          if is_nullish pattern then gen_throw TypeError_ else
          let candidateFacts := candidates_of fs (typeToQuery pattern factAlias) in
          pattern_loop (def_id ruleOrQuery) pattern factAlias guards initialBindings consumed
            (checkRule fs ruleOrQuery remainingConditions) candidateFacts
      end
  end.

(** [#findMatches(task)]: every rule of the table, queries skipped. *)
Fixpoint findMatches_in (fs : FactStorage.t) (defs : list definition) : Gen :=
  match defs with
  | [] => gen_empty
  | DQuery _ :: rest => findMatches_in fs rest
  | DRule r :: rest =>
      gen_seq (checkRule fs (DRule r) (rule_when r) [] []) (findMatches_in fs rest)
  end.

Definition findMatches (e : Engine.t) : Gen :=
  findMatches_in (Engine.factStorage e) (JSMap.values (Engine.definitions e)).

End WithHost.
End Join.

(** ** LeapEngine.js: truth maintenance and the run loop *)

Module Run.
Import Matcher Engine.

(** The body of the inner loop of [#truthMaintenance], for one identity of
    the produced set. *)
Definition retract_produced (activationId : nat) (activation : TrackedActivation)
    (retractedFactId : nat) (e : t) (factIdToRetract : nat) : t :=
  match FactStorage.getFactEntry (factStorage e) factIdToRetract with
  | Some entry =>
      if FactStorage.logical (FactStorage.metadata entry)
         && match FactStorage.producedBy (FactStorage.metadata entry) with
            | Some p => p =? activationId
            | None => false
            end
      then retractFact
             (emit e (tms_factRetracted (FactStorage.fact entry) (ruleId activation)
                        retractedFactId))
             factIdToRetract
      else e
  | None => e
  end.

(** The body of the outer loop, for one invalid activation. *)
Definition invalidate (retractedFactId : nat) (e : t) (activationId : nat) : t :=
  match JSMap.get Nat.eqb (activations e) activationId with
  | None => e
  | Some activation =>
      let e1 := emit e (tms_activationInvalidated (ruleId activation) activationId) in
      let e2 := fold_left (retract_produced activationId activation retractedFactId)
                  (produced activation) e1 in
      with_activations e2 (JSMap.delete Nat.eqb (activations e2) activationId)
  end.

(** The activations whose consumed set has the identity. *)
Definition invalidActivations (e : t) (retractedFactId : nat) : list nat :=
  map fst (filter (fun p => JSSet.has (consumed (snd p)) retractedFactId) (activations e)).

(** [#truthMaintenance(retractedFactId)] *)
Definition truthMaintenance (e : t) (retractedFactId : nat) : t :=
  let invalid := invalidActivations e retractedFactId in
  let e0 := if 0 <? List.length invalid
            then emit e (tms_processingStarted retractedFactId (List.length invalid))
            else e in
  fold_left (invalidate retractedFactId) invalid e0.

Section WithHost.
Variable h : Host.
Variable depth : nat.

(** [context.assertFact(factData, opts)] of the activation [activationId]
    of rule [rid]. *)
Definition ctx_assertFact (activationId : nat) (rid : string) (e : t)
    (factData : fields) (isLogical : bool) : t * option (nat * fields) :=
  match assertFact h e factData with
  | (e1, Some assertedFact) =>
      let id := fst assertedFact in
      let e2 :=
        match FactStorage.getFactEntry (factStorage e1) id with
        | Some _ =>
            if isLogical then
              with_storage e1
                (FactStorage.set_metadata (factStorage e1) id
                   {| FactStorage.logical := true;
                      FactStorage.producedBy := Some activationId |})
            else e1
        | None => e1
        end in
      let e3 :=
        match JSMap.get Nat.eqb (activations e2) activationId with
        | Some a =>
            with_activations e2
              (JSMap.set Nat.eqb (activations e2) activationId
                 {| ruleId := ruleId a; consumed := consumed a;
                    produced := JSSet.add (produced a) id |})
        | None => e2
        end in
      let e4 := emit e3 (fact_assertedByRule (snd assertedFact) rid isLogical) in
      (emit e4 (fact_produced (snd assertedFact) rid), Some assertedFact)
  | (e1, None) => (e1, None)
  end.

(** [context.publish(topicName, payload)] *)
Definition ctx_publish (e : t) (topicName payload : value) : t :=
  fst (assertFact h e
         [("type", VStr "_topic_event"); ("topic", topicName); ("payload", payload);
          ("timestamp", VNum (date_now h))]).

(** The action of a rule, run on the context of the activation: the engine
    afterwards, and the exception the action ended with, if any. *)
Fixpoint run_action (a : action) (activationId : nat) (rid : string) (e : t)
    : t * option exn :=
  match a with
  | Done => (e, None)
  | Throw name => (e, Some (UserError name))
  | CtxAssertFact factData isLogical k =>
      let (e1, r) := ctx_assertFact activationId rid e factData isLogical in
      run_action (k r) activationId rid e1
  | CtxModifyFact factId updates k =>
      run_action k activationId rid (modifyFact h e factId updates)
  | CtxUpdateFact factId updateFn k =>
      run_action k activationId rid (updateFact h e factId updateFn)
  | CtxRetractWhere patternObject k =>
      match retractWhere h depth e patternObject with
      | (e1, None) => run_action k activationId rid e1
      | (e1, Some ex) => (e1, Some ex)
      end
  | CtxPublish topicName payload k =>
      run_action k activationId rid (ctx_publish e topicName payload)
  | CtxAddRule r k =>
      run_action k activationId rid (addDefinition e (DRule r))
  | CtxRetractRule ruleId k =>
      let (e1, r) := retractDefinition e ruleId in
      run_action (k r) activationId rid e1
  end.

(** [rule.pre.every(guard => { try { return executeGuard(...) }
                               catch (e) { return false } })] *)
Fixpoint pre_every (pre : list value) (b : bindings) (rid : string) : list event * bool :=
  match pre with
  | [] => ([], true)
  | guard :: rest =>
      let c := Guard.executeGuard h guard b (Some rid) in
      match Eff.outcome c with
      | inl r =>
          if to_boolean r then
            let (evs, ok) := pre_every rest b rid in (Eff.events_of c ++ evs, ok)
          else (Eff.events_of c, false)
      | inr _ => (Eff.events_of c, false)
      end
  end.

(** The pre-condition check of an activation found: the events it emits
    and whether the pre-conditions passed. *)
Definition check_pre (e1 : t) (pre : list value) (bindings : bindings) (rid : string)
    : t * bool :=
  match pre with
  | [] => (e1, true)
  | _ =>
      let e2 := emit e1 (rule_beforePreConditions rid) in
      let (evs, ok) := pre_every pre bindings rid in
      let e3 := emit_all e2 evs in
      if ok then (emit e3 (rule_afterPreConditions rid), true)
      else (emit e3 (rule_preConditionsFailed rid), false)
  end.

(** The execution of an activation whose pre-conditions passed: a fresh
    activation identity, the tracked activation, the action, and the
    activation yielded. *)
Definition execute (e4 : t) (activation : Activation) : t * option (definition * bindings) :=
  let rule := act_rule activation in
  let bindings := act_bindings activation in
  let rid := def_id rule in
  let activationId := S (activationCounter e4) in
  let e6 := with_activations (with_activationCounter e4 activationId)
              (JSMap.set Nat.eqb (activations e4) activationId
                 {| ruleId := rid; consumed := consumedFactIds activation;
                    produced := [] |}) in
  let e7 := emit e6 (rule_beforeAction rid) in
  let (e8, thrown) :=
    match rule with
    | DRule r => run_action (rule_then r bindings) activationId rid e7
    | DQuery _ => (e7, Some TypeError_)
    end in
  let e9 :=
    match thrown with
    | None => emit e8 (rule_actionSuccess rid)
    | Some ex => emit (emit e8 (rule_actionError rid ex)) engine_error
    end in
  (emit e9 (rule_activationYielded rid bindings), Some (rule, bindings)).

(** The part of the loop body that runs once the resolver returned an
    activation: [Some (rule, bindings)] is what the generator yields. *)
Definition fire (e : t) (activation : Activation) : t * option (definition * bindings) :=
  let rule := act_rule activation in
  let bindings := act_bindings activation in
  let rid := def_id rule in
  let pre := match rule with DRule r => rule_pre r | DQuery _ => [] end in
  let e1 := emit e (rule_activationFound rid bindings) in
  match check_pre e1 pre bindings rid with
  | (e4, false) => (e4, None)
  | (e4, true) => execute e4 activation
  end.

(** What one turn of the [while] loop of [run] does. *)
Inductive turn :=
| Idle                                   (* the agenda has no task *)
| Turned (e : t) (yielded : option (definition * bindings))
| Aborted (e : t) (ex : exn).            (* an exception leaves [run] *)

Definition step (e : t) : turn :=
  match Agenda.shift (agenda e) with
  | (None, _) => Idle
  | (Some task, rest) =>
      let e1 := emit (with_agenda e rest) (agenda_taskProcessed task) in
      match Agenda.task_type_of task with
      | Agenda.TRetract => Turned (truthMaintenance e1 (Agenda.task_fact_id task)) None
      | Agenda.TAssert =>
          let g := Join.findMatches h depth e1 in
          let e2 := emit_all e1 (Join.gen_events g) in
          match Join.gen_thrown g with
          | Some ex => Aborted e2 ex
          | None =>
              match Resolver.resolve (Join.gen_yields g) with
              | None => Turned e2 None
              | Some activation => let (e3, y) := fire e2 activation in Turned e3 y
              end
          end
      end
  end.

Inductive status := Quiescent | Thrown (ex : exn) | OutOfFuel.

Record outcome := {
  final : t;
  yields : list (definition * bindings);
  ended : status
}.

(** The [while (this.#agenda.hasTasks)] loop, for at most [fuel] turns. *)
Fixpoint loop (fuel : nat) (e : t) : outcome :=
  match fuel with
  | O => {| final := e; yields := []; ended := OutOfFuel |}
  | S fuel' =>
      match step e with
      | Idle => {| final := emit e engine_afterCycle; yields := []; ended := Quiescent |}
      | Aborted e' ex => {| final := e'; yields := []; ended := Thrown ex |}
      | Turned e' y =>
          let r := loop fuel' e' in
          {| final := final r;
             yields := match y with Some a => a :: yields r | None => yields r end;
             ended := ended r |}
      end
  end.

(** [run()], drained as [fireAll] and [collectActivations] do. *)
Definition run (fuel : nat) (e : t) : outcome :=
  loop fuel (emit e engine_beforeCycle).

End WithHost.
End Run.

(** ** LeapEngine.js: ordering, offset and limit of query results *)

Module Query.

(** [key.split('.')] *)
Fixpoint split_dot_aux (s : string) (cur : string) : list string :=
  match s with
  | EmptyString => [cur]
  | String c s' =>
      if Ascii.eqb c "."%char then cur :: split_dot_aux s' EmptyString
      else split_dot_aux s' (cur ++ String c EmptyString)%string
  end.

Definition split_dot (s : string) : list string := split_dot_aux s EmptyString.

(** [#resolvePath(object, pathArray)] *)
Definition resolvePath (object : value) (pathArray : list string) : value :=
  fold_left
    (fun obj key =>
       if to_boolean obj && is_object obj && startsWith key "?" then get_prop obj key
       else if to_boolean obj && is_object obj && negb (is_undefined (get_prop obj key))
            then get_prop obj key
            else VUndef)
    pathArray object.

(** ToNumber on the primitives that are neither strings nor symbols. *)
Definition to_number (v : value) : number :=
  match v with
  | VNum x => x
  | VBool true => Guard.one
  | VBool false => pos_zero
  | VNull => pos_zero
  | _ => NaN
  end.

Definition plain_primitive (v : value) : bool :=
  match v with VUndef | VNull | VBool _ | VNum _ => true | _ => false end.

(** The number of leading elements [slice] counts for a number [x > 0]:
    its integer part, everything for infinity. *)
Definition integer_part (x : number) (all : nat) : nat :=
  match x with
  | S754_finite false m e =>
      match e with
      | Z0 => Pos.to_nat m
      | Zpos p => Z.to_nat (Z.shiftl (Zpos m) (Zpos p))
      | Zneg p => Z.to_nat (Z.shiftr (Zpos m) (Zpos p))
      end
  | S754_infinity false => all
  | _ => 0
  end.

Section WithHost.
Variable h : Host.

(** [a < b] *)
Definition js_lt (a b : value) : bool :=
  match a, b with
  | VStr x, VStr y => String.ltb x y
  | _, _ =>
      if plain_primitive a && plain_primitive b then num_lt (to_number a) (to_number b)
      else host_lt h a b
  end.

(** The comparison function given to [sort]: negative, zero or positive. *)
Definition compareRows (key : string) (dir : direction) (a b : value) : Z :=
  let valA := resolvePath a (split_dot key) in
  let valB := resolvePath b (split_dot key) in
  let asc := match dir with Asc => true | Desc => false end in
  if is_undefined valA && negb (is_undefined valB) then (if asc then 1 else -1)%Z
  else if negb (is_undefined valA) && is_undefined valB then (if asc then -1 else 1)%Z
  else if Guard.strict_eq h valA valB then 0%Z
  else if js_lt valA valB then (if asc then -1 else 1)%Z
  else if js_lt valB valA then (if asc then 1 else -1)%Z
  else 0%Z.

(** [Array.prototype.sort(cmp)].  The language fixes the result for a
    consistent comparison function: the stable sorted order, which is what
    inserting each element behind the ones it does not precede computes. *)
Fixpoint insert (cmp : value -> value -> Z) (x : value) (sorted : list value) : list value :=
  match sorted with
  | [] => [x]
  | y :: rest => if (cmp x y <? 0)%Z then x :: y :: rest else y :: insert cmp x rest
  end.

Definition sort (cmp : value -> value -> Z) (l : list value) : list value :=
  fold_left (fun sorted x => insert cmp x sorted) l [].

(** The [orderBy] step. *)
Definition applyOrder (q : query) (rows : list value) : list value :=
  match orderBy q with
  | Some (key, dir) => sort (compareRows key dir) rows
  | None => rows
  end.

(** The [offset] step: [rows.slice(offset)] when [offset] is a number above 0. *)
Definition applyOffset (q : query) (rows : list value) : list value :=
  match offset q with
  | VNum x => if num_lt pos_zero x then skipn (integer_part x (List.length rows)) rows
              else rows
  | _ => rows
  end.

(** The [limit] step: [rows.slice(0, limit)] when [limit] is a number, 0 or more. *)
Definition applyLimit (q : query) (rows : list value) : list value :=
  match limit q with
  | VNum x => if SFleb pos_zero x then firstn (integer_part x (List.length rows)) rows
              else rows
  | _ => rows
  end.

(** The sort key of a row is missing. *)
Definition key_undefined (key : string) (row : value) : bool :=
  is_undefined (resolvePath row (split_dot key)).

(** The sort key of a row is missing or a number other than NaN. *)
Definition key_number (key : string) (row : value) : bool :=
  match resolvePath row (split_dot key) with
  | VUndef => true
  | VNum x => negb (is_nan x)
  | _ => false
  end.

(** [x] goes before [y]: the comparison function is negative. *)
Definition before (cmp : value -> value -> Z) (x y : value) : bool := (cmp x y <? 0)%Z.

(** [x] and [y] tie: neither goes before the other. *)
Definition tie (cmp : value -> value -> Z) (x y : value) : bool :=
  negb (before cmp x y) && negb (before cmp y x).

(** The comparison function is consistent on the rows [l]: going before is
    asymmetric there, and not going before is transitive (a strict weak
    order, what [Array.prototype.sort] asks of its comparison function). *)
Definition consistent_on (cmp : value -> value -> Z) (l : list value) : bool :=
  forallb (fun x =>
    forallb (fun y =>
      implb (before cmp x y) (negb (before cmp y x))
      && forallb (fun z =>
           implb (negb (before cmp x y) && negb (before cmp y z))
                 (negb (before cmp x z))) l) l) l.

(** Sorting, offset and limit as [queryAll] applies them to its rows. *)
Definition shapeRows (q : query) (rows : list value) : list value :=
  applyLimit q (applyOffset q (applyOrder q rows)).

End WithHost.
End Query.

(** ** What holds between working memory, activation table and agenda *)

Module Inv.
Import Engine.

(** The store resolves the identity [fid] to an entry marked logical whose
    [producedBy] is the activation [aid]. *)
Definition logically_produced (e : t) (fid aid : nat) : Prop :=
  exists entry,
    FactStorage.getFactEntry (factStorage e) fid = Some entry
    /\ FactStorage.logical (FactStorage.metadata entry) = true
    /\ FactStorage.producedBy (FactStorage.metadata entry) = Some aid.

Definition tracked (e : t) (aid : nat) (a : TrackedActivation) : Prop :=
  JSMap.get Nat.eqb (activations e) aid = Some a.

(** A retract task for the identity [r] waits on the agenda. *)
Definition pending_retract (e : t) (r : nat) : Prop :=
  exists task,
    In task (agenda e)
    /\ Agenda.task_type_of task = Agenda.TRetract
    /\ Agenda.task_fact_id task = r.

(** The invariant of the engine: the store is well formed, activation
    identities are below their counter and distinct, and a fact that is
    logically produced by an activation is in the produced set of that
    activation, which is tracked. *)
Definition wf (e : t) : Prop :=
  FactStorage.wf (factStorage e)
  /\ (forall aid, In aid (map fst (activations e)) -> aid <= activationCounter e)
  /\ NoDup (map fst (activations e))
  /\ (forall fid aid,
        logically_produced e fid aid ->
        exists a, tracked e aid a /\ JSSet.has (produced a) fid = true).

(** How the engine state moves under every operation: counters grow, an
    identity that was issued resolves, if at all, to the entry it had, an
    activation that is tracked was tracked with the same consumed set, and
    the agenda is extended at its end. *)
Definition evolves (e e' : t) : Prop :=
  FactStorage.factIdCounter (factStorage e) <= FactStorage.factIdCounter (factStorage e')
  /\ (forall fid x,
        fid <= FactStorage.factIdCounter (factStorage e) ->
        FactStorage.getFactEntry (factStorage e') fid = Some x ->
        FactStorage.getFactEntry (factStorage e) fid = Some x)
  /\ activationCounter e <= activationCounter e'
  /\ (forall aid a',
        aid <= activationCounter e -> tracked e' aid a' ->
        exists a, tracked e aid a /\ consumed a' = consumed a
                  /\ (forall f, JSSet.has (produced a) f = true ->
                                 JSSet.has (produced a') f = true))
  /\ (exists more, agenda e' = agenda e ++ more).

(** No tracked activation is lost, its consumed set stays and its produced
    set does not shrink: what holds of every operation but truth
    maintenance. *)
Definition keeps (e e' : t) : Prop :=
  forall aid a,
    tracked e aid a ->
    exists a', tracked e' aid a' /\ consumed a' = consumed a
               /\ (forall f, JSSet.has (produced a) f = true ->
                              JSSet.has (produced a') f = true).

(** What [assertFact] guarantees of its result [r], started in [e]: the
    fact it returns has the next identity and is stored with empty
    metadata, and the activation table is left alone. *)
Definition assertFact_post (ok : t -> t -> Prop) (e : t) (r : t * option (nat * fields))
    : Prop :=
  ok e (fst r)
  /\ activations (fst r) = activations e
  /\ activationCounter (fst r) = activationCounter e
  /\ (forall id f,
        snd r = Some (id, f) ->
        id = S (FactStorage.factIdCounter (factStorage e))
        /\ FactStorage.factIdCounter (factStorage (fst r)) = id
        /\ FactStorage.getFactEntry (factStorage (fst r)) id
           = Some {| FactStorage.fact := f; FactStorage.fact_id := id;
                     FactStorage.metadata := FactStorage.no_metadata |}).

(** The tasks a step appends to the agenda are retract tasks. *)
Definition appends_retracts (e e' : t) : Prop :=
  exists more,
    agenda e' = agenda e ++ more
    /\ forall task, In task more -> Agenda.task_type_of task = Agenda.TRetract.

(** What the run loop maintains about a fact [fid] logically produced by
    an activation [aid] that consumed [r], while a retract task for [r]
    waits: either the fact is gone for good, or all of this still holds. *)
Definition doomed (r aid fid : nat) (e : t) : Prop :=
  (FactStorage.getFactEntry (factStorage e) fid = None
   /\ fid <= FactStorage.factIdCounter (factStorage e))
  \/ (logically_produced e fid aid
      /\ (exists a, tracked e aid a /\ JSSet.has (consumed a) r = true)
      /\ pending_retract e r).

(** What every operation of the engine but truth maintenance guarantees of
    the state [e'] it leaves, started in [e]. *)
Definition ok (e e' : t) : Prop := wf e' /\ evolves e e' /\ keeps e e'.

End Inv.

(** ** A host for closed examples

    No user functions, one accumulator ([count]), no templates. *)

Definition sampleHost : Host :=
  {| call_fn := fun _ _ => None;
     accumulators := fun name =>
       if String.eqb name "count"
       then Some (fun _ facts => Some (VNum (num_of_nat (List.length facts))))
       else None;
     host_to_string := fun _ => EmptyString;
     ref_eq := fun _ _ => false;
     host_lt := fun _ _ => false;
     schema_validate := fun _ f => Some f;
     date_now := pos_zero |}.

Definition num (z : Z) : value := VNum (num_of_Z z).

(** ** Sample rules and facts for closed examples *)

Module Sample.

Definition factA : fields := [("type", VStr "a")].

(** A store holding one fact of type ["a"]. *)
Definition storeA : FactStorage.t :=
  fst (FactStorage.assert FactStorage.empty (VObj factA) FactStorage.no_metadata).

(** [_.lacks({ b: {} })], [_.from({ a: {} }).count().into('?n')] and the
    pattern [{ a: { type: 'a' } }]. *)
Definition lacksB : condition := CLacks [("b", VObj [])].
Definition countA : condition := CAccumulate [("a", VObj [])] "count" VUndef "?n".
Definition patternA : condition := CPattern [("a", VObj [("type", VStr "a")])] [].

(** A rule that, for a fact of type ["a"] and as long as there is no fact
    of type ["b"], logically asserts a fact of type ["b"]. *)
Definition ruleR1 : rule :=
  Rule "R1" [patternA; lacksB] [] VUndef
    (fun _ => CtxAssertFact [("type", VStr "b")] true (fun _ => Done)).

(** A rule on facts [{ type: 'n', y }] guarded by [['/', 10, '?y']]. *)
Definition ruleDiv : rule :=
  Rule "R_DIV" [CPattern [("n", VObj [("type", VStr "n"); ("y", VStr "?y")])]
                  [VArr [VStr "/"; num 10; VStr "?y"]]]
    [] VUndef (fun _ => Done).

(** The same division as a pre-condition. *)
Definition ruleDivPre : rule :=
  Rule "R_DIV_PRE" [CPattern [("n", VObj [("type", VStr "n"); ("y", VStr "?y")])] []]
    [VArr [VStr "/"; num 10; VStr "?y"]] VUndef (fun _ => Done).

(** The engine after [R1] fired on a fact of type ["a"] (identity 1) and
    logically asserted a fact of type ["b"] (identity 2), and the same
    engine once the first fact is retracted. *)
Definition engineFired : Engine.t :=
  Run.final
    (Run.run sampleHost 5 10
       (fst (Engine.assertFact sampleHost
               (Engine.addDefinition Engine.init (DRule ruleR1)) factA))).

Definition engineRetracted : Engine.t := Engine.retractFact engineFired 1.

(** An engine with [R_DIV] and two facts, one with [y = 0], one with [y = 2]. *)
Definition engineDiv : Engine.t :=
  let e0 := Engine.addDefinition Engine.init (DRule ruleDiv) in
  let e1 := fst (Engine.assertFact sampleHost e0 [("type", VStr "n"); ("y", num 0)]) in
  fst (Engine.assertFact sampleHost e1 [("type", VStr "n"); ("y", num 2)]).

Definition withSalience (id : string) (s : value) : Activation :=
  {| act_rule := DRule (Rule id [] [] s (fun _ => Done));
     act_bindings := []; consumedFactIds := [] |}.

(** Query rows: two with the same ["val"], one with a smaller one, one
    without. *)
Definition rowA : value := VObj [("val", num 2); ("tag", VStr "a")].
Definition rowB : value := VObj [("tag", VStr "b")].
Definition rowC : value := VObj [("val", num 1); ("tag", VStr "c")].
Definition rowD : value := VObj [("val", num 2); ("tag", VStr "d")].
Definition rows : list value := [rowA; rowB; rowC; rowD].

Definition queryBy (key : string) (dir : direction) : query :=
  {| query_id := "q"; query_when := []; orderBy := Some (key, dir);
     offset := VUndef; limit := VUndef |}.

End Sample.

(** ** FactStorage.js: the stores its operations produce *)

Module StoreIndex.
Import FactStorage.

(** The fact of an entry has the type [type]. *)
Definition has_type (type : string) (entry : FactEntry) : bool :=
  match type_of (fact entry) with
  | Some s => String.eqb s type
  | None => false
  end.

(** The stored facts of one type, oldest first, as pairs of identity and
    fact object: what the type index is there to list. *)
Definition of_type (st : t) (type : string) : list (nat * fields) :=
  map (fun p => (fst p, fact (snd p)))
    (filter (fun p => has_type type (snd p)) (facts st)).

(** The stores that [assert], [retract] and [clear] produce from the empty
    one, the metadata of an entry being updated in place in between. *)
Inductive reachable : t -> Prop :=
| reach_empty : reachable empty
| reach_assert (st : t) (fact : value) (md : Metadata) :
    reachable st -> reachable (fst (assert st fact md))
| reach_retract (st : t) (id : nat) :
    reachable st -> reachable (fst (retract st id))
| reach_set_metadata (st : t) (id : nat) (m : Metadata) :
    reachable st -> reachable (set_metadata st id m)
| reach_clear (st : t) : reachable st -> reachable (clear st).

(** What the proofs maintain of a reachable store. *)
Definition coherent (st : t) : Prop :=
  wf st
  /\ NoDup (map fst (alphaNetwork st))
  /\ (forall id entry, In (id, entry) (facts st) -> exists s, type_of (fact entry) = Some s)
  /\ (forall type, getFactsByType st type = of_type st type).

End StoreIndex.

(** ** The guard interpreter, its parts named

    [#resolveGuardValue] and the two ways [#executeGuard] uses it, on one
    argument by position and on all arguments in turn, as functions of
    their own: what the local functions of [Guard.executeGuard] compute. *)

Module GuardParts.
Import Eff Matcher.
Local Open Scope eff_scope.

Section Parts.
Variable h : Host.
Variable b : bindings.

(** [#resolveGuardValue(value, bindings)] *)
Definition resolveGuardValue (v : value) : M value :=
  match v with
  | VStr s => if startsWith s "?" then ret (obj_get b s) else ret v
  | VArr _ => Guard.executeGuard h v b None
  | _ => ret v
  end.

(** [#resolveGuardValue(args[i], bindings)] *)
Fixpoint resolve_nth (args : list value) (i : nat) : M value :=
  match args, i with
  | [], _ => ret VUndef
  | v :: _, O => resolveGuardValue v
  | _ :: l', S i' => resolve_nth l' i'
  end.

(** [args.map(arg => #resolveGuardValue(arg, bindings))] *)
Fixpoint resolve_all (args : list value) : M (list value) :=
  match args with
  | [] => ret []
  | v :: l' =>
      x <- resolveGuardValue v ;;
      xs <- resolve_all l' ;;
      ret (x :: xs)
  end.

End Parts.
End GuardParts.

(** ** LeapEngine.js: reading the working memory *)

Module Facts.
Import Matcher.

Section WithHost.
Variable h : Host.
Variable depth : nat.

(** [candidatePlainFacts.filter(fact => match(filterPatternFields, fact, {}).isMatch)];
    the exception is the matcher's stack overflow. *)
Fixpoint filter_matching (pattern : value) (candidates : list value)
    : list value + exn :=
  match candidates with
  | [] => inl []
  | fact :: rest =>
      match match_ h depth pattern fact [] with
      | None => inr StackOverflow
      | Some r =>
          match filter_matching pattern rest with
          | inr ex => inr ex
          | inl kept => inl (if isMatch r then fact :: kept else kept)
          end
      end
  end.

(** [getFacts(patternObject = {})], the fact store being the [FactStorage]
    of this repository, which has no [getAllFacts]: without a [type] that
    is a non-empty string every branch returns the empty array. *)
Definition getFacts (e : Engine.t) (patternObject : fields) : list value + exn :=
  let factType := obj_get patternObject "type" in
  match factType with
  | VStr type =>
      if negb (to_boolean factType) then inl []
      else
        let factEntriesArray := FactStorage.getFactsByType (Engine.factStorage e) type in
        let candidatePlainFacts :=
          filter (fun fact => to_boolean fact && is_object fact)
            (map (fun entry => Join.plainFact_of (snd entry)) factEntriesArray) in
        if (List.length (keys patternObject) =? 0)
           || ((List.length (keys patternObject) =? 1) && to_boolean factType)
        then inl candidatePlainFacts
        else
          let filterPatternFields := obj_delete patternObject "type" in
          if List.length (keys filterPatternFields) =? 0 then inl candidatePlainFacts
          else filter_matching (VObj filterPatternFields) candidatePlainFacts
  | _ => inl []
  end.

End WithHost.
End Facts.

(** ** Rules that leave the working memory alone *)

Module Passive.

(** An action that makes no call on its context: it returns, or throws,
    at once. *)
Definition inert (a : action) : bool :=
  match a with
  | Done | Throw _ => true
  | _ => false
  end.

(** Every rule of the table has an inert action, whatever the bindings it
    is given. *)
Definition inert_rules (e : Engine.t) : Prop :=
  forall id r b, In (id, DRule r) (Engine.definitions e) -> inert (rule_then r b) = true.

(** The tasks that wait and the facts that are stored. *)
Definition load (e : Engine.t) : nat :=
  List.length (Engine.agenda e)
  + List.length (FactStorage.facts (Engine.factStorage e)).

End Passive.

(** ** Accumulators.js

    The accumulators that work on numbers, booleans and plain values.
    [facts] are the source facts the join hands over, which are objects;
    [field] is the name of the field accumulated on. *)

Module Accumulators.

(** [typeof value === 'number' && !isNaN(value)] *)
Definition isValidNumber (value : value) : bool :=
  match value with
  | VNum x => negb (is_nan x)
  | _ => false
  end.

Section OnField.
Variable field : string.

(** One step of the [reduce] of [sum], and of the loop of [average] on its
    total: a boolean counts as 1 or 0, a valid number as itself, anything
    else is passed over. *)
Definition sum_step (acc : number) (fact : value) : number :=
  match get_prop fact field with
  | VBool b => Guard.add acc (if b then Guard.one else pos_zero)
  | VNum x => if negb (is_nan x) then Guard.add acc x else acc
  | _ => acc
  end.

(** [sum(field)(facts)] *)
Definition sum (facts : list value) : number := fold_left sum_step facts pos_zero.

(** The field of the fact is one [sum] and [average] count. *)
Definition counted (fact : value) : bool :=
  match get_prop fact field with
  | VBool _ => true
  | v => isValidNumber v
  end.

(** [average(field)(facts)]: the loop keeps [total] and [count]. *)
Definition average (facts : list value) : number :=
  let '(total, count) :=
    fold_left
      (fun (st : number * nat) fact =>
         let '(total, count) := st in
         match get_prop fact field with
         | VBool b => (Guard.add total (if b then Guard.one else pos_zero), S count)
         | VNum x => if negb (is_nan x) then (Guard.add total x, S count) else st
         | _ => st
         end)
      facts (pos_zero, 0) in
  if count =? 0 then pos_zero else Guard.div total (num_of_nat count).

(** [collect(field)(facts)] *)
Definition collect (facts : list value) : list value :=
  map (fun fact => get_prop fact field) facts.

(** [minNumber(field)(facts)]: the loop keeps [min] and [found]. *)
Definition minNumber (facts : list value) : number :=
  let '(min, found) :=
    fold_left
      (fun (st : number * bool) fact =>
         let '(min, found) := st in
         let v := get_prop fact field in
         match v with
         | VNum x => if isValidNumber v then ((if num_lt x min then x else min), true) else st
         | _ => st
         end)
      facts (pos_infinity, false) in
  if found then min else pos_infinity.

(** [maxNumber(field)(facts)] *)
Definition maxNumber (facts : list value) : number :=
  let '(max, found) :=
    fold_left
      (fun (st : number * bool) fact =>
         let '(max, found) := st in
         let v := get_prop fact field in
         match v with
         | VNum x => if isValidNumber v then ((if num_lt max x then x else max), true) else st
         | _ => st
         end)
      facts (neg_infinity, false) in
  if found then max else neg_infinity.

(** [minBoolean(field)(facts)] and [maxBoolean(field)(facts)]: the loops
    keep [foundFalse] and [foundTrue]; the result is a boolean or [null]. *)
Definition found_booleans (facts : list value) : bool * bool :=
  fold_left
    (fun (st : bool * bool) fact =>
       let '(foundFalse, foundTrue) := st in
       match get_prop fact field with
       | VBool false => (true, foundTrue)
       | VBool true => (foundFalse, true)
       | _ => st
       end)
    facts (false, false).

Definition minBoolean (facts : list value) : value :=
  let '(foundFalse, foundTrue) := found_booleans facts in
  if foundFalse then VBool false else if foundTrue then VBool true else VNull.

Definition maxBoolean (facts : list value) : value :=
  let '(foundFalse, foundTrue) := found_booleans facts in
  if foundTrue then VBool true else if foundFalse then VBool false else VNull.

End OnField.

(** [count()(facts)] *)
Definition count (facts : list value) : number := num_of_nat (List.length facts).

End Accumulators.

(** * Properties *)

Unset Implicit Arguments.
Import Matcher NumOrder.

(** ** Own properties and bindings *)

Section ObjectFacts.

Lemma assoc_set_same (fs : fields) (k : string) (v : value) :
  assoc (obj_set fs k v) k = Some v.
Proof.
  induction fs as [|[k' v'] fs IH]; simpl.
  - now rewrite String.eqb_refl.
  - destruct (String.eqb k' k) eqn:E; simpl; rewrite E; auto.
Qed.

Lemma assoc_set_other (fs : fields) (k k' : string) (v : value) :
  k <> k' -> assoc (obj_set fs k v) k' = assoc fs k'.
Proof.
  intros Hne. induction fs as [|[k0 v0] fs IH]; simpl.
  - destruct (String.eqb k k') eqn:E; auto.
    apply String.eqb_eq in E. contradiction.
  - destruct (String.eqb k0 k) eqn:E; simpl.
    + apply String.eqb_eq in E. subst k0.
      destruct (String.eqb k k') eqn:E'; auto.
      apply String.eqb_eq in E'. contradiction.
    + now rewrite IH.
Qed.

Lemma obj_get_set_same (fs : fields) (k : string) (v : value) :
  obj_get (obj_set fs k v) k = v.
Proof. unfold obj_get. now rewrite assoc_set_same. Qed.

Lemma obj_has_set_same (fs : fields) (k : string) (v : value) :
  obj_has (obj_set fs k v) k = true.
Proof. unfold obj_has. now rewrite assoc_set_same. Qed.

Lemma obj_get_set_other (fs : fields) (k k' : string) (v : value) :
  k <> k' -> obj_get (obj_set fs k v) k' = obj_get fs k'.
Proof. intros. unfold obj_get. now rewrite assoc_set_other. Qed.

Lemma assoc_delete_same (fs : fields) (k : string) :
  assoc (obj_delete fs k) k = None.
Proof.
  induction fs as [|[k' v'] fs IH]; simpl; auto.
  destruct (String.eqb k' k) eqn:E; simpl; auto. now rewrite E.
Qed.

Lemma obj_get_delete_same (fs : fields) (k : string) :
  obj_get (obj_delete fs k) k = VUndef.
Proof. unfold obj_get. now rewrite assoc_delete_same. Qed.

Lemma substring_all (s : string) : String.substring 0 (String.length s) s = s.
Proof. induction s; simpl; congruence. Qed.

Lemma startsWith_question (name : string) : startsWith ("?" ++ name) "?" = true.
Proof. unfold startsWith. simpl. now destruct name. Qed.

Lemma num_same_eq (x y : number) : num_same x y = true <-> x = y.
Proof.
  split.
  - destruct x, y; simpl; try discriminate; auto; intros H.
    + apply Bool.eqb_prop in H. now subst.
    + apply Bool.eqb_prop in H. now subst.
    + apply andb_prop in H. destruct H as [H He].
      apply andb_prop in H. destruct H as [Hs Hm].
      apply Bool.eqb_prop in Hs. apply Pos.eqb_eq in Hm. apply Z.eqb_eq in He.
      now subst.
  - intros <-. destruct x; simpl; auto using Bool.eqb_reflx.
    now rewrite Bool.eqb_reflx, Pos.eqb_refl, Z.eqb_refl.
Qed.

End ObjectFacts.

(** ** The pattern matcher *)

Section MatcherProperties.
Variable h : Host.

Lemma Object_is_literal_eq (p v : value) :
  is_literal p = true -> (Object_is p v = true <-> v = p).
Proof.
  intros Hl. split.
  - destruct p, v; simpl in *; try discriminate; auto; intros H.
    + apply Bool.eqb_prop in H. now subst.
    + apply num_same_eq in H. now subst.
    + apply String.eqb_eq in H. now subst.
    + apply Nat.eqb_eq in H. now subst.
  - intros ->. destruct p; simpl in *; try discriminate; auto.
    + apply Bool.eqb_reflx.
    + now apply num_same_eq.
    + apply String.eqb_refl.
    + apply Nat.eqb_refl.
Qed.

Lemma Object_is_typeof (p v : value) :
  typeof p <> typeof v -> Object_is p v = false.
Proof. destruct p, v; simpl; auto; intros H; now contradiction H. Qed.

(** C3. A variable reference binds the value when it is unbound and
    otherwise matches the stored value, recursively, against the new value:
    [match('?x', 5, {})] succeeds with [?x = 5], and
    [match('?x', 6, {'?x': 5})] fails and leaves [?x = 5]. *)
Theorem match_variable_binding :
  forall (depth : nat) (name : string) (v : value) (b : bindings),
    match_ h (S depth) (VStr ("?" ++ name)) v b
    = (if is_undefined (obj_get b ("?" ++ name))
       then Some (MatchResult true (obj_set b ("?" ++ name) v))
       else match_ h depth (obj_get b ("?" ++ name)) v b)
    /\ match_ h (S depth) (VStr "?x") (num 5) [] = Some (MatchResult true [("?x", num 5)])
    /\ match_ h (S (S depth)) (VStr "?x") (num 6) [("?x", num 5)]
       = Some (MatchResult false [("?x", num 5)]).
Proof.
  intros depth name v b. split; [|split].
  - cbn [match_ is_ANY]. rewrite startsWith_question.
    now destruct (is_undefined (obj_get b ("?" ++ name))).
  - reflexivity.
  - reflexivity.
Qed.

(** C9. A literal pattern matches exactly the value that is the same value
    in the sense of [Object.is]: NaN matches NaN, [+0] does not match [-0],
    and values of different types never match. *)
Theorem match_literal_same_value :
  forall (depth : nat) (p v : value) (b : bindings),
    is_literal p = true ->
    match_ h (S depth) p v b = Some (MatchResult (Object_is p v) b)
    /\ (Object_is p v = true <-> v = p)
    /\ (typeof p <> typeof v -> Object_is p v = false)
    /\ Object_is (VNum NaN) (VNum NaN) = true
    /\ Object_is (VNum pos_zero) (VNum neg_zero) = false
    /\ Object_is (VNum neg_zero) (VNum pos_zero) = false
    /\ Object_is (num 0) (VBool false) = false.
Proof.
  intros depth p v b Hl. split; [|split; [|split]].
  - destruct p; simpl in Hl; try discriminate; try reflexivity.
    + cbn [match_ is_ANY]. apply negb_true_iff in Hl. now rewrite Hl.
    + destruct n; [discriminate|reflexivity].
  - now apply Object_is_literal_eq.
  - apply Object_is_typeof.
  - repeat split; reflexivity.
Qed.


(** C10. A binding whose value is [undefined] is not told apart from no
    binding: matching [?x] against [undefined] succeeds and records
    [?x = undefined], and a later occurrence of [?x] is not checked against
    it but bound anew, also within one array pattern. *)
Theorem match_undefined_binding_unchecked :
  forall (depth : nat) (name : string) (v : value) (b : bindings),
    let x := ("?" ++ name)%string in
    let unbound := obj_delete b x in
    let b1 := obj_set unbound x VUndef in
    match_ h (S depth) (VStr x) VUndef unbound = Some (MatchResult true b1)
    /\ obj_has b1 x = true
    /\ obj_get b1 x = VUndef
    /\ match_ h (S depth) (VStr x) v b1 = Some (MatchResult true (obj_set b1 x v))
    /\ obj_get (obj_set b1 x v) x = v
    /\ match_ h (S (S depth)) (VArr [VStr "?x"; VStr "?x"]) (VArr [VUndef; num 5]) []
       = Some (MatchResult true [("?x", num 5)]).
Proof.
  intros depth name v b x unbound b1.
  assert (Hm : forall w c, obj_get c x = VUndef ->
             match_ h (S depth) (VStr x) w c = Some (MatchResult true (obj_set c x w))).
  { intros w c Hc. cbn [match_ is_ANY]. unfold x in *.
    rewrite startsWith_question. now rewrite Hc. }
  repeat split.
  - apply Hm. apply obj_get_delete_same.
  - apply obj_has_set_same.
  - apply obj_get_set_same.
  - apply Hm. apply obj_get_set_same.
  - apply obj_get_set_same.
Qed.

End MatcherProperties.

Lemma match_literal_same_value_witness :
  match_ sampleHost 1 (VNum NaN) (VNum NaN) [] = Some (MatchResult true [])
  /\ match_ sampleHost 1 (VNum pos_zero) (VNum neg_zero) [] = Some (MatchResult false [])
  /\ match_ sampleHost 1 (num 0) (VBool false) [] = Some (MatchResult false []).
Proof.
  split; [|split].
  - exact (proj1 (match_literal_same_value sampleHost 0 (VNum NaN) (VNum NaN) [] eq_refl)).
  - exact (proj1 (match_literal_same_value sampleHost 0 (VNum pos_zero) (VNum neg_zero) [] eq_refl)).
  - exact (proj1 (match_literal_same_value sampleHost 0 (num 0) (VBool false) [] eq_refl)).
Defined.

(** ** Sequence patterns *)

Section SequenceProperties.
Variable h : Host.
Variable rec : value -> value -> bindings -> option match_result.

Lemma skipn_nth_cons (l : list value) (i : nat) :
  i < List.length l -> skipn i l = nth i l VUndef :: skipn (S i) l.
Proof.
  revert i. induction l as [|x l IH]; intros i Hi; simpl in Hi; [lia|].
  destruct i; [reflexivity|]. simpl. apply IH. lia.
Qed.

(** The index loop of the code is the pairwise scan of the specification on
    the stretch of the candidate that starts at the offset. *)
Lemma match_positional_pairwise (ps fs : list value) :
  forall (i : nat) (b : bindings),
    i + List.length ps <= List.length fs ->
    match_positional rec ps fs i b
    = match_pairwise rec (combine ps (firstn (List.length ps) (skipn i fs))) b.
Proof.
  induction ps as [|p ps IH]; intros i b Hlen; [reflexivity|].
  simpl in Hlen. rewrite (skipn_nth_cons fs i) by lia.
  cbn [match_positional List.length firstn combine match_pairwise].
  destruct (rec p (nth i fs VUndef) b) as [r|]; [|reflexivity].
  destruct (isMatch r); [|reflexivity].
  apply IH. lia.
Qed.

Lemma findIndex_rest_at (head tail : list value) (r : value) :
  existsb is_rest head = false -> is_rest r = true ->
  findIndex is_rest (head ++ r :: tail) = Some (List.length head).
Proof.
  intros Hh Hr. induction head as [|x head IH]; simpl in *.
  - now rewrite Hr.
  - apply orb_false_iff in Hh. destruct Hh as [Hx Hh].
    rewrite Hx, IH by assumption. reflexivity.
Qed.

Lemma filter_rest_none (l : list value) :
  existsb is_rest l = false -> filter is_rest l = [].
Proof.
  induction l as [|x l IH]; simpl; [reflexivity|].
  intros H. apply orb_false_iff in H. destruct H as [Hx Hl].
  rewrite Hx. auto.
Qed.

Lemma findIndex_none (l : list value) :
  existsb is_rest l = false -> findIndex is_rest l = None.
Proof.
  induction l as [|x l IH]; simpl; [reflexivity|].
  intros H. apply orb_false_iff in H. destruct H as [Hx Hl].
  rewrite Hx, IH by assumption. reflexivity.
Qed.

Lemma findIndex_some (l : list value) :
  filter is_rest l <> [] -> exists i, findIndex is_rest l = Some i.
Proof.
  induction l as [|x l IH]; simpl; [congruence|].
  destruct (is_rest x); [eauto|].
  intros H. destruct (IH H) as [i ->]. simpl. eauto.
Qed.

Lemma is_rest_marker (name : string) : is_rest (VStr ("..." ++ name)) = true.
Proof. unfold is_rest, startsWith. simpl. now destruct name. Qed.

Lemma rest_variable_name (name : string) : substring_from 3 ("..." ++ name) = name.
Proof.
  unfold substring_from. simpl. rewrite Nat.sub_0_r. apply substring_all.
Qed.

End SequenceProperties.

Section SequenceTheorem.
Variable h : Host.

(** C4. With one rest marker the code does what the specification says of
    head, rest and tail; with more than one it never matches; with none the
    lengths must agree and the elements are matched position by position. *)
Theorem match_sequence_destructuring :
  forall (depth : nat) (head tail ps fs : list value) (name : string)
         (v : value) (b : bindings),
    (existsb is_rest head = false -> existsb is_rest tail = false ->
     match_ h (S depth) (VArr (head ++ VStr ("..." ++ name) :: tail)) (VArr fs) b
     = destructure_spec (match_ h depth) head name tail fs b)
    /\ (1 < List.length (filter is_rest ps) ->
        match_ h (S depth) (VArr ps) v b = Some (MatchResult false b))
    /\ (existsb is_rest ps = false ->
        match_ h (S depth) (VArr ps) (VArr fs) b
        = if List.length ps =? List.length fs
          then match_pairwise (match_ h depth) (combine ps fs) b
          else Some (MatchResult false b))
    /\ match_ h (S (S depth)) (VArr [VStr "?a"; VStr "...?mid"; VStr "?b"])
         (VArr [num 1; num 2; num 3; num 4; num 5]) []
       = Some (MatchResult true
                 [("?a", num 1); ("?b", num 5); ("?mid", VArr [num 2; num 3; num 4])])
    /\ match_ h (S (S depth)) (VArr [VStr "?a"; VStr "...?mid"; VStr "?b"])
         (VArr [num 1]) []
       = Some (MatchResult false []).
Proof.
  intros depth head tail ps fs name v b. split; [|split; [|split; [|split]]].
  - intros Hh Ht.
    cbn [match_ is_ANY].
    rewrite findIndex_rest_at by (assumption || apply is_rest_marker).
    rewrite filter_app. cbn [filter]. rewrite is_rest_marker.
    rewrite !filter_rest_none by assumption. cbn [app List.length].
    replace (1 <? 1) with false by reflexivity.
    rewrite firstn_app, Nat.sub_diag, firstn_all, firstn_O, app_nil_r.
    replace (List.length head + 1) with (S (List.length head)) by lia.
    rewrite app_nth2 by lia. rewrite Nat.sub_diag. cbn [nth].
    assert (Hsk : skipn (S (List.length head)) (head ++ VStr ("..." ++ name) :: tail) = tail).
    { rewrite skipn_app. rewrite skipn_all2 by lia.
      replace (S (List.length head) - List.length head) with 1 by lia. reflexivity. }
    rewrite Hsk. unfold destructure_spec.
    destruct (List.length fs <? List.length head + List.length tail) eqn:Hlen;
      [reflexivity|].
    apply Nat.ltb_ge in Hlen.
    rewrite match_positional_pairwise by (simpl; lia).
    rewrite skipn_O.
    destruct (match_pairwise (match_ h depth) (combine head (firstn (List.length head) fs)) b)
      as [rh|]; [|reflexivity].
    destruct (isMatch rh); [|reflexivity]. cbn [negb].
    rewrite match_positional_pairwise by lia.
    assert (Hback : firstn (List.length tail) (skipn (List.length fs - List.length tail) fs)
                    = skipn (List.length fs - List.length tail) fs).
    { apply firstn_all2. rewrite length_skipn. lia. }
    rewrite Hback.
    destruct (match_pairwise (match_ h depth)
                (combine tail (skipn (List.length fs - List.length tail) fs))
                (result_bindings rh)) as [rt|]; [|reflexivity].
    destruct (isMatch rt); [|reflexivity]. cbn [negb].
    rewrite rest_variable_name. unfold slice.
    do 3 f_equal. now rewrite skipn_firstn_comm.
  - intros Hmany. cbn [match_ is_ANY].
    destruct v; try reflexivity.
    destruct (findIndex_some ps) as [i ->].
    { intros E. rewrite E in Hmany. simpl in Hmany. lia. }
    apply Nat.ltb_lt in Hmany. now rewrite Hmany.
  - intros Hnone. cbn [match_ is_ANY]. rewrite findIndex_none by assumption.
    destruct (List.length ps =? List.length fs) eqn:Hlen; cbn [negb]; [|reflexivity].
    apply Nat.eqb_eq in Hlen.
    rewrite match_positional_pairwise by (simpl; lia).
    rewrite skipn_O, Hlen, firstn_all. reflexivity.
  - reflexivity.
  - reflexivity.
Qed.

End SequenceTheorem.

Lemma match_sequence_destructuring_witness :
  match_ sampleHost 2 (VArr [VStr "?a"; VStr "...?mid"; VStr "?b"])
    (VArr [num 1; num 2; num 3]) []
  = destructure_spec (match_ sampleHost 1) [VStr "?a"] "?mid" [VStr "?b"]
      [num 1; num 2; num 3] []
  /\ match_ sampleHost 2 (VArr [VStr "...?p"; VStr "?a"; VStr "...?q"]) (VArr [num 1; num 2]) []
     = Some (MatchResult false [])
  /\ match_ sampleHost 2 (VArr [VStr "?a"; VStr "?b"]) (VArr [num 1; num 2]) []
     = match_pairwise (match_ sampleHost 1)
         (combine [VStr "?a"; VStr "?b"] [num 1; num 2]) [].
Proof.
  pose proof (match_sequence_destructuring sampleHost 1 [VStr "?a"] [VStr "?b"]
                [VStr "...?p"; VStr "?a"; VStr "...?q"] [num 1; num 2; num 3] "?mid"
                (VArr [num 1; num 2]) []) as [H1 [H2 _]].
  pose proof (match_sequence_destructuring sampleHost 1 [] []
                [VStr "?a"; VStr "?b"] [num 1; num 2] EmptyString
                VUndef []) as [_ [_ [H3 _]]].
  split; [|split].
  - exact (H1 eq_refl eq_refl).
  - apply H2. simpl. lia.
  - exact (H3 eq_refl).
Defined.

(** ** The order of numbers *)

Section NumberOrder.
Local Open Scope Z_scope.

Lemma num_lt_rank (x y : number) :
  is_nan x = false -> is_nan y = false ->
  (num_lt x y = true <-> lex_lt (rank x) (rank y)).
Proof.
  intros Hx Hy. unfold num_lt, SFltb.
  destruct x as [sx|sx| |sx mx ex], y as [sy|sy| |sy my ey];
    try discriminate; try destruct sx; try destruct sy; simpl;
    try (split; intros; try discriminate; lia).
  - destruct (Z.compare_spec ex ey); [subst|split; intros; try discriminate; lia|
                                      split; intros; try discriminate; lia].
    change (Pos.compare_cont Eq mx my) with (Pos.compare mx my).
    destruct (Pos.compare_spec mx my); simpl; split; intros; try discriminate; lia.
  - destruct (Z.compare_spec ex ey); [subst|split; intros; try discriminate; lia|
                                      split; intros; try discriminate; lia].
    change (Pos.compare_cont Eq mx my) with (Pos.compare mx my).
    destruct (Pos.compare_spec mx my); simpl; split; intros; try discriminate; lia.
Qed.

Lemma rank_key (x y : number) :
  is_nan x = false -> is_nan y = false ->
  (rank x = rank y <-> Resolver.key_of x = Resolver.key_of y).
Proof.
  intros Hx Hy.
  destruct x as [sx|sx| |sx mx ex], y as [sy|sy| |sy my ey];
    try discriminate; try destruct sx; try destruct sy; simpl;
    split; intros H; try discriminate; try reflexivity;
    injection H; intros; f_equal; try congruence; lia.
Qed.

Lemma rank_key_of (x : number) : rank (Resolver.key_of x) = rank x.
Proof. now destruct x as [[]|[]| |[] ? ?]. Qed.

Lemma is_nan_key_of (x : number) : is_nan (Resolver.key_of x) = is_nan x.
Proof. now destruct x. Qed.

Lemma key_of_idem (x : number) : Resolver.key_of (Resolver.key_of x) = Resolver.key_of x.
Proof. now destruct x. Qed.

Lemma lex_lt_trans (a b c : Z * Z * Z) : lex_lt a b -> lex_lt b c -> lex_lt a c.
Proof. destruct a as [[? ?] ?], b as [[? ?] ?], c as [[? ?] ?]. simpl. lia. Qed.

Lemma lex_lt_irrefl (a : Z * Z * Z) : ~ lex_lt a a.
Proof. destruct a as [[? ?] ?]. simpl. lia. Qed.

Lemma lex_total (a b : Z * Z * Z) : lex_lt a b \/ a = b \/ lex_lt b a.
Proof.
  destruct a as [[a1 a2] a3], b as [[b1 b2] b3]. simpl.
  destruct (Z.lt_trichotomy a1 b1) as [|[|]]; try lia.
  destruct (Z.lt_trichotomy a2 b2) as [|[|]]; try lia.
  destruct (Z.lt_trichotomy a3 b3) as [|[|]]; try lia.
  right. left. congruence.
Qed.

Lemma lex_lt_le_trans (a b c : Z * Z * Z) : lex_lt a b -> ~ lex_lt c b -> lex_lt a c.
Proof. destruct a as [[? ?] ?], b as [[? ?] ?], c as [[? ?] ?]. simpl. lia. Qed.

Lemma lex_le_antisym (a b : Z * Z * Z) : ~ lex_lt a b -> ~ lex_lt b a -> a = b.
Proof. intros H1 H2. destruct (lex_total a b) as [|[|]]; tauto. Qed.

End NumberOrder.

(** ** Insertion-ordered maps *)

Section JSMapFacts.
Variables K V : Type.
Variable eqb : K -> K -> bool.
Hypothesis eqb_eq : forall x y, eqb x y = true <-> x = y.

Lemma eqb_refl_of (x : K) : eqb x x = true.
Proof. now apply eqb_eq. Qed.

Lemma eqb_neq_of (x y : K) : x <> y -> eqb x y = false.
Proof.
  intros Hne. destruct (eqb x y) eqn:E; [|reflexivity].
  apply eqb_eq in E. contradiction.
Qed.

Lemma map_get_set_same (m : JSMap.t K V) (k : K) (v : V) :
  JSMap.get eqb (JSMap.set eqb m k v) k = Some v.
Proof.
  induction m as [|[k' v'] m IH]; simpl.
  - now rewrite eqb_refl_of.
  - destruct (eqb k' k) eqn:E; simpl; now rewrite E.
Qed.

Lemma map_get_set_other (m : JSMap.t K V) (k k' : K) (v : V) :
  k <> k' -> JSMap.get eqb (JSMap.set eqb m k v) k' = JSMap.get eqb m k'.
Proof.
  intros Hne. induction m as [|[k0 v0] m IH]; simpl.
  - now rewrite eqb_neq_of.
  - destruct (eqb k0 k) eqn:E; simpl.
    + apply eqb_eq in E. subst k0. now rewrite eqb_neq_of.
    + now rewrite IH.
Qed.

Lemma map_get_in_keys (m : JSMap.t K V) (k : K) :
  In k (map fst m) <-> JSMap.get eqb m k <> None.
Proof.
  induction m as [|[k0 v0] m IH]; simpl.
  - split; [tauto|congruence].
  - destruct (eqb k0 k) eqn:E.
    + apply eqb_eq in E. split; [congruence|auto].
    + rewrite <- IH. split; [|tauto].
      intros [H|H]; [|assumption]. subst. now rewrite eqb_refl_of in E.
Qed.

Lemma map_get_delete_other (m : JSMap.t K V) (k k' : K) :
  k <> k' -> JSMap.get eqb (JSMap.delete eqb m k) k' = JSMap.get eqb m k'.
Proof.
  intros Hne. induction m as [|[k0 v0] m IH]; simpl; [reflexivity|].
  destruct (eqb k0 k) eqn:E; simpl.
  - apply eqb_eq in E. subst k0. now rewrite eqb_neq_of.
  - now rewrite IH.
Qed.

Lemma map_get_delete_same (m : JSMap.t K V) (k : K) :
  NoDup (map fst m) -> JSMap.get eqb (JSMap.delete eqb m k) k = None.
Proof.
  induction m as [|[k0 v0] m IH]; simpl; intros Hnd; [reflexivity|].
  inversion Hnd as [|? ? Hnotin Hnd']; subst.
  destruct (eqb k0 k) eqn:E; simpl.
  - apply eqb_eq in E. subst k0.
    destruct (JSMap.get eqb m k) eqn:G; [|reflexivity].
    exfalso. apply Hnotin. apply map_get_in_keys. congruence.
  - rewrite E. now apply IH.
Qed.

Lemma map_keys_set (m : JSMap.t K V) (k : K) (v : V) :
  map fst (JSMap.set eqb m k v)
  = if JSMap.has eqb m k then map fst m else map fst m ++ [k].
Proof.
  unfold JSMap.has. induction m as [|[k0 v0] m IH]; simpl; [reflexivity|].
  destruct (eqb k0 k) eqn:E; simpl; [reflexivity|].
  rewrite IH. now destruct (JSMap.get eqb m k).
Qed.

Lemma map_get_some_in (m : JSMap.t K V) (k : K) (v : V) :
  JSMap.get eqb m k = Some v -> In (k, v) m.
Proof.
  induction m as [|[k0 v0] m IH]; simpl; [discriminate|].
  destruct (eqb k0 k) eqn:E.
  - apply eqb_eq in E. intros H. injection H as <-. subst. now left.
  - intros H. right. now apply IH.
Qed.

End JSMapFacts.

(** ** Conflict resolution *)

Section ResolverProperties.
Import Resolver.

Local Abbreviation get := (JSMap.get (V:=list Activation) num_same).

Lemma group_step_get (g : groups) (a : Activation) (k : number) :
  get (group_step g a) k
  = if num_same (key a) k
    then Some (match get g (key a) with Some grp => grp | None => [] end ++ [a])
    else get g k.
Proof.
  unfold group_step, key. cbn zeta. set (s := key_of (salience_of a)).
  destruct (num_same s k) eqn:E.
  - apply num_same_eq in E. subst k.
    destruct (get g s); now rewrite map_get_set_same by apply num_same_eq.
  - assert (Hne : s <> k).
    { intros ->. assert (num_same k k = true) by now apply num_same_eq. congruence. }
    destruct (get g s);
      now rewrite map_get_set_other by (apply num_same_eq || assumption).
Qed.

Lemma group_get_fold (l : list Activation) :
  forall (g : groups) (k : number),
    get (fold_left group_step l g) k
    = match filter (fun a => num_same (key a) k) l with
      | [] => get g k
      | fl => Some (match get g k with Some grp => grp | None => [] end ++ fl)
      end.
Proof.
  induction l as [|a l IH]; intros g k; [reflexivity|].
  cbn [fold_left filter]. rewrite IH. clear IH.
  rewrite group_step_get.
  destruct (num_same (key a) k) eqn:E.
  - apply num_same_eq in E. subst k.
    destruct (filter (fun a0 => num_same (key a0) (key a)) l); [reflexivity|].
    now rewrite <- app_assoc.
  - reflexivity.
Qed.

Lemma group_of (l : list Activation) (k : number) :
  get (groupedBySalience l) k
  = match filter (fun a => num_same (key a) k) l with
    | [] => None
    | fl => Some fl
    end.
Proof. unfold groupedBySalience. rewrite group_get_fold. reflexivity. Qed.

Lemma level_in_groups (l : list Activation) (k : number) :
  In k (map fst (groupedBySalience l)) <-> exists a, In a l /\ key a = k.
Proof.
  rewrite (map_get_in_keys _ _ num_same num_same_eq). rewrite group_of.
  destruct (filter (fun a => num_same (key a) k) l) as [|a fl] eqn:F.
  - split; [congruence|]. intros [a [Ha Hk]].
    assert (In a (filter (fun a => num_same (key a) k) l)).
    { apply filter_In. split; [assumption|]. now apply num_same_eq. }
    rewrite F in H. contradiction.
  - split; [|congruence]. intros _. exists a.
    assert (Hin : In a (filter (fun a => num_same (key a) k) l)) by (rewrite F; now left).
    apply filter_In in Hin. destruct Hin as [Hin Hk]. apply num_same_eq in Hk. auto.
Qed.

Lemma max2_spec (a b : number) :
  is_nan a = false -> is_nan b = false ->
  is_nan (max2 a b) = false
  /\ (rank (max2 a b) = rank a \/ rank (max2 a b) = rank b)
  /\ ~ lex_lt (rank (max2 a b)) (rank a)
  /\ ~ lex_lt (rank (max2 a b)) (rank b).
Proof.
  intros Ha Hb. unfold max2. rewrite Ha, Hb. cbn [orb].
  assert (Hgen : let m := if num_lt a b then b else a in
                 is_nan m = false /\ (rank m = rank a \/ rank m = rank b)
                 /\ ~ lex_lt (rank m) (rank a) /\ ~ lex_lt (rank m) (rank b)).
  { cbn zeta. destruct (num_lt a b) eqn:E.
    - apply num_lt_rank in E; [|assumption|assumption].
      split; [assumption|]. split; [now right|]. split; [|apply lex_lt_irrefl].
      intros H. apply (lex_lt_irrefl (rank a)). eauto using lex_lt_trans.
    - split; [assumption|]. split; [now left|]. split; [apply lex_lt_irrefl|].
      intros H. apply num_lt_rank in H; [congruence|assumption|assumption]. }
  destruct a as [sa|sa| |sa ma ea], b as [sb|sb| |sb mb eb]; exact Hgen.
Qed.

Lemma math_max_fold (l : list number) :
  forall acc : number,
    is_nan acc = false -> Forall (fun k => is_nan k = false) l ->
    let M := fold_left max2 l acc in
    is_nan M = false
    /\ (rank M = rank acc \/ exists k, In k l /\ rank M = rank k)
    /\ ~ lex_lt (rank M) (rank acc)
    /\ (forall k, In k l -> ~ lex_lt (rank M) (rank k)).
Proof.
  induction l as [|x l IH]; intros acc Hacc Hl; cbn zeta.
  - cbn [fold_left]. split; [assumption|]. split; [now left|].
    split; [apply lex_lt_irrefl|]. intros k [].
  - inversion Hl as [|? ? Hx Hl']; subst.
    destruct (max2_spec acc x Hacc Hx) as [Hn [Hr [Ha Hb]]].
    destruct (IH (max2 acc x) Hn Hl') as [HMn [HMr [HMa HMk]]].
    cbn [fold_left]. split; [assumption|]. split; [|split].
    + destruct HMr as [HMr|[k [Hk HMr]]].
      * destruct Hr as [Hr|Hr]; [left; congruence|].
        right. exists x. split; [now left|congruence].
      * right. exists k. split; [now right|assumption].
    + intros H. apply HMa. eapply lex_lt_le_trans; eauto.
    + intros k [<-|Hk]; [|now apply HMk].
      intros H. apply HMa. eapply lex_lt_le_trans; eauto.
Qed.

Lemma hd_filter_split (P : Activation -> bool) (l : list Activation) (a : Activation) :
  hd_error (filter P l) = Some a ->
  exists l1 l2, l = l1 ++ a :: l2 /\ P a = true /\ forall x, In x l1 -> P x = false.
Proof.
  induction l as [|x l IH]; simpl; [discriminate|].
  destruct (P x) eqn:E.
  - simpl. intros H. injection H as <-. exists [], l.
    split; [reflexivity|]. split; [assumption|]. intros ? [].
  - intros H. destruct (IH H) as [l1 [l2 [-> [Pa Hl1]]]].
    exists (x :: l1), l2. split; [reflexivity|]. split; [assumption|].
    intros y [<-|Hy]; auto.
Qed.

(** The general case, for a sequence that is not empty and has no NaN
    salience: the answer is the first activation of the sequence among
    those no other activation exceeds. *)
Lemma resolve_groups (l : list Activation) :
  l <> [] ->
  (forall a, In a l -> is_nan (salience_of a) = false) ->
  exists l1 a l2,
    l = l1 ++ a :: l2
    /\ (match JSMap.get num_same (groupedBySalience l)
                (key_of (math_max (map fst (groupedBySalience l)))) with
        | Some grp => hd_error grp
        | None => None
        end) = Some a
    /\ (forall x, In x l -> num_lt (salience_of a) (salience_of x) = false)
    /\ (forall x, In x l1 -> num_lt (salience_of x) (salience_of a) = true).
Proof.
  intros Hne Hnan.
  set (levels := map fst (groupedBySalience l)).
  assert (Hlevels : forall k, In k levels <-> exists a, In a l /\ key a = k)
    by apply level_in_groups.
  assert (Hlnan : Forall (fun k => is_nan k = false) levels).
  { apply Forall_forall. intros k Hk. apply Hlevels in Hk. destruct Hk as [a [Ha <-]].
    unfold key. rewrite is_nan_key_of. auto. }
  destruct (math_max_fold levels neg_infinity eq_refl Hlnan) as [HMn [HMr [_ HMk]]].
  fold (math_max levels) in HMn, HMr, HMk.
  set (M := math_max levels) in *.
  (* the highest level is the key of some activation *)
  assert (HM : exists a0, In a0 l /\ key a0 = key_of M).
  { destruct HMr as [HMr|[k [Hk HMr]]].
    - destruct l as [|a0 l']; [congruence|]. exists a0. split; [now left|].
      assert (Hk0 : In (key a0) levels) by (apply Hlevels; exists a0; split; [now left|reflexivity]).
      specialize (HMk _ Hk0).
      assert (Hr : rank (key a0) = rank M).
      { apply lex_le_antisym; [|assumption]. rewrite HMr. unfold key.
        destruct (key_of (salience_of a0)) as [?|[]| |[] ? ?]; simpl; lia. }
      unfold key in *. rewrite <- key_of_idem. apply rank_key; auto.
      rewrite is_nan_key_of. apply Hnan. now left.
    - apply Hlevels in Hk. destruct Hk as [a0 [Ha0 <-]]. exists a0. split; [assumption|].
      unfold key in *. rewrite <- key_of_idem. symmetry. apply rank_key; auto.
      rewrite is_nan_key_of. auto. }
  rewrite group_of.
  destruct HM as [a0 [Ha0 Hk0]].
  destruct (filter (fun a => num_same (key a) (key_of M)) l) as [|a fl] eqn:F.
  { assert (In a0 (filter (fun a => num_same (key a) (key_of M)) l)).
    { apply filter_In. split; [assumption|]. now apply num_same_eq. }
    rewrite F in H. contradiction. }
  assert (Hhd : hd_error (filter (fun a => num_same (key a) (key_of M)) l) = Some a)
    by now rewrite F.
  destruct (hd_filter_split _ _ _ Hhd) as [l1 [l2 [Hl [Ha Hl1]]]].
  apply num_same_eq in Ha.
  assert (Hain : In a l) by (rewrite Hl; apply in_or_app; right; now left).
  assert (Hra : rank (salience_of a) = rank M).
  { rewrite <- (rank_key_of (salience_of a)). fold (key a). rewrite Ha. apply rank_key_of. }
  exists l1, a, l2. split; [assumption|]. split; [reflexivity|]. split.
  - intros x Hx. destruct (num_lt (salience_of a) (salience_of x)) eqn:E; [|reflexivity].
    exfalso. apply num_lt_rank in E; auto.
    assert (Hkx : In (key x) levels) by (apply Hlevels; eauto).
    apply (HMk _ Hkx). unfold key. rewrite rank_key_of. now rewrite <- Hra.
  - intros x Hx.
    assert (Hxin : In x l) by (rewrite Hl; apply in_or_app; now left).
    apply num_lt_rank; auto.
    assert (Hkx : In (key x) levels) by (apply Hlevels; eauto).
    specialize (HMk _ Hkx). unfold key in HMk. rewrite rank_key_of in HMk.
    destruct (lex_total (rank (salience_of x)) (rank (salience_of a))) as [H|[H|H]].
    + assumption.
    + exfalso. specialize (Hl1 _ Hx). simpl in Hl1.
      assert (key x = key_of M).
      { unfold key. rewrite <- Ha. unfold key. apply rank_key; auto. }
      assert (num_same (key x) (key_of M) = true) by now apply num_same_eq.
      congruence.
    + exfalso. apply HMk. now rewrite <- Hra.
Qed.


End ResolverProperties.

(** ** The fact store *)

Section FactStoreProperties.
Import FactStorage.

Lemma nat_eqb_eq (x y : nat) : Nat.eqb x y = true <-> x = y.
Proof. apply Nat.eqb_eq. Qed.

Lemma string_eqb_eq (x y : string) : String.eqb x y = true <-> x = y.
Proof. apply String.eqb_eq. Qed.


Lemma map_set_in (V : Type) (m : JSMap.t nat V) (k : nat) (v : V) :
  In (k, v) (JSMap.set Nat.eqb m k v).
Proof.
  induction m as [|[k0 v0] m IH]; simpl; [now left|].
  destruct (Nat.eqb k0 k) eqn:E.
  - apply Nat.eqb_eq in E. subst. now left.
  - right. exact IH.
Qed.

Lemma get_prop_type_object (fact : value) (kind : string) :
  get_prop fact "type" = VStr kind ->
  exists fs, fact = VObj fs /\ obj_get fs "type" = VStr kind.
Proof.
  unfold get_prop. destruct fact as [| | | | | | | |fs]; try discriminate.
  intros H. exists fs. split; [reflexivity|]. exact H.
Qed.

Lemma fresh_identity (st : t) :
  wf st -> getFactEntry st (S (factIdCounter st)) = None.
Proof.
  intros [Hle _]. unfold getFactEntry.
  destruct (JSMap.get Nat.eqb (facts st) (S (factIdCounter st))) eqn:G; [|reflexivity].
  assert (Hin : In (S (factIdCounter st)) (map fst (facts st))).
  { apply (map_get_in_keys _ _ Nat.eqb nat_eqb_eq). congruence. }
  apply Hle in Hin. lia.
Qed.

Lemma keys_set_fresh (V : Type) (m : JSMap.t nat V) (k : nat) (v : V) :
  ~ In k (map fst m) -> map fst (JSMap.set Nat.eqb m k v) = map fst m ++ [k].
Proof.
  intros Hnotin. rewrite map_keys_set.
  unfold JSMap.has.
  destruct (JSMap.get Nat.eqb m k) eqn:G; [|reflexivity].
  exfalso. apply Hnotin. apply (map_get_in_keys _ _ Nat.eqb nat_eqb_eq). congruence.
Qed.

Lemma NoDup_snoc (l : list nat) (k : nat) : NoDup l -> ~ In k l -> NoDup (l ++ [k]).
Proof.
  intros Hnd Hk. induction l as [|x l IH]; simpl.
  - constructor; [intros []|constructor].
  - inversion Hnd; subst. constructor.
    + intros Hin. apply in_app_or in Hin. destruct Hin as [Hin|[<-|[]]]; [contradiction|].
      apply Hk. now left.
    + apply IH; [assumption|]. intros Hin. apply Hk. now right.
Qed.

(** What [assert] does to a fact it accepts. *)
Lemma assert_accepts (st : t) (fs : fields) (kind : string) (md : Metadata) :
  obj_get fs "type" = VStr kind ->
  wf st ->
  let id := S (factIdCounter st) in
  let stored := obj_set fs "_id" (VNum (num_of_nat id)) in
  let entry := {| fact := stored; fact_id := id; metadata := md |} in
  exists st',
    assert st (VObj fs) md = (st', Some entry)
    /\ getFactEntry st id = None
    /\ factIdCounter st' = id
    /\ facts st' = JSMap.set Nat.eqb (facts st) id entry
    /\ getFactEntry st' id = Some entry
    /\ In (id, stored) (getFactsByType st' kind)
    /\ (forall k, k <> "_id" -> obj_get stored k = obj_get fs k)
    /\ (forall id' x, getFactEntry st id' = Some x -> getFactEntry st' id' = Some x)
    /\ wf st'.
Proof.
  intros Hkind Hwf id stored entry.
  pose proof (fresh_identity st Hwf) as Hfresh. fold id in Hfresh.
  assert (Hnotin : ~ In id (map fst (facts st))).
  { intros Hin. apply (map_get_in_keys _ _ Nat.eqb nat_eqb_eq) in Hin.
    unfold getFactEntry in Hfresh. congruence. }
  unfold assert. cbn [to_boolean negb]. unfold get_prop. cbn [get_own].
  unfold obj_get in Hkind.
  destruct (assoc fs "type") as [ty|] eqn:Hty; [|discriminate]. subst ty.
  eexists. split; [reflexivity|]. cbn [factIdCounter facts alphaNetwork].
  split; [exact Hfresh|]. split; [reflexivity|]. split; [reflexivity|]. split; [|split; [|split; [|split]]].
  - unfold getFactEntry. cbn [facts]. apply (map_get_set_same _ _ Nat.eqb nat_eqb_eq).
  - unfold getFactsByType. cbn [alphaNetwork].
    destruct (JSMap.get String.eqb (alphaNetwork st) kind) as [idx|];
      rewrite (map_get_set_same _ _ String.eqb string_eqb_eq).
    + apply map_set_in.
    + now left.
  - intros k Hk. apply obj_get_set_other. congruence.
  - intros id' x Hx. unfold getFactEntry in *. cbn [facts].
    rewrite (map_get_set_other _ _ Nat.eqb nat_eqb_eq); [assumption|].
    intros E. subst id'. unfold id in *. congruence.
  - destruct Hwf as [Hle [Hnd Hids]]. split; [|split]; cbn [facts factIdCounter].
    + intros i Hi. rewrite keys_set_fresh in Hi by assumption.
      apply in_app_or in Hi. destruct Hi as [Hi|[<-|[]]]; [|lia].
      apply Hle in Hi. unfold id. lia.
    + rewrite keys_set_fresh by assumption. now apply NoDup_snoc.
    + intros i x Hx. unfold getFactEntry in Hx. cbn [facts] in Hx.
      destruct (Nat.eq_dec id i) as [<-|Hne].
      * rewrite (map_get_set_same _ _ Nat.eqb nat_eqb_eq) in Hx. now injection Hx as <-.
      * rewrite (map_get_set_other _ _ Nat.eqb nat_eqb_eq) in Hx by assumption.
        now apply Hids.
Qed.

End FactStoreProperties.

Section FactStoreTheorem.
Import FactStorage.
Variable h : Host.

(** C7, as the code has it.  The store requires a kind that is a string:
    a fact whose kind is absent or not a string is rejected and the store
    is left as it was; a fact whose kind is a string, the empty one
    included, gets the next identity, is stored as a copy that differs from
    the given object in [_id] only, is indexed under its kind and comes
    back as the stored entry.  That the kind is not empty is required one
    level up: the engine's [assertFact] rejects a kind that is absent, not
    a string, empty or blank, and the store is not reached. *)
Theorem fact_store_assert_requires_string_kind :
  forall (st : t) (fact : value) (md : Metadata) (e : Engine.t) (factData : fields),
    (typeof (get_prop fact "type") <> TString -> assert st fact md = (st, None))
    /\ (forall fs kind,
          fact = VObj fs -> obj_get fs "type" = VStr kind -> wf st ->
          let id := S (factIdCounter st) in
          let stored := obj_set fs "_id" (VNum (num_of_nat id)) in
          let entry := {| fact := stored; fact_id := id; metadata := md |} in
          exists st',
            assert st fact md = (st', Some entry)
            /\ getFactEntry st id = None
            /\ factIdCounter st' = id
            /\ getFactEntry st' id = Some entry
            /\ In (id, stored) (getFactsByType st' kind)
            /\ (forall k, k <> "_id" -> obj_get stored k = obj_get fs k)
            /\ (forall id' x, getFactEntry st id' = Some x -> getFactEntry st' id' = Some x)
            /\ wf st')
    /\ ((forall kind, obj_get factData "type" = VStr kind -> Engine.is_blank kind = true) ->
        Engine.assertFact h e factData = (Engine.emit e engine_error, None)).
Proof.
  intros st fact md e factData. split; [|split].
  - intros Hty. unfold assert.
    destruct (negb (to_boolean fact)); [reflexivity|].
    destruct (get_prop fact "type") eqn:G; try reflexivity.
    now contradiction Hty.
  - intros fs kind -> Hkind Hwf id stored entry.
    destruct (assert_accepts st fs kind md Hkind Hwf)
      as [st' [H1 [H2 [H3 [_ [H4 [H5 [H6 [H7 H8]]]]]]]]].
    exists st'. repeat (split; [assumption|]). assumption.
  - intros Hblank. unfold Engine.assertFact.
    destruct (obj_get factData "type") eqn:G; try reflexivity.
    now rewrite (Hblank s eq_refl).
Qed.

End FactStoreTheorem.

(** C7, as stated, fails for the empty kind: the store does not reject a
    fact whose kind is the empty string, it stores and indexes it. *)
Lemma fact_store_accepts_empty_kind :
  FactStorage.assert FactStorage.empty (VObj [("type", VStr EmptyString)])
    FactStorage.no_metadata
  <> (FactStorage.empty, None)
  /\ exists st' entry,
       FactStorage.assert FactStorage.empty (VObj [("type", VStr EmptyString)])
         FactStorage.no_metadata
       = (st', Some entry)
       /\ FactStorage.getFactEntry st' 1 = Some entry
       /\ FactStorage.getFactsByType st' EmptyString = [(1, FactStorage.fact entry)].
Proof.
  split; [discriminate|].
  do 2 eexists. split; [reflexivity|]. split; reflexivity.
Qed.

Lemma empty_store_wf : FactStorage.wf FactStorage.empty.
Proof. split; [intros id []|]. split; [constructor|]. intros id entry H. discriminate H. Qed.

Lemma fact_store_assert_requires_string_kind_witness :
  FactStorage.assert FactStorage.empty (VObj [("name", VStr "Dave")]) FactStorage.no_metadata
  = (FactStorage.empty, None)
  /\ (exists st',
        FactStorage.assert FactStorage.empty (VObj [("type", VStr "user")])
          FactStorage.no_metadata
        = (st', Some {| FactStorage.fact := [("type", VStr "user"); ("_id", num 1)];
                        FactStorage.fact_id := 1;
                        FactStorage.metadata := FactStorage.no_metadata |}))
  /\ Engine.assertFact sampleHost Engine.init [("type", VStr " ")]
     = (Engine.emit Engine.init engine_error, None).
Proof.
  pose proof (fact_store_assert_requires_string_kind sampleHost FactStorage.empty
                (VObj [("name", VStr "Dave")]) FactStorage.no_metadata
                Engine.init [("type", VStr " ")]) as [H1 [_ H3]].
  pose proof (fact_store_assert_requires_string_kind sampleHost FactStorage.empty
                (VObj [("type", VStr "user")]) FactStorage.no_metadata
                Engine.init []) as [_ [H2 _]].
  split; [|split].
  - apply H1. discriminate.
  - destruct (H2 [("type", VStr "user")] "user" eq_refl eq_refl empty_store_wf)
      as [st' [Hst' _]].
    exists st'. exact Hst'.
  - apply H3. intros kind Hk. injection Hk as <-. reflexivity.
Defined.

(** ** The condition join *)

Section JoinProperties.
Import Join.
Variable h : Host.
Variable depth : nat.

Lemma gen_seq_yields (g1 g2 : Gen) (a : Activation) :
  In a (gen_yields (gen_seq g1 g2)) -> In a (gen_yields g1) \/ In a (gen_yields g2).
Proof.
  unfold gen_seq. destruct (gen_thrown g1); [now left|].
  cbn [gen_yields]. apply in_app_or.
Qed.

(** Every activation the loop of a Pattern condition yields comes from the
    remaining conditions, entered with the identity of one candidate added
    to the consumed set. *)
Lemma pattern_loop_yields (rid : string) (pattern : value) (factAlias : string)
    (guards : list value) (b : bindings) (consumed : JSSet.t)
    (k : bindings -> JSSet.t -> Gen) (candidates : list (nat * fields)) (a : Activation) :
  In a (gen_yields (pattern_loop h depth rid pattern factAlias guards b consumed k candidates)) ->
  exists factEntry r,
    In factEntry candidates
    /\ match_ h depth pattern (plainFact_of (snd factEntry)) b = Some r
    /\ isMatch r = true
    /\ In a (gen_yields
               (k (bind_alias (result_bindings r) factAlias (plainFact_of (snd factEntry)))
                  (JSSet.add consumed (fst factEntry)))).
Proof.
  induction candidates as [|factEntry rest IH]; cbn [pattern_loop]; [intros []|].
  destruct (match_ h depth pattern (plainFact_of (snd factEntry)) b) as [r|] eqn:Hm;
    [|intros []].
  destruct (isMatch r) eqn:Hr.
  - intros Hin. apply gen_seq_yields in Hin. destruct Hin as [Hin|Hin].
    + cbn [gen_catch gen_yields] in Hin.
      destruct (Eff.outcome _) as [[|]|ex]; cbn [gen_emit gen_yields gen_empty gen_throw] in Hin;
        try contradiction.
      exists factEntry, r. split; [now left|]. split; [assumption|]. split; assumption.
    + destruct (IH Hin) as [fe [r' [Hfe Ha]]]. exists fe, r'. split; [now right|assumption].
  - intros Hin. destruct (IH Hin) as [fe [r' [Hfe Ha]]].
    exists fe, r'. split; [now right|assumption].
Qed.

(** The consumed set of a yielded activation is the consumed set the join
    was entered with, plus one identity for each Pattern condition. *)
Lemma checkRule_consumed (fs : FactStorage.t) (rule : definition) (conds : list condition) :
  forall (b : bindings) (consumed : JSSet.t) (a : Activation),
    In a (gen_yields (checkRule h depth fs rule conds b consumed)) ->
    exists ids,
      List.length ids = count_patterns conds
      /\ consumedFactIds a = fold_left JSSet.add ids consumed.
Proof.
  induction conds as [|c conds IH]; intros b consumed a Hin.
  - cbn in Hin. destruct Hin as [<-|[]]. exists []. split; reflexivity.
  - destruct c as [p|from acc on into|po guards]; cbn [checkRule] in Hin.
    + destruct (lacks_scan h depth _ _ b) as [[|]|ex]; cbn in Hin; try contradiction.
      apply IH in Hin. exact Hin.
    + destruct (accumulate_scan h depth _ _ b) as [src|ex]; cbn in Hin; try contradiction.
      destruct (accumulators h acc) as [fn|]; cbn in Hin; try contradiction.
      destruct (fn on src) as [result|]; cbn in Hin; try contradiction.
      apply IH in Hin. exact Hin.
    + destruct (hd_error (keys po)) as [factAlias|]; cbn in Hin; try contradiction.
      destruct (is_nullish (obj_get po factAlias)); cbn in Hin; try contradiction.
      apply pattern_loop_yields in Hin. destruct Hin as [fe [r [_ [_ [_ Hin]]]]].
      apply IH in Hin. destruct Hin as [ids [Hlen Hc]].
      exists (fst fe :: ids). split; [|exact Hc].
      unfold count_patterns in *. cbn [filter is_pattern_condition List.length]. now rewrite Hlen.
Qed.

(** C8. A Lacks condition that finds no match hands bindings and consumed
    set to the remaining conditions as they are; an Accumulator condition
    binds its target variable and hands the consumed set on as it is; the
    consumed set of a result grows by one identity for each Pattern
    condition and by nothing else. *)
Theorem join_consumed_set_frame :
  forall (fs : FactStorage.t) (rule : definition) (rest conds : list condition)
         (b : bindings) (consumed : JSSet.t),
    (forall p,
        lacks_scan h depth (source_pattern p) (source_candidates fs p) b = inl false ->
        checkRule h depth fs rule (CLacks p :: rest) b consumed
        = checkRule h depth fs rule rest b consumed)
    /\ (forall from name on into sourceFacts fn result,
          accumulate_scan h depth (source_pattern from) (source_candidates fs from) b
          = inl sourceFacts ->
          accumulators h name = Some fn -> fn on sourceFacts = Some result ->
          checkRule h depth fs rule (CAccumulate from name on into :: rest) b consumed
          = checkRule h depth fs rule rest (obj_set b into result) consumed)
    /\ (forall a,
          In a (gen_yields (checkRule h depth fs rule conds b consumed)) ->
          exists ids,
            List.length ids = count_patterns conds
            /\ consumedFactIds a = fold_left JSSet.add ids consumed)
    /\ (forall a,
          count_patterns conds = 0 ->
          In a (gen_yields (checkRule h depth fs rule conds b consumed)) ->
          consumedFactIds a = consumed)
    /\ (forall po guards a,
          In a (gen_yields (checkRule h depth fs rule (CPattern po guards :: rest) b consumed)) ->
          exists factAlias id fact r,
            hd_error (keys po) = Some factAlias
            /\ In (id, fact)
                 (candidates_of fs (typeToQuery (obj_get po factAlias) factAlias))
            /\ match_ h depth (obj_get po factAlias) (plainFact_of fact) b = Some r
            /\ isMatch r = true
            /\ In a (gen_yields
                       (checkRule h depth fs rule rest
                          (bind_alias (result_bindings r) factAlias (plainFact_of fact))
                          (JSSet.add consumed id)))).
Proof.
  intros fs rule rest conds b consumed. split; [|split; [|split; [|split]]].
  - intros p Hscan. cbn [checkRule]. now rewrite Hscan.
  - intros from name on into sourceFacts fn result Hscan Hfn Hres.
    cbn [checkRule]. now rewrite Hscan, Hfn, Hres.
  - apply checkRule_consumed.
  - intros a Hcount Hin. apply checkRule_consumed in Hin.
    destruct Hin as [ids [Hlen ->]]. rewrite Hcount in Hlen.
    destruct ids; [reflexivity|discriminate].
  - intros po guards a Hin. cbn [checkRule] in Hin.
    destruct (hd_error (keys po)) as [factAlias|]; cbn in Hin; try contradiction.
    destruct (is_nullish (obj_get po factAlias)); cbn in Hin; try contradiction.
    apply pattern_loop_yields in Hin. destruct Hin as [[id fact] [r [Hc [Hm [Hr Hin]]]]].
    exists factAlias, id, fact, r. auto.
Qed.

End JoinProperties.

Lemma join_consumed_set_frame_witness :
  Join.checkRule sampleHost 5 Sample.storeA (DRule Sample.ruleR1)
    [Sample.lacksB; Sample.countA] [] [7]
  = Join.checkRule sampleHost 5 Sample.storeA (DRule Sample.ruleR1) [Sample.countA] [] [7]
  /\ Join.checkRule sampleHost 5 Sample.storeA (DRule Sample.ruleR1) [Sample.countA] [] [7]
     = Join.checkRule sampleHost 5 Sample.storeA (DRule Sample.ruleR1) [] [("?n", num 1)] [7]
  /\ map consumedFactIds
       (Join.gen_yields (Join.checkRule sampleHost 5 Sample.storeA (DRule Sample.ruleR1)
                           [Sample.lacksB; Sample.countA] [] [7]))
     = [[7]]
  /\ map consumedFactIds
       (Join.gen_yields (Join.checkRule sampleHost 5 Sample.storeA (DRule Sample.ruleR1)
                           [Sample.patternA; Sample.lacksB; Sample.countA] [] [7]))
     = [[7; 1]].
Proof.
  pose proof (join_consumed_set_frame sampleHost 5 Sample.storeA (DRule Sample.ruleR1)
                [Sample.countA] [Sample.lacksB; Sample.countA] [] [7]) as [H1 [_ [H3 [H4 _]]]].
  pose proof (join_consumed_set_frame sampleHost 5 Sample.storeA (DRule Sample.ruleR1)
                [] [] [] [7]) as [_ [H2 [_ [_ H5]]]].
  split; [exact (H1 [("b", VObj [])] eq_refl)|].
  split; [exact (H2 [("a", VObj [])] "count" VUndef "?n"
                   [VObj [("type", VStr "a"); ("_id", num 1)]]
                   (fun _ facts => Some (VNum (num_of_nat (List.length facts))))
                   (num 1) eq_refl eq_refl eq_refl)|].
  split; [|reflexivity].
  assert (Hin : In {| act_rule := DRule Sample.ruleR1; act_bindings := [("?n", num 1)];
                      consumedFactIds := [7] |}
                  (Join.gen_yields (Join.checkRule sampleHost 5 Sample.storeA
                     (DRule Sample.ruleR1) [Sample.lacksB; Sample.countA] [] [7])))
    by (now left).
  pose proof (H4 _ eq_refl Hin) as Hframe.
  destruct (H3 _ Hin) as [ids [Hlen Hids]].
  destruct (H5 [("a", VObj [("type", VStr "a")])] []
              {| act_rule := DRule Sample.ruleR1;
                 act_bindings := [("a", VObj [("type", VStr "a"); ("_id", num 1)]);
                                  ("?a", VObj [("type", VStr "a"); ("_id", num 1)])];
                 consumedFactIds := [7; 1] |} (or_introl eq_refl))
    as [alias [id [fact [r [_ _]]]]].
  reflexivity.
Defined.

(** ** Guards that divide by zero *)

Ltac eval_string_tests :=
  repeat match goal with
         | |- context [String.eqb ?x ?y] =>
             let r := eval vm_compute in (String.eqb x y) in
             change (String.eqb x y) with r
         end;
  cbv iota.

Section GuardProperties.
Import Join Eff.
Variable h : Host.
Variable depth : nat.

Lemma resolve_plain_inline (bnd : bindings) (v : value) (sub : M value) :
  is_array v = false ->
  match v with
  | VStr s => if startsWith s "?" then ret (obj_get bnd s) else ret v
  | VArr _ => sub
  | _ => ret v
  end = ret (Guard.resolve_plain bnd v).
Proof.
  intros Hv. destruct v; try reflexivity; try discriminate.
  simpl. now destruct (startsWith s "?").
Qed.

(** [['/', a, b]] with operands that resolve to numbers or booleans, the
    second one to zero: one guard-error event, then the error. *)
Lemma division_by_zero_raises (a b : value) (bnd : bindings) (rid : option string) :
  is_array a = false -> is_array b = false ->
  Guard.is_numeric_operand (Guard.resolve_plain bnd a) = true ->
  Guard.is_numeric_operand (Guard.resolve_plain bnd b) = true ->
  num_eq (Guard.numeric (Guard.resolve_plain bnd b)) pos_zero = true ->
  Guard.executeGuard h (VArr [VStr "/"; a; b]) bnd rid
  = ([engine_guardError rid (VArr [VStr "/"; a; b]) (GuardError DivisionByZero) bnd],
     inr (GuardError DivisionByZero)).
Proof.
  intros Ha Hb Hna Hnb Hz.
  cbn [Guard.executeGuard]. eval_string_tests.
  rewrite !resolve_plain_inline by assumption.
  unfold Guard.apply_operator. eval_string_tests.
  cbn [orb bind ret app].
  unfold Guard.expectNumericOperands. cbn [List.length Nat.eqb negb].
  cbn [Guard.first_non_numeric]. rewrite Hna, Hnb.
  cbn [bind ret app map nth]. rewrite Hz. reflexivity.
Qed.

(** With a divisor that is not zero the quotient is returned instead. *)
Lemma division_returns_quotient (a b : value) (bnd : bindings) (rid : option string) :
  is_array a = false -> is_array b = false ->
  Guard.is_numeric_operand (Guard.resolve_plain bnd a) = true ->
  Guard.is_numeric_operand (Guard.resolve_plain bnd b) = true ->
  num_eq (Guard.numeric (Guard.resolve_plain bnd b)) pos_zero = false ->
  Guard.executeGuard h (VArr [VStr "/"; a; b]) bnd rid
  = ([], inl (VNum (Guard.div (Guard.numeric (Guard.resolve_plain bnd a))
                              (Guard.numeric (Guard.resolve_plain bnd b))))).
Proof.
  intros Ha Hb Hna Hnb Hz.
  cbn [Guard.executeGuard]. eval_string_tests.
  rewrite !resolve_plain_inline by assumption.
  unfold Guard.apply_operator. eval_string_tests.
  cbn [orb bind ret app].
  unfold Guard.expectNumericOperands. cbn [List.length Nat.eqb negb].
  cbn [Guard.first_non_numeric]. rewrite Hna, Hnb.
  cbn [bind ret app map nth]. rewrite Hz. reflexivity.
Qed.

Lemma every_guard_first_throws (guard : value) (more : list value) (bnd : bindings)
    (rid : option string) (evs : list event) (ex : exn) :
  Guard.executeGuard h guard bnd rid = (evs, inr ex) ->
  every_guard h (guard :: more) bnd rid = (evs, inr ex).
Proof. intros Hg. cbn [every_guard]. rewrite Hg. reflexivity. Qed.

(** A candidate whose guards throw is passed over: its events stay, it
    yields nothing, and the loop goes on with the candidates that remain. *)
Lemma pattern_loop_skips (rid : string) (pattern : value) (factAlias : string)
    (guards : list value) (b0 : bindings) (consumed : JSSet.t)
    (k : bindings -> JSSet.t -> Gen) (c : nat * fields) (rest : list (nat * fields))
    (r : match_result) (evs : list event) (ex : exn) :
  match_ h depth pattern (plainFact_of (snd c)) b0 = Some r ->
  isMatch r = true ->
  every_guard h guards (bind_alias (result_bindings r) factAlias (plainFact_of (snd c)))
    (Some rid) = (evs, inr ex) ->
  pattern_loop h depth rid pattern factAlias guards b0 consumed k (c :: rest)
  = gen_emit evs (pattern_loop h depth rid pattern factAlias guards b0 consumed k rest).
Proof.
  intros Hm Hr Hg. cbn [pattern_loop]. rewrite Hm, Hr, Hg.
  cbn [outcome events_of fst snd]. unfold gen_seq, gen_catch, gen_emit, gen_throw.
  cbn [gen_thrown gen_events gen_yields app]. now rewrite app_nil_r.
Qed.

Lemma gen_seq_thrown (g1 g2 : Gen) (ex : exn) :
  gen_thrown (gen_seq g1 g2) = Some ex ->
  gen_thrown g1 = Some ex \/ gen_thrown g2 = Some ex.
Proof.
  unfold gen_seq. destruct (gen_thrown g1) eqn:E; [left; congruence|].
  cbn [gen_thrown]. now right.
Qed.

Lemma lacks_scan_thrown (pattern : value) (cands : list (nat * fields)) (b : bindings)
    (ex : exn) :
  lacks_scan h depth pattern cands b = inr ex -> ex = StackOverflow.
Proof.
  induction cands as [|c cands IH]; cbn [lacks_scan]; [discriminate|].
  destruct (match_ h depth pattern (plainFact_of (snd c)) b) as [r|]; [|congruence].
  destruct (isMatch r); [discriminate|exact IH].
Qed.

Lemma accumulate_scan_thrown (pattern : value) (cands : list (nat * fields)) (b : bindings)
    (ex : exn) :
  accumulate_scan h depth pattern cands b = inr ex -> ex = StackOverflow.
Proof.
  induction cands as [|c cands IH]; cbn [accumulate_scan]; [discriminate|].
  destruct (match_ h depth pattern (plainFact_of (snd c)) b) as [r|]; [|congruence].
  destruct (accumulate_scan h depth pattern cands b); [discriminate|].
  intros H. injection H as <-. now apply IH.
Qed.

Lemma pattern_loop_thrown (rid : string) (pattern : value) (factAlias : string)
    (guards : list value) (b : bindings) (consumed : JSSet.t)
    (k : bindings -> JSSet.t -> Gen) (cands : list (nat * fields)) (ex : exn) :
  gen_thrown (pattern_loop h depth rid pattern factAlias guards b consumed k cands) = Some ex ->
  ex = StackOverflow.
Proof.
  induction cands as [|c cands IH]; cbn [pattern_loop]; [discriminate|].
  destruct (match_ h depth pattern (plainFact_of (snd c)) b) as [r|];
    [|cbn; congruence].
  destruct (isMatch r); [|exact IH].
  intros H. apply gen_seq_thrown in H. destruct H as [H|H]; [discriminate|now apply IH].
Qed.

(** No exception of the guard interpreter leaves the join. *)
Lemma checkRule_thrown (fs : FactStorage.t) (rule : definition) (conds : list condition) :
  forall (b : bindings) (consumed : JSSet.t) (ex : exn),
    gen_thrown (checkRule h depth fs rule conds b consumed) = Some ex ->
    Guard.is_guard_exn ex = false.
Proof.
  induction conds as [|c conds IH]; intros b consumed ex; [discriminate|].
  destruct c as [p|from acc on into|po guards]; cbn [checkRule].
  - destruct (lacks_scan h depth _ _ b) as [[|]|ex'] eqn:S; cbn.
    + discriminate.
    + apply IH.
    + intros H. injection H as <-. apply lacks_scan_thrown in S. now subst.
  - destruct (accumulate_scan h depth _ _ b) as [src|ex'] eqn:S; cbn.
    + destruct (accumulators h acc) as [fn|]; cbn; [|intros H; now injection H as <-].
      destruct (fn on src); cbn; [apply IH|intros H; now injection H as <-].
    + intros H. injection H as <-. apply accumulate_scan_thrown in S. now subst.
  - destruct (hd_error (keys po)) as [alias|]; cbn; [|intros H; now injection H as <-].
    destruct (is_nullish (obj_get po alias)); cbn; [intros H; now injection H as <-|].
    intros H. apply pattern_loop_thrown in H. now subst.
Qed.

Lemma findMatches_in_thrown (fs : FactStorage.t) (defs : list definition) (ex : exn) :
  gen_thrown (findMatches_in h depth fs defs) = Some ex -> Guard.is_guard_exn ex = false.
Proof.
  induction defs as [|[r|q] defs IH]; cbn [findMatches_in]; [discriminate| |exact IH].
  intros H. apply gen_seq_thrown in H. destruct H as [H|H]; [|now apply IH].
  now apply checkRule_thrown in H.
Qed.


End GuardProperties.

(** ** The invariant of the engine *)

Section MapMore.
Variable V : Type.

Lemma delete_keys_incl (m : JSMap.t nat V) (k x : nat) :
  In x (map fst (JSMap.delete Nat.eqb m k)) -> In x (map fst m).
Proof.
  induction m as [|[k0 v0] m IH]; simpl; [tauto|].
  destruct (Nat.eqb k0 k); simpl; [tauto|].
  intros [H|H]; [now left|right; now apply IH].
Qed.

Lemma delete_keys_NoDup (m : JSMap.t nat V) (k : nat) :
  NoDup (map fst m) -> NoDup (map fst (JSMap.delete Nat.eqb m k)).
Proof.
  induction m as [|[k0 v0] m IH]; simpl; intros Hnd; [constructor|].
  inversion Hnd as [|? ? Hnotin Hnd']; subst.
  destruct (Nat.eqb k0 k); simpl; [assumption|].
  constructor; [|now apply IH].
  intros Hin. apply Hnotin. now apply delete_keys_incl in Hin.
Qed.

Lemma delete_get_back (m : JSMap.t nat V) (k k' : nat) (x : V) :
  NoDup (map fst m) ->
  JSMap.get Nat.eqb (JSMap.delete Nat.eqb m k) k' = Some x ->
  JSMap.get Nat.eqb m k' = Some x /\ k' <> k.
Proof.
  intros Hnd Hget. destruct (Nat.eq_dec k k') as [<-|Hne].
  - rewrite (map_get_delete_same _ _ Nat.eqb nat_eqb_eq) in Hget by assumption. discriminate.
  - rewrite (map_get_delete_other _ _ Nat.eqb nat_eqb_eq) in Hget by assumption.
    split; [assumption|congruence].
Qed.

Lemma set_keys_existing (m : JSMap.t nat V) (k : nat) (v v' : V) :
  JSMap.get Nat.eqb m k = Some v -> map fst (JSMap.set Nat.eqb m k v') = map fst m.
Proof.
  intros Hget. rewrite map_keys_set. unfold JSMap.has. now rewrite Hget.
Qed.

Lemma get_none_not_in (m : JSMap.t nat V) (k : nat) :
  JSMap.get Nat.eqb m k = None -> ~ In k (map fst m).
Proof.
  intros Hget Hin. apply (map_get_in_keys _ _ Nat.eqb nat_eqb_eq) in Hin. congruence.
Qed.

Lemma get_some_in_keys (m : JSMap.t nat V) (k : nat) (v : V) :
  JSMap.get Nat.eqb m k = Some v -> In k (map fst m).
Proof.
  intros Hget. apply (map_get_in_keys _ _ Nat.eqb nat_eqb_eq). congruence.
Qed.

End MapMore.

Section SetFacts.

Lemma set_has_add_same (s : JSSet.t) (x : nat) : JSSet.has (JSSet.add s x) x = true.
Proof.
  unfold JSSet.add. destruct (JSSet.has s x) eqn:E; [assumption|].
  unfold JSSet.has. rewrite existsb_app. simpl. rewrite Nat.eqb_refl.
  now rewrite orb_true_r.
Qed.

Lemma set_has_add_mono (s : JSSet.t) (x y : nat) :
  JSSet.has s y = true -> JSSet.has (JSSet.add s x) y = true.
Proof.
  intros H. unfold JSSet.add. destruct (JSSet.has s x); [assumption|].
  unfold JSSet.has in *. rewrite existsb_app. now rewrite H.
Qed.

End SetFacts.

Section StoreSteps.
Import FactStorage.

(** [retract] removes the entry and nothing else. *)
Lemma retract_spec (st : t) (id : nat) :
  wf st ->
  let st' := fst (retract st id) in
  factIdCounter st' = factIdCounter st
  /\ snd (retract st id) = getFactEntry st id
  /\ getFactEntry st' id = None
  /\ (forall id' x, getFactEntry st' id' = Some x -> getFactEntry st id' = Some x)
  /\ (forall id', id' <> id -> getFactEntry st' id' = getFactEntry st id')
  /\ wf st'.
Proof.
  intros [Hle [Hnd Hids]]. unfold retract. unfold getFactEntry in *.
  destruct (JSMap.get Nat.eqb (facts st) id) as [entry|] eqn:G; cbn [fst snd facts factIdCounter].
  - split; [reflexivity|]. split; [reflexivity|]. split; [|split; [|split]].
    + now apply (map_get_delete_same _ _ Nat.eqb nat_eqb_eq).
    + intros id' x Hx. now apply delete_get_back in Hx.
    + intros id' Hne. apply (map_get_delete_other _ _ Nat.eqb nat_eqb_eq). congruence.
    + split; [|split]; unfold getFactEntry; cbn [facts factIdCounter].
      * intros i Hi. apply delete_keys_incl in Hi. auto.
      * now apply delete_keys_NoDup.
      * intros i x Hx. apply delete_get_back in Hx; [|assumption]. now apply Hids.
  - split; [reflexivity|]. split; [reflexivity|]. split; [assumption|].
    split; [auto|]. split; [reflexivity|]. split; [assumption|]. split; assumption.
Qed.

(** [set_metadata] rewrites the metadata of one entry. *)
Lemma set_metadata_spec (st : t) (id : nat) (m : Metadata) :
  wf st ->
  let st' := set_metadata st id m in
  factIdCounter st' = factIdCounter st
  /\ (forall id', id' <> id -> getFactEntry st' id' = getFactEntry st id')
  /\ (forall x, getFactEntry st' id = Some x ->
        exists x0, getFactEntry st id = Some x0 /\ metadata x = m)
  /\ wf st'.
Proof.
  intros [Hle [Hnd Hids]]. unfold set_metadata. unfold getFactEntry in *.
  destruct (JSMap.get Nat.eqb (facts st) id) as [entry|] eqn:G; cbn [facts factIdCounter].
  - split; [reflexivity|]. split; [|split].
    + intros id' Hne. apply (map_get_set_other _ _ Nat.eqb nat_eqb_eq). congruence.
    + intros x. rewrite (map_get_set_same _ _ Nat.eqb nat_eqb_eq).
      intros H. injection H as <-. exists entry. split; reflexivity.
    + split; [|split]; unfold getFactEntry; cbn [facts factIdCounter].
      * rewrite (set_keys_existing _ _ _ entry) by assumption. assumption.
      * rewrite (set_keys_existing _ _ _ entry) by assumption. assumption.
      * intros i x Hx. destruct (Nat.eq_dec id i) as [<-|Hne].
        -- rewrite (map_get_set_same _ _ Nat.eqb nat_eqb_eq) in Hx. injection Hx as <-.
           cbn. now apply Hids.
        -- rewrite (map_get_set_other _ _ Nat.eqb nat_eqb_eq) in Hx by assumption.
           now apply Hids.
  - split; [reflexivity|]. split; [reflexivity|]. split; [|split; [assumption|split; assumption]].
    intros x Hx. congruence.
Qed.

End StoreSteps.

Section EngineSteps.
Import Engine Inv.

Lemma evolves_refl (e : t) : evolves e e.
Proof.
  split; [lia|]. split; [auto|]. split; [lia|]. split.
  - intros aid a' _ Ht. exists a'. auto.
  - exists []. now rewrite app_nil_r.
Qed.

Lemma evolves_trans (e1 e2 e3 : t) : evolves e1 e2 -> evolves e2 e3 -> evolves e1 e3.
Proof.
  intros [Hc1 [Hf1 [Ha1 [Ht1 [m1 Hm1]]]]] [Hc2 [Hf2 [Ha2 [Ht2 [m2 Hm2]]]]].
  split; [lia|]. split; [|split; [lia|split]].
  - intros fid x Hfid Hx. apply Hf1; [assumption|]. apply Hf2; [lia|assumption].
  - intros aid a3 Haid H3.
    destruct (Ht2 aid a3 ltac:(lia) H3) as [a2 [H2 [Hc Hp]]].
    destruct (Ht1 aid a2 Haid H2) as [a1 [H1 [Hc' Hp']]].
    exists a1. split; [assumption|]. split; [congruence|auto].
  - exists (m1 ++ m2). rewrite Hm2, Hm1. now rewrite app_assoc.
Qed.

Lemma keeps_refl (e : t) : keeps e e.
Proof. intros aid a Ht. exists a. auto. Qed.

Lemma keeps_trans (e1 e2 e3 : t) : keeps e1 e2 -> keeps e2 e3 -> keeps e1 e3.
Proof.
  intros H12 H23 aid a1 H1.
  destruct (H12 aid a1 H1) as [a2 [H2 [Hc Hp]]].
  destruct (H23 aid a2 H2) as [a3 [H3 [Hc' Hp']]].
  exists a3. split; [assumption|]. split; [congruence|auto].
Qed.

(** The master lemma: a change of the state keeps the invariant when it
    treats store, activation table and agenda as every operation does and
    accounts for the logical facts it adds. *)
Lemma wf_change (e e' : t) :
  wf e ->
  FactStorage.wf (factStorage e') ->
  evolves e e' ->
  keeps e e' ->
  (forall aid, In aid (map fst (activations e')) -> aid <= activationCounter e') ->
  NoDup (map fst (activations e')) ->
  (forall fid aid,
      FactStorage.factIdCounter (factStorage e) < fid ->
      logically_produced e' fid aid ->
      exists a, tracked e' aid a /\ JSSet.has (produced a) fid = true) ->
  wf e'.
Proof.
  intros [Hs [Ha1 [Ha2 Hc]]] Hs' [_ [Hf _]] Hk Ha1' Ha2' Hnew.
  split; [assumption|]. split; [assumption|]. split; [assumption|].
  intros fid aid Hlp.
  destruct (Nat.le_gt_cases fid (FactStorage.factIdCounter (factStorage e))) as [Hle|Hgt].
  - destruct Hlp as [entry [Hget [Hl Hp]]].
    apply Hf in Hget; [|assumption].
    destruct (Hc fid aid) as [a [Ht Hh]]; [exists entry; auto|].
    destruct (Hk aid a Ht) as [a' [Ht' [_ Hp']]].
    exists a'. split; [assumption|auto].
  - now apply Hnew.
Qed.

(** A change that leaves store and activation table alone. *)
Lemma same_core (e e' : t) :
  factStorage e' = factStorage e ->
  activations e' = activations e ->
  activationCounter e' = activationCounter e ->
  (exists more, agenda e' = agenda e ++ more) ->
  wf e -> ok e e'.
Proof.
  intros Hfs Hact Hcnt Hag Hwf.
  assert (Hev : evolves e e').
  { split; [rewrite Hfs; lia|]. split; [rewrite Hfs; auto|]. split; [lia|]. split; [|assumption].
    intros aid a' _ Ht. unfold tracked in *. rewrite Hact in Ht. exists a'. auto. }
  assert (Hk : keeps e e').
  { intros aid a Ht. unfold tracked in *. rewrite Hact. exists a. auto. }
  split; [|split; assumption].
  destruct Hwf as [Hs [Ha1 [Ha2 Hc]]].
  split; [now rewrite Hfs|]. split; [now rewrite Hact, Hcnt|]. split; [now rewrite Hact|].
  intros fid aid [entry [Hget Hrest]]. rewrite Hfs in Hget.
  destruct (Hc fid aid) as [a [Ht Hh]]; [exists entry; auto|].
  exists a. unfold tracked in *. rewrite Hact. auto.
Qed.

Lemma ok_emit (e : t) (ev : event) : wf e -> ok e (emit e ev).
Proof. apply same_core; try reflexivity. exists []. cbn. now rewrite app_nil_r. Qed.

Lemma ok_emit_all (evs : list event) :
  forall e, wf e -> ok e (emit_all e evs).
Proof.
  induction evs as [|ev evs IH]; intros e Hwf; cbn.
  - split; [assumption|]. split; [apply evolves_refl|apply keeps_refl].
  - destruct (ok_emit e ev Hwf) as [H1 [H2 H3]].
    destruct (IH _ H1) as [H4 [H5 H6]].
    split; [assumption|].
    split; [exact (evolves_trans _ _ _ H2 H5)|exact (keeps_trans _ _ _ H3 H6)].
Qed.

(** A change of the store that adds no logical fact, with the activation
    table left alone. *)
Lemma store_change (e e' : t) :
  wf e ->
  FactStorage.wf (factStorage e') ->
  FactStorage.factIdCounter (factStorage e) <= FactStorage.factIdCounter (factStorage e') ->
  (forall fid x,
      fid <= FactStorage.factIdCounter (factStorage e) ->
      FactStorage.getFactEntry (factStorage e') fid = Some x ->
      FactStorage.getFactEntry (factStorage e) fid = Some x) ->
  (forall fid x,
      FactStorage.factIdCounter (factStorage e) < fid ->
      FactStorage.getFactEntry (factStorage e') fid = Some x ->
      FactStorage.logical (FactStorage.metadata x) = false) ->
  activations e' = activations e ->
  activationCounter e' = activationCounter e ->
  (exists more, agenda e' = agenda e ++ more) ->
  ok e e'.
Proof.
  intros Hwf Hs' Hcnt Hold Hnew Hact Hac Hag.
  assert (Hev : evolves e e').
  { split; [assumption|]. split; [assumption|]. split; [lia|]. split; [|assumption].
    intros aid a' _ Ht. unfold tracked in *. rewrite Hact in Ht. exists a'. auto. }
  assert (Hk : keeps e e').
  { intros aid a Ht. unfold tracked in *. rewrite Hact. exists a. auto. }
  split; [|split; assumption].
  apply (wf_change e e'); try assumption.
  - rewrite Hact, Hac. apply Hwf.
  - rewrite Hact. apply Hwf.
  - intros fid aid Hgt [entry [Hget [Hl _]]].
    rewrite (Hnew fid entry Hgt Hget) in Hl. discriminate.
Qed.

Lemma ok_retractFact (e : t) (id : nat) :
  wf e -> ok e (retractFact e id).
Proof.
  intros Hwf. pose proof Hwf as [Hs _].
  destruct (retract_spec (factStorage e) id Hs) as [Hc [Hr [Hgone [Hback [_ Hs']]]]].
  unfold retractFact.
  destruct (FactStorage.retract (factStorage e) id) as [fs' [entry|]] eqn:R;
    cbn [fst snd] in *.
  - apply store_change; try assumption; cbn; try reflexivity.
    + lia.
    + intros fid x _ Hx. now apply Hback.
    + intros fid x Hgt Hx. apply Hback in Hx.
      destruct Hs as [Hle _].
      assert (fid <= FactStorage.factIdCounter (factStorage e)); [|lia].
      apply Hle. unfold FactStorage.getFactEntry in Hx. now apply get_some_in_keys in Hx.
    + eexists. reflexivity.
  - split; [assumption|]. split; [apply evolves_refl|apply keeps_refl].
Qed.

Lemma ok_refl (e : t) : wf e -> ok e e.
Proof. intros Hwf. split; [assumption|]. split; [apply evolves_refl|apply keeps_refl]. Qed.

Lemma ok_trans (e1 e2 e3 : t) : ok e1 e2 -> ok e2 e3 -> ok e1 e3.
Proof.
  intros [_ [H2 H3]] [H4 [H5 H6]]. split; [assumption|].
  split; [exact (evolves_trans _ _ _ H2 H5)|exact (keeps_trans _ _ _ H3 H6)].
Qed.

Lemma ok_wf (e e' : t) : ok e e' -> wf e'.
Proof. now intros [H _]. Qed.

End EngineSteps.

Section ActionSteps.
Import Engine Inv.
Variable h : Host.
Variable depth : nat.

Lemma assert_cases (st : FactStorage.t) (fact : value) (md : FactStorage.Metadata) :
  FactStorage.assert st fact md = (st, None)
  \/ exists fs kind, fact = VObj fs /\ obj_get fs "type" = VStr kind.
Proof.
  unfold FactStorage.assert. destruct (negb (to_boolean fact)); [now left|].
  destruct (get_prop fact "type") eqn:G; try (now left).
  destruct (get_prop_type_object _ _ G) as [fs [-> Hk]]. right. eauto.
Qed.

(** [assertFact] in full: the state it leaves is fine, and the fact it
    returns has the next identity and is stored with empty metadata. *)
Lemma assertFact_spec (e : t) (factData : fields) :
  wf e -> assertFact_post ok e (assertFact h e factData).
Proof.
  intros Hwf. pose proof Hwf as [Hs _]. unfold assertFact.
  assert (Herr : forall ev, assertFact_post ok e (emit e ev, None)).
  { intros ev. split; [now apply ok_emit|]. split; [reflexivity|]. split; [reflexivity|].
    intros id f Hn. discriminate Hn. }
  destruct (obj_get factData "type"); try apply Herr.
  destruct (is_blank s); [apply Herr|].
  destruct (schema_validate h s factData) as [f'|]; [|apply Herr].
  destruct (assert_cases (factStorage e) (VObj f') FactStorage.no_metadata)
    as [Hrej|[fs [kind [Hf Hk]]]].
  - rewrite Hrej. split; [now apply ok_refl|].
    split; [reflexivity|]. split; [reflexivity|]. intros id f Hn. discriminate Hn.
  - injection Hf as ->.
    destruct (assert_accepts (factStorage e) fs kind FactStorage.no_metadata Hk Hs)
      as [st' [Ha [Hfresh [Hcnt [Hfacts [Hget [_ [_ [Hkeep Hs']]]]]]]]].
    rewrite Ha. unfold assertFact_post. cbn [fst snd FactStorage.fact FactStorage.fact_id].
    split; [|split; [reflexivity|split; [reflexivity|]]].
    + apply store_change; try assumption; cbn; try reflexivity.
      * lia.
      * intros fid x Hle Hx. unfold FactStorage.getFactEntry in *. rewrite Hfacts in Hx.
        rewrite (map_get_set_other _ _ Nat.eqb nat_eqb_eq) in Hx; [assumption|lia].
      * intros fid x Hgt Hx.
        destruct (Nat.eq_dec fid (S (FactStorage.factIdCounter (factStorage e)))) as [->|Hne].
        -- rewrite Hget in Hx. injection Hx as <-. reflexivity.
        -- exfalso. unfold FactStorage.getFactEntry in Hx. rewrite Hfacts in Hx.
           rewrite (map_get_set_other _ _ Nat.eqb nat_eqb_eq) in Hx by congruence.
           apply get_some_in_keys in Hx. destruct Hs as [Hle _]. apply Hle in Hx. lia.
      * eexists. reflexivity.
    + intros id f Hsome. injection Hsome as <- <-.
      split; [reflexivity|]. split; [exact Hcnt|exact Hget].
Qed.

Lemma ok_assertFact (e : t) (factData : fields) :
  wf e -> ok e (fst (assertFact h e factData)).
Proof. intros Hwf. now apply assertFact_spec. Qed.

Lemma ok_modifyFact (e : t) (factId : nat) (updates : fields) :
  wf e -> ok e (modifyFact h e factId updates).
Proof.
  intros Hwf. unfold modifyFact.
  destruct (FactStorage.getFactEntry (factStorage e) factId); [|now apply ok_emit].
  pose proof (ok_retractFact e factId Hwf) as H1.
  eapply ok_trans; [exact H1|]. apply ok_assertFact. now apply ok_wf in H1.
Qed.

Lemma ok_updateFact (e : t) (factId : nat) (updateFn : fields -> value) :
  wf e -> ok e (updateFact h e factId updateFn).
Proof.
  intros Hwf. unfold updateFact.
  destruct (FactStorage.getFactEntry (factStorage e) factId); [|now apply ok_emit].
  destruct (updateFn _); try now apply ok_emit. now apply ok_modifyFact.
Qed.

Lemma ok_fold_retract (ids : list nat) :
  forall e, wf e -> ok e (fold_left retractFact ids e).
Proof.
  induction ids as [|id ids IH]; intros e Hwf; cbn [fold_left]; [now apply ok_refl|].
  pose proof (ok_retractFact e id Hwf) as H1.
  eapply ok_trans; [exact H1|]. apply IH. now apply ok_wf in H1.
Qed.

Lemma ok_retractWhere (e : t) (patternObject : value) :
  wf e -> ok e (fst (retractWhere h depth e patternObject)).
Proof.
  intros Hwf. unfold retractWhere.
  destruct (negb (is_object patternObject)); [now apply ok_emit|].
  destruct (first_key patternObject) as [factType|]; [|now apply ok_emit].
  destruct (String.eqb factType EmptyString); [now apply ok_emit|].
  destruct (negb (is_object (get_prop patternObject factType))); [now apply ok_emit|].
  destruct (fold_left _ _ _) as [ids [ex|]]; cbn [fst]; [now apply ok_refl|].
  now apply ok_fold_retract.
Qed.

Lemma ok_addDefinition (e : t) (d : definition) : wf e -> ok e (addDefinition e d).
Proof.
  intros Hwf. unfold addDefinition. destruct (is_blank (def_id d)); [now apply ok_emit|].
  apply same_core; try reflexivity; [|assumption]. exists []. cbn. now rewrite app_nil_r.
Qed.

Lemma ok_retractDefinition (e : t) (id : string) : wf e -> ok e (fst (retractDefinition e id)).
Proof.
  intros Hwf. unfold retractDefinition.
  destruct (JSMap.has String.eqb (definitions e) id); cbn [fst]; [|now apply ok_emit].
  apply same_core; try reflexivity; [|assumption]. exists []. cbn. now rewrite app_nil_r.
Qed.

Lemma ok_publish (e : t) (topicName payload : value) :
  wf e -> ok e (Run.ctx_publish h e topicName payload).
Proof. intros Hwf. unfold Run.ctx_publish. now apply ok_assertFact. Qed.

End ActionSteps.

Section ContextSteps.
Import Engine Inv.
Variable h : Host.
Variable depth : nat.

(** [context.assertFact] keeps the invariant as long as the activation it
    belongs to is tracked: a fact it marks logical enters the produced set
    of that activation. *)
Lemma ok_ctx_assertFact (aid : nat) (rid : string) (e : t) (factData : fields)
    (isLogical : bool) :
  wf e -> (exists a, tracked e aid a) ->
  ok e (fst (Run.ctx_assertFact h aid rid e factData isLogical)).
Proof.
  intros Hwf [a Ha]. unfold Run.ctx_assertFact.
  destruct (assertFact_spec h e factData Hwf) as [Hok1 [Hact1 [Hcnt1 Hret]]].
  destruct (assertFact h e factData) as [e1 [[id f]|]] eqn:A; cbn [fst snd] in *;
    [|exact Hok1].
  destruct (Hret id f eq_refl) as [Hid [Hc1 Hget1]]. clear Hret.
  destruct Hok1 as [Hwf1 [Hev1 Hk1]].
  pose proof Hwf1 as [Hs1 [Ha1 [Hnd1 Hprov1]]].
  pose proof Hwf as [Hs [Ha0 [Hnd0 Hprov0]]].
  rewrite Hget1.
  set (md := {| FactStorage.logical := true; FactStorage.producedBy := Some aid |}).
  set (e2 := if isLogical
             then with_storage e1 (FactStorage.set_metadata (factStorage e1) id md)
             else e1).
  assert (Hact2 : activations e2 = activations e) by (unfold e2; now destruct isLogical).
  assert (Ht2 : JSMap.get Nat.eqb (activations e2) aid = Some a) by (now rewrite Hact2).
  rewrite Ht2.
  set (a' := {| ruleId := ruleId a; consumed := consumed a;
                produced := JSSet.add (produced a) id |}).
  set (e3 := with_activations e2 (JSMap.set Nat.eqb (activations e2) aid a')).
  (* the components of the final state *)
  assert (Hfs : factStorage e3 = if isLogical
                                 then FactStorage.set_metadata (factStorage e1) id md
                                 else factStorage e1)
    by (unfold e3, e2; now destruct isLogical).
  assert (Hag : agenda e3 = agenda e1) by (unfold e3, e2; now destruct isLogical).
  assert (Hac : activationCounter e3 = activationCounter e)
    by (unfold e3, e2; destruct isLogical; cbn; assumption).
  assert (Hacts : activations e3 = JSMap.set Nat.eqb (activations e) aid a')
    by (unfold e3; cbn; now rewrite Hact2).
  destruct (set_metadata_spec (factStorage e1) id md Hs1)
    as [Hmc [Hmo [Hmi Hmw]]].
  assert (Hcnt3 : FactStorage.factIdCounter (factStorage e3) = id).
  { rewrite Hfs. destruct isLogical; [now rewrite Hmc|assumption]. }
  assert (Hother : forall fid, fid <> id ->
            FactStorage.getFactEntry (factStorage e3) fid
            = FactStorage.getFactEntry (factStorage e1) fid).
  { intros fid Hne. rewrite Hfs. destruct isLogical; [now apply Hmo|reflexivity]. }
  assert (Hs3 : FactStorage.wf (factStorage e3)).
  { rewrite Hfs. now destruct isLogical. }
  assert (Hkeys : map fst (activations e3) = map fst (activations e)).
  { rewrite Hacts. now apply set_keys_existing with (v := a). }
  assert (Hev : evolves e e3).
  { destruct Hev1 as [Hc [Hf [Hcc [Hta [more Hm]]]]].
    split; [lia|]. split; [|split; [lia|split]].
    - intros fid x Hle Hx. rewrite Hother in Hx by lia. now apply Hf.
    - intros aid0 a0 _ Ht0. unfold tracked in *. rewrite Hacts in Ht0.
      destruct (Nat.eq_dec aid aid0) as [<-|Hne].
      + rewrite (map_get_set_same _ _ Nat.eqb nat_eqb_eq) in Ht0. injection Ht0 as <-.
        exists a. split; [assumption|]. split; [reflexivity|].
        intros g Hg. now apply set_has_add_mono.
      + rewrite (map_get_set_other _ _ Nat.eqb nat_eqb_eq) in Ht0 by assumption.
        exists a0. auto.
    - exists more. now rewrite Hag. }
  assert (Hk : keeps e e3).
  { intros aid0 a0 Ht0. unfold tracked in *. rewrite Hacts.
    destruct (Nat.eq_dec aid aid0) as [<-|Hne].
    - rewrite (map_get_set_same _ _ Nat.eqb nat_eqb_eq).
      assert (a0 = a) by congruence. subst a0.
      exists a'. split; [reflexivity|]. split; [reflexivity|].
      intros g Hg. now apply set_has_add_mono.
    - rewrite (map_get_set_other _ _ Nat.eqb nat_eqb_eq) by assumption.
      exists a0. auto. }
  assert (Hwf3 : wf e3).
  { apply (wf_change e e3); try assumption.
    - rewrite Hkeys, Hac. exact Ha0.
    - now rewrite Hkeys.
    - intros fid aid0 Hgt [entry [Hget [Hl Hp]]].
      assert (fid = id).
      { destruct (Nat.eq_dec fid id) as [|Hne]; [assumption|].
        rewrite Hother in Hget by assumption.
        unfold FactStorage.getFactEntry in Hget. apply get_some_in_keys in Hget.
        destruct Hs1 as [Hle1 _]. apply Hle1 in Hget. lia. }
      subst fid. rewrite Hfs in Hget. destruct isLogical.
      + destruct (Hmi entry Hget) as [x0 [_ Hmd]]. rewrite Hmd in Hp. cbn in Hp.
        injection Hp as Hp. subst aid0. exists a'. unfold tracked. rewrite Hacts.
        split; [apply (map_get_set_same _ _ Nat.eqb nat_eqb_eq)|].
        apply set_has_add_same.
      + rewrite Hget1 in Hget. injection Hget as <-. discriminate Hl. }
  cbn [fst].
  assert (Hok3 : ok e e3) by (split; [assumption|split; assumption]).
  eapply ok_trans; [exact Hok3|].
  eapply ok_trans; [apply ok_emit; exact Hwf3|].
  apply ok_emit. apply ok_emit. exact Hwf3.
Qed.

(** Every call an action makes on its context keeps the invariant, and the
    activation stays tracked. *)
Lemma ok_run_action (a : action) (aid : nat) (rid : string) :
  forall e, wf e -> (exists x, tracked e aid x) ->
            ok e (fst (Run.run_action h depth a aid rid e)).
Proof.
  assert (Hstill : forall e e', ok e e' -> (exists x, tracked e aid x) ->
                                exists x, tracked e' aid x).
  { intros e e' [_ [_ Hk]] [x Hx]. destruct (Hk aid x Hx) as [x' [Hx' _]]. eauto. }
  induction a as [|name|factData isLogical k IH|factId updates k IH|factId updateFn k IH
                  |patternObject k IH|topicName payload k IH|r k IH|ruleId k IH];
    intros e Hwf Htr; cbn [Run.run_action].
  - now apply ok_refl.
  - now apply ok_refl.
  - pose proof (ok_ctx_assertFact aid rid e factData isLogical Hwf Htr) as H1.
    destruct (Run.ctx_assertFact h aid rid e factData isLogical) as [e1 r]. cbn [fst] in H1.
    eapply ok_trans; [exact H1|]. apply IH; [now apply ok_wf in H1|eauto].
  - pose proof (ok_modifyFact h e factId updates Hwf) as H1.
    eapply ok_trans; [exact H1|]. apply IH; [now apply ok_wf in H1|eauto].
  - pose proof (ok_updateFact h e factId updateFn Hwf) as H1.
    eapply ok_trans; [exact H1|]. apply IH; [now apply ok_wf in H1|eauto].
  - pose proof (ok_retractWhere h depth e patternObject Hwf) as H1.
    destruct (retractWhere h depth e patternObject) as [e1 [ex|]]; cbn [fst] in *;
      [exact H1|].
    eapply ok_trans; [exact H1|]. apply IH; [now apply ok_wf in H1|eauto].
  - pose proof (ok_publish h e topicName payload Hwf) as H1.
    eapply ok_trans; [exact H1|]. apply IH; [now apply ok_wf in H1|eauto].
  - pose proof (ok_addDefinition e (DRule r) Hwf) as H1.
    eapply ok_trans; [exact H1|]. apply IH; [now apply ok_wf in H1|eauto].
  - pose proof (ok_retractDefinition e ruleId Hwf) as H1.
    destruct (retractDefinition e ruleId) as [e1 b]. cbn [fst] in H1.
    eapply ok_trans; [exact H1|]. apply IH; [now apply ok_wf in H1|eauto].
Qed.

End ContextSteps.

(** ** Truth maintenance *)

Section TruthMaintenance.
Import Engine Inv.

Lemma appends_retracts_refl (e : t) : appends_retracts e e.
Proof. exists []. split; [now rewrite app_nil_r|intros ? []]. Qed.

Lemma appends_retracts_trans (e1 e2 e3 : t) :
  appends_retracts e1 e2 -> appends_retracts e2 e3 -> appends_retracts e1 e3.
Proof.
  intros [m1 [H1 T1]] [m2 [H2 T2]]. exists (m1 ++ m2).
  split; [rewrite H2, H1; now rewrite app_assoc|].
  intros task Hin. apply in_app_or in Hin. destruct Hin; auto.
Qed.

Lemma pending_mono (e e' : t) (r : nat) :
  (exists more, agenda e' = agenda e ++ more) -> pending_retract e r -> pending_retract e' r.
Proof.
  intros [more Hm] [task [Hin Ht]]. exists task. split; [|assumption].
  rewrite Hm. apply in_or_app. now left.
Qed.

(** [retractFact] on an identity the store resolves: the entry is gone, the
    other entries are as they were, a retract task is appended. *)
Lemma retractFact_spec (e : t) (id : nat) (entry : FactStorage.FactEntry) :
  wf e ->
  FactStorage.getFactEntry (factStorage e) id = Some entry ->
  FactStorage.fact_id entry = id ->
  FactStorage.getFactEntry (factStorage (retractFact e id)) id = None
  /\ (forall id', id' <> id ->
        FactStorage.getFactEntry (factStorage (retractFact e id)) id'
        = FactStorage.getFactEntry (factStorage e) id')
  /\ activations (retractFact e id) = activations e
  /\ activationCounter (retractFact e id) = activationCounter e
  /\ agenda (retractFact e id)
     = agenda e ++ [{| Agenda.task_type_of := Agenda.TRetract;
                       Agenda.task_fact := FactStorage.fact entry;
                       Agenda.task_fact_id := id |}]
  /\ FactStorage.factIdCounter (factStorage (retractFact e id))
     = FactStorage.factIdCounter (factStorage e).
Proof.
  intros [Hs _] Hget Hid.
  destruct (retract_spec (factStorage e) id Hs) as [Hcn [Hr [Hgone [_ [Hother _]]]]].
  unfold retractFact.
  destruct (FactStorage.retract (factStorage e) id) as [fs' [entry'|]] eqn:R;
    cbn [fst snd] in *; [|congruence].
  assert (entry' = entry) by congruence. subst entry'.
  cbn. rewrite Hid. repeat (split; [auto|]). exact Hcn.
Qed.

Lemma retractFact_absent (e : t) (id : nat) :
  FactStorage.getFactEntry (factStorage e) id = None -> retractFact e id = e.
Proof.
  intros Hget. unfold retractFact, FactStorage.retract.
  unfold FactStorage.getFactEntry in Hget. now rewrite Hget.
Qed.

Lemma ids_agree (e : t) (id : nat) (entry : FactStorage.FactEntry) :
  wf e ->
  FactStorage.getFactEntry (factStorage e) id = Some entry ->
  FactStorage.fact_id entry = id.
Proof. intros [[_ [_ Hids]] _]. apply Hids. Qed.

Variable r : nat.

(** One turn of the inner loop. *)
Lemma retract_produced_spec (aid : nat) (act : TrackedActivation) (e : t) (fid : nat) :
  wf e ->
  let e' := Run.retract_produced aid act r e fid in
  ok e e'
  /\ activations e' = activations e
  /\ activationCounter e' = activationCounter e
  /\ appends_retracts e e'
  /\ (logically_produced e fid aid ->
      FactStorage.getFactEntry (factStorage e') fid = None /\ pending_retract e' fid)
  /\ (forall fid', fid' <> fid ->
        FactStorage.getFactEntry (factStorage e') fid'
        = FactStorage.getFactEntry (factStorage e) fid')
  /\ (~ logically_produced e fid aid -> factStorage e' = factStorage e)
  /\ FactStorage.factIdCounter (factStorage e') = FactStorage.factIdCounter (factStorage e).
Proof.
  intros Hwf. unfold Run.retract_produced.
  assert (Hsame : ok e e /\ activations e = activations e
                  /\ activationCounter e = activationCounter e /\ appends_retracts e e).
  { split; [now apply ok_refl|]. split; [reflexivity|].
    split; [reflexivity|apply appends_retracts_refl]. }
  destruct (FactStorage.getFactEntry (factStorage e) fid) as [entry|] eqn:G.
  - destruct (FactStorage.logical (FactStorage.metadata entry)) eqn:L; cbn [andb].
    + destruct (FactStorage.producedBy (FactStorage.metadata entry)) as [p|] eqn:P.
      * destruct (Nat.eqb p aid) eqn:E.
        -- apply Nat.eqb_eq in E. subst p.
           set (e1 := emit e _).
           assert (Hwf1 : wf e1) by (apply ok_emit; assumption).
           assert (Hget1 : FactStorage.getFactEntry (factStorage e1) fid = Some entry)
             by exact G.
           destruct (retractFact_spec e1 fid entry Hwf1 Hget1 (ids_agree e fid entry Hwf G))
             as [Hgone [Hother [Hact [Hcnt [Hag Hfc]]]]].
           split; [|split; [|split; [|split; [|split; [|split; [|split]]]]]].
           ++ eapply ok_trans; [apply ok_emit; exact Hwf|]. now apply ok_retractFact.
           ++ exact Hact.
           ++ exact Hcnt.
           ++ eexists. split; [exact Hag|]. intros task [<-|[]]. reflexivity.
           ++ intros _. split; [exact Hgone|].
              eexists. split; [rewrite Hag; apply in_or_app; right; now left|].
              split; reflexivity.
           ++ exact Hother.
           ++ intros Hn. exfalso. apply Hn. exists entry. auto.
           ++ exact Hfc.
        -- destruct Hsame as [H1 [H2 [H3 H4]]].
           repeat (split; [assumption|]). split; [|split; [reflexivity|split; reflexivity]].
           intros [x [Hx [_ Hp]]]. assert (x = entry) by congruence. subst x.
           rewrite P in Hp. injection Hp as ->. rewrite Nat.eqb_refl in E. discriminate.
      * destruct Hsame as [H1 [H2 [H3 H4]]].
        repeat (split; [assumption|]). split; [|split; [reflexivity|split; reflexivity]].
        intros [x [Hx [_ Hp]]]. congruence.
    + destruct Hsame as [H1 [H2 [H3 H4]]].
      repeat (split; [assumption|]). split; [|split; [reflexivity|split; reflexivity]].
      intros [x [Hx [Hl _]]]. congruence.
  - destruct Hsame as [H1 [H2 [H3 H4]]].
    repeat (split; [assumption|]). split; [|split; [reflexivity|split; reflexivity]].
    intros [x [Hx _]]. congruence.
Qed.

End TruthMaintenance.

Section TruthMaintenanceLoop.
Import Engine Inv.
Variable r : nat.

Lemma logically_produced_back (e e' : t) (fid aid : nat) :
  wf e -> evolves e e' ->
  fid <= FactStorage.factIdCounter (factStorage e) ->
  logically_produced e' fid aid -> logically_produced e fid aid.
Proof.
  intros _ [_ [Hf _]] Hle [entry [Hget Hrest]].
  exists entry. split; [now apply Hf|assumption].
Qed.

Lemma stays_gone (e e' : t) (fid : nat) :
  evolves e e' ->
  fid <= FactStorage.factIdCounter (factStorage e) ->
  FactStorage.getFactEntry (factStorage e) fid = None ->
  FactStorage.getFactEntry (factStorage e') fid = None.
Proof.
  intros [_ [Hf _]] Hle Hnone.
  destruct (FactStorage.getFactEntry (factStorage e') fid) as [x|] eqn:G; [|reflexivity].
  apply Hf in G; [congruence|assumption].
Qed.

Lemma stored_below_counter (e : t) (fid : nat) (x : FactStorage.FactEntry) :
  wf e -> FactStorage.getFactEntry (factStorage e) fid = Some x ->
  fid <= FactStorage.factIdCounter (factStorage e).
Proof.
  intros [[Hle _] _] Hget. apply Hle.
  unfold FactStorage.getFactEntry in Hget. now apply get_some_in_keys in Hget.
Qed.

(** The inner loop over a produced set. *)
Lemma retract_all_produced (aid : nat) (act : TrackedActivation) (l : list nat) :
  forall e,
    wf e ->
    let e' := fold_left (Run.retract_produced aid act r) l e in
    ok e e'
    /\ activations e' = activations e
    /\ activationCounter e' = activationCounter e
    /\ appends_retracts e e'
    /\ (forall fid, In fid l -> logically_produced e fid aid ->
          FactStorage.getFactEntry (factStorage e') fid = None /\ pending_retract e' fid)
    /\ (forall fid x, ~ logically_produced e fid aid ->
          FactStorage.getFactEntry (factStorage e) fid = Some x ->
          FactStorage.getFactEntry (factStorage e') fid = Some x)
    /\ FactStorage.factIdCounter (factStorage e') = FactStorage.factIdCounter (factStorage e).
Proof.
  induction l as [|fid l IH]; intros e Hwf; cbn [fold_left].
  - split; [now apply ok_refl|]. split; [reflexivity|]. split; [reflexivity|].
    split; [apply appends_retracts_refl|]. split; [intros ? []|auto].
  - destruct (retract_produced_spec r aid act e fid Hwf)
      as [Hok1 [Hact1 [Hcnt1 [Happ1 [Hrm1 [Hoth1 [Hsame1 Hfc1]]]]]]].
    set (e1 := Run.retract_produced aid act r e fid) in *.
    pose proof (ok_wf _ _ Hok1) as Hwf1.
    destruct (IH e1 Hwf1) as [Hok2 [Hact2 [Hcnt2 [Happ2 [Hrm2 [Hkeep2 Hfc2]]]]]].
    set (e2 := fold_left (Run.retract_produced aid act r) l e1) in *.
    split; [exact (ok_trans _ _ _ Hok1 Hok2)|].
    split; [congruence|]. split; [congruence|].
    split; [exact (appends_retracts_trans _ _ _ Happ1 Happ2)|].
    split; [|split; [|congruence]].
    + intros fid' Hin Hlp.
      assert (Hle : fid' <= FactStorage.factIdCounter (factStorage e)).
      { destruct Hlp as [x [Hx _]]. eapply stored_below_counter; eauto. }
      destruct (Nat.eq_dec fid' fid) as [->|Hne].
      * destruct (Hrm1 Hlp) as [Hgone Hpend]. split.
        -- apply (stays_gone e1 e2); [apply Hok2| |assumption].
           destruct Hok1 as [_ [[Hc _] _]]. lia.
        -- apply (pending_mono e1 e2); [|assumption].
           destruct Happ2 as [more [Hm _]]. eauto.
      * destruct Hin as [Heq|Hin]; [congruence|].
        apply Hrm2; [assumption|].
        destruct Hlp as [x [Hx Hrest]]. exists x. split; [|assumption].
        now rewrite Hoth1.
    + intros fid' x Hn Hx.
      apply Hkeep2.
      * intros Hlp. apply Hn.
        apply (logically_produced_back e e1); try assumption; [apply Hok1|].
        eapply stored_below_counter; eauto.
      * destruct (Nat.eq_dec fid' fid) as [->|Hne].
        -- rewrite (Hsame1 Hn). assumption.
        -- now rewrite Hoth1.
Qed.

Lemma delete_absent (V : Type) (m : JSMap.t nat V) (k : nat) :
  JSMap.get Nat.eqb m k = None -> JSMap.delete Nat.eqb m k = m.
Proof.
  induction m as [|[k0 v0] m IH]; simpl; [reflexivity|].
  destruct (Nat.eqb k0 k); [discriminate|]. intros H. now rewrite IH.
Qed.

(** The outer loop body: an invalid activation is dropped after the facts
    it logically produced are retracted. *)
Lemma invalidate_spec (e : t) (aid : nat) :
  wf e ->
  let e' := Run.invalidate r e aid in
  wf e'
  /\ evolves e e'
  /\ activations e' = JSMap.delete Nat.eqb (activations e) aid
  /\ activationCounter e' = activationCounter e
  /\ appends_retracts e e'
  /\ (forall a fid, tracked e aid a -> In fid (produced a) -> logically_produced e fid aid ->
        FactStorage.getFactEntry (factStorage e') fid = None /\ pending_retract e' fid)
  /\ (forall fid x, ~ logically_produced e fid aid ->
        FactStorage.getFactEntry (factStorage e) fid = Some x ->
        FactStorage.getFactEntry (factStorage e') fid = Some x).
Proof.
  intros Hwf. unfold Run.invalidate.
  destruct (JSMap.get Nat.eqb (activations e) aid) as [act|] eqn:G.
  - set (e1 := emit e _).
    assert (Hok01 : ok e e1) by (now apply ok_emit).
    pose proof (ok_wf _ _ Hok01) as Hwf1.
    destruct (retract_all_produced aid act (produced act) e1 Hwf1)
      as [Hok2 [Hact2 [Hcnt2 [Happ2 [Hrm2 [Hkeep2 Hfc2]]]]]].
    set (e2 := fold_left (Run.retract_produced aid act r) (produced act) e1) in *.
    pose proof (ok_trans _ _ _ Hok01 Hok2) as [Hwf2 [Hev2 Hk2]].
    assert (Hacts : activations e2 = activations e) by (rewrite Hact2; reflexivity).
    cbn [activations with_activations activationCounter factStorage agenda].
    split; [|split; [|split; [|split; [|split; [|split]]]]].
    + (* the invariant *)
      destruct Hwf2 as [Hs2 [Ha2 [Hnd2 Hprov2]]].
      split; [exact Hs2|]. split; [|split]; cbn [activations with_activations activationCounter].
      * intros x Hx. apply delete_keys_incl in Hx. auto.
      * now apply delete_keys_NoDup.
      * intros fid aid0 Hlp.
        assert (Hlp2 : logically_produced e2 fid aid0) by exact Hlp.
        destruct (Hprov2 fid aid0 Hlp2) as [a0 [Ht0 Hh0]].
        destruct (Nat.eq_dec aid aid0) as [<-|Hne].
        -- exfalso. unfold tracked in Ht0. rewrite Hacts in Ht0.
           assert (a0 = act) by congruence. subst a0.
           assert (Hin : In fid (produced act)).
           { unfold JSSet.has in Hh0. apply existsb_exists in Hh0.
             destruct Hh0 as [y [Hy Hey]]. apply Nat.eqb_eq in Hey. now subst. }
           assert (Hle : fid <= FactStorage.factIdCounter (factStorage e1)).
           { destruct Hlp2 as [x [Hx _]]. rewrite <- Hfc2.
             apply (stored_below_counter e2 fid x); [|exact Hx].
             unfold wf. auto. }
           assert (Hlp1 : logically_produced e1 fid aid).
           { apply (logically_produced_back e1 e2); try assumption; apply Hok2. }
           destruct (Hrm2 fid Hin Hlp1) as [Hgone _].
           destruct Hlp2 as [x [Hx _]]. congruence.
        -- exists a0. split; [|assumption]. unfold tracked in *.
           cbn [activations with_activations].
           now rewrite (map_get_delete_other _ _ Nat.eqb nat_eqb_eq).
    + (* evolution *)
      destruct Hev2 as [Hc [Hf [Hcc [Hta [more Hm]]]]].
      split; [exact Hc|]. split; [exact Hf|]. split; [exact Hcc|]. split; [|eauto].
      intros aid0 a' Hle Ht. unfold tracked in Ht. cbn [activations with_activations] in Ht.
      apply delete_get_back in Ht; [|apply Hwf2]. destruct Ht as [Ht _].
      now apply Hta.
    + now rewrite Hacts.
    + now rewrite Hcnt2.
    + destruct Happ2 as [more [Hm Ht]]. exists more. split; [exact Hm|exact Ht].
    + intros a fid Ht Hin Hlp. unfold tracked in Ht. assert (a = act) by congruence. subst a.
      apply Hrm2; [assumption|exact Hlp].
    + intros fid x Hn Hx. apply Hkeep2; [exact Hn|exact Hx].
  - split; [assumption|]. split; [apply evolves_refl|].
    split; [now rewrite delete_absent|]. split; [reflexivity|].
    split; [apply appends_retracts_refl|]. split; [|auto].
    intros a fid Ht. unfold tracked in Ht. congruence.
Qed.

End TruthMaintenanceLoop.

Section TruthMaintenanceWhole.
Import Engine Inv.
Variable r : nat.

Lemma get_of_in (V : Type) (m : JSMap.t nat V) (k : nat) (v : V) :
  NoDup (map fst m) -> In (k, v) m -> JSMap.get Nat.eqb m k = Some v.
Proof.
  induction m as [|[k0 v0] m IH]; simpl; intros Hnd Hin; [contradiction|].
  inversion Hnd as [|? ? Hnotin Hnd']; subst.
  destruct Hin as [Heq|Hin].
  - injection Heq as -> ->. now rewrite Nat.eqb_refl.
  - destruct (Nat.eqb k0 k) eqn:E; [|now apply IH].
    apply Nat.eqb_eq in E. subst k0. exfalso. apply Hnotin.
    apply in_map_iff. exists (k, v). auto.
Qed.

Lemma fold_delete_get (V : Type) (ids : list nat) :
  forall (m : JSMap.t nat V) (k : nat),
    NoDup (map fst m) ->
    JSMap.get Nat.eqb (fold_left (fun m' i => JSMap.delete Nat.eqb m' i) ids m) k
    = if existsb (Nat.eqb k) ids then None else JSMap.get Nat.eqb m k.
Proof.
  induction ids as [|i ids IH]; intros m k Hnd; cbn [fold_left existsb]; [reflexivity|].
  rewrite IH by (now apply delete_keys_NoDup).
  destruct (Nat.eqb k i) eqn:E; cbn [orb].
  - apply Nat.eqb_eq in E. subst i.
    rewrite (map_get_delete_same _ _ Nat.eqb nat_eqb_eq) by assumption.
    now destruct (existsb (Nat.eqb k) ids).
  - rewrite (map_get_delete_other _ _ Nat.eqb nat_eqb_eq); [reflexivity|].
    intros ->. now rewrite Nat.eqb_refl in E.
Qed.

Lemma invalid_iff (e : t) (aid : nat) :
  wf e ->
  (In aid (Run.invalidActivations e r)
   <-> exists a, tracked e aid a /\ JSSet.has (consumed a) r = true).
Proof.
  intros [_ [_ [Hnd _]]]. unfold Run.invalidActivations, tracked. split.
  - intros Hin. apply in_map_iff in Hin. destruct Hin as [[k a] [Hk Hin]]. cbn in Hk. subst k.
    apply filter_In in Hin. destruct Hin as [Hin Hc]. exists a. split; [|exact Hc].
    now apply get_of_in.
  - intros [a [Ht Hc]]. apply in_map_iff. exists (aid, a). split; [reflexivity|].
    apply filter_In. split; [|exact Hc].
    now apply (map_get_some_in _ _ Nat.eqb nat_eqb_eq).
Qed.

Lemma produced_by_one (e : t) (fid aid aid' : nat) :
  logically_produced e fid aid -> logically_produced e fid aid' -> aid = aid'.
Proof. intros [x [Hx [_ Hp]]] [y [Hy [_ Hq]]]. congruence. Qed.

(** The outer loop over the invalid activations. *)
Lemma invalidate_all (ids : list nat) :
  forall e,
    wf e ->
    let e' := fold_left (Run.invalidate r) ids e in
    wf e'
    /\ evolves e e'
    /\ activations e'
       = fold_left (fun m i => JSMap.delete Nat.eqb m i) ids (activations e)
    /\ activationCounter e' = activationCounter e
    /\ appends_retracts e e'
    /\ (forall aid a fid,
          In aid ids -> tracked e aid a -> In fid (produced a) ->
          logically_produced e fid aid ->
          FactStorage.getFactEntry (factStorage e') fid = None /\ pending_retract e' fid)
    /\ (forall fid x,
          (forall aid, In aid ids -> ~ logically_produced e fid aid) ->
          FactStorage.getFactEntry (factStorage e) fid = Some x ->
          FactStorage.getFactEntry (factStorage e') fid = Some x).
Proof.
  induction ids as [|i ids IH]; intros e Hwf; cbn [fold_left].
  - split; [assumption|]. split; [apply evolves_refl|]. split; [reflexivity|].
    split; [reflexivity|]. split; [apply appends_retracts_refl|].
    split; [intros ? ? ? []|auto].
  - destruct (invalidate_spec r e i Hwf)
      as [Hwf1 [Hev1 [Hact1 [Hcnt1 [Happ1 [Hrm1 Hkeep1]]]]]].
    set (e1 := Run.invalidate r e i) in *.
    destruct (IH e1 Hwf1) as [Hwf2 [Hev2 [Hact2 [Hcnt2 [Happ2 [Hrm2 Hkeep2]]]]]].
    set (e2 := fold_left (Run.invalidate r) ids e1) in *.
    split; [assumption|]. split; [exact (evolves_trans _ _ _ Hev1 Hev2)|].
    split; [now rewrite Hact2, Hact1|]. split; [congruence|].
    split; [exact (appends_retracts_trans _ _ _ Happ1 Happ2)|]. split.
    + intros aid a fid Hin Ht Hp Hlp.
      assert (Hle : fid <= FactStorage.factIdCounter (factStorage e)).
      { destruct Hlp as [x [Hx _]]. eapply stored_below_counter; eauto. }
      destruct (Nat.eq_dec aid i) as [->|Hne].
      * destruct (Hrm1 a fid Ht Hp Hlp) as [Hgone Hpend]. split.
        -- apply (stays_gone e1 e2); [assumption| |assumption].
           destruct Hev1 as [Hc _]. lia.
        -- apply (pending_mono e1 e2); [|assumption].
           destruct Happ2 as [more [Hm _]]. eauto.
      * destruct Hin as [Heq|Hin]; [congruence|].
        apply (Hrm2 aid a fid Hin); [|assumption|].
        -- unfold tracked in *. rewrite Hact1.
           now rewrite (map_get_delete_other _ _ Nat.eqb nat_eqb_eq) by congruence.
        -- destruct Hlp as [x [Hx Hrest]]. exists x. split; [|assumption].
           apply Hkeep1; [|assumption].
           intros Hi. apply Hne.
           apply (produced_by_one e fid aid i); [exists x; auto|assumption].
    + intros fid x Hn Hx. apply Hkeep2.
      * intros aid Hin Hlp. apply (Hn aid); [now right|].
        apply (logically_produced_back e e1); try assumption.
        eapply stored_below_counter; eauto.
      * apply Hkeep1; [|assumption]. apply Hn. now left.
Qed.

(** [#truthMaintenance], as a whole. *)
Lemma truthMaintenance_spec (e : t) :
  wf e ->
  let e' := Run.truthMaintenance e r in
  wf e'
  /\ evolves e e'
  /\ (forall aid a, tracked e' aid a -> JSSet.has (consumed a) r = false)
  /\ (forall aid a, tracked e aid a -> JSSet.has (consumed a) r = true ->
        JSMap.get Nat.eqb (activations e') aid = None)
  /\ (forall aid a, tracked e aid a -> JSSet.has (consumed a) r = false -> tracked e' aid a)
  /\ (forall aid a fid,
        tracked e aid a -> JSSet.has (consumed a) r = true -> In fid (produced a) ->
        logically_produced e fid aid ->
        FactStorage.getFactEntry (factStorage e') fid = None /\ pending_retract e' fid)
  /\ (forall fid x,
        FactStorage.getFactEntry (factStorage e) fid = Some x ->
        (forall aid a, tracked e aid a -> JSSet.has (consumed a) r = true ->
                       ~ logically_produced e fid aid) ->
        FactStorage.getFactEntry (factStorage e') fid = Some x)
  /\ appends_retracts e e'.
Proof.
  intros Hwf. unfold Run.truthMaintenance.
  set (ids := Run.invalidActivations e r).
  set (e0 := if 0 <? List.length ids
             then emit e (tms_processingStarted r (List.length ids)) else e).
  assert (Hok0 : ok e e0) by (unfold e0; destruct (0 <? _); [now apply ok_emit|now apply ok_refl]).
  assert (Hfs0 : factStorage e0 = factStorage e) by (unfold e0; now destruct (0 <? _)).
  assert (Hact0 : activations e0 = activations e) by (unfold e0; now destruct (0 <? _)).
  assert (Hag0 : agenda e0 = agenda e) by (unfold e0; now destruct (0 <? _)).
  pose proof (ok_wf _ _ Hok0) as Hwf0.
  destruct (invalidate_all ids e0 Hwf0) as [Hwf' [Hev' [Hact' [Hcnt' [Happ' [Hrm' Hkeep']]]]]].
  set (e' := fold_left (Run.invalidate r) ids e0) in *.
  assert (Hnd : NoDup (map fst (activations e))) by apply Hwf.
  assert (Hget : forall aid,
            JSMap.get Nat.eqb (activations e') aid
            = if existsb (Nat.eqb aid) ids then None
              else JSMap.get Nat.eqb (activations e) aid).
  { intros aid. rewrite Hact', Hact0. now apply fold_delete_get. }
  assert (Hmem : forall aid, existsb (Nat.eqb aid) ids = true <-> In aid ids).
  { intros aid. rewrite existsb_exists. split.
    - intros [x [Hx Hex]]. apply Nat.eqb_eq in Hex. now subst.
    - intros Hin. exists aid. split; [assumption|apply Nat.eqb_refl]. }
  split; [assumption|]. split; [exact (evolves_trans _ _ _ (proj1 (proj2 Hok0)) Hev')|].
  split; [|split; [|split; [|split; [|split]]]].
  - intros aid a Ht. unfold tracked in Ht. rewrite Hget in Ht.
    destruct (existsb (Nat.eqb aid) ids) eqn:E; [discriminate|].
    destruct (JSSet.has (consumed a) r) eqn:C; [|reflexivity].
    assert (In aid ids) by (apply invalid_iff; [assumption|exists a; auto]).
    apply Hmem in H. congruence.
  - intros aid a Ht Hc. rewrite Hget.
    assert (Hin : In aid ids) by (apply invalid_iff; [assumption|exists a; auto]).
    apply Hmem in Hin. now rewrite Hin.
  - intros aid a Ht Hc. unfold tracked. rewrite Hget.
    destruct (existsb (Nat.eqb aid) ids) eqn:E; [|exact Ht].
    apply Hmem in E. apply invalid_iff in E; [|assumption].
    destruct E as [a0 [Ht0 Hc0]]. unfold tracked in *. congruence.
  - intros aid a fid Ht Hc Hp Hlp.
    apply (Hrm' aid a fid).
    + apply invalid_iff; [assumption|exists a; auto].
    + unfold tracked in *. now rewrite Hact0.
    + assumption.
    + destruct Hlp as [x Hx]. exists x. now rewrite Hfs0.
  - intros fid x Hx Hn. apply Hkeep'; [|now rewrite Hfs0].
    intros aid Hin Hlp. apply invalid_iff in Hin; [|assumption].
    destruct Hin as [a [Ht Hc]]. apply (Hn aid a Ht Hc).
    destruct Hlp as [y Hy]. exists y. now rewrite <- Hfs0.
  - destruct Happ' as [more [Hm Ht]]. exists more. split; [now rewrite Hm, Hag0|exact Ht].
Qed.

End TruthMaintenanceWhole.

(** ** The run loop *)

Section RunLoop.
Import Engine Inv.
Variable h : Host.
Variable depth : nat.

(** Tracking a new activation under the next identity. *)
Lemma ok_track (e : t) (x : TrackedActivation) :
  wf e ->
  let aid := S (activationCounter e) in
  let e' := with_activations (with_activationCounter e aid)
              (JSMap.set Nat.eqb (activations e) aid x) in
  ok e e' /\ tracked e' aid x.
Proof.
  intros Hwf aid e'. pose proof Hwf as [Hs [Ha1 [Hnd Hprov]]].
  assert (Hfresh : ~ In aid (map fst (activations e))).
  { intros Hin. apply Ha1 in Hin. unfold aid in Hin. lia. }
  assert (Hkeys : map fst (activations e') = map fst (activations e) ++ [aid]).
  { unfold e'. cbn [activations with_activations]. now apply keys_set_fresh. }
  assert (Hold : forall k, k <> aid ->
            JSMap.get Nat.eqb (activations e') k = JSMap.get Nat.eqb (activations e) k).
  { intros k Hk. unfold e'. cbn [activations with_activations].
    apply (map_get_set_other _ _ Nat.eqb nat_eqb_eq). congruence. }
  assert (Hev : evolves e e').
  { split; [cbn; lia|]. split; [auto|]. split; [cbn; lia|]. split.
    - intros k a' Hle Ht. unfold tracked in *. rewrite Hold in Ht by (unfold aid; lia).
      exists a'. auto.
    - exists []. cbn. now rewrite app_nil_r. }
  assert (Hk : keeps e e').
  { intros k a Ht. unfold tracked in *. exists a. split; [|auto].
    rewrite Hold; [assumption|]. intros ->. apply Hfresh. now apply get_some_in_keys in Ht. }
  split.
  - split; [|split; assumption]. apply (wf_change e e'); try assumption.
    + intros k Hin. rewrite Hkeys in Hin. apply in_app_or in Hin.
      destruct Hin as [Hin|[<-|[]]]; [|cbn; lia]. apply Ha1 in Hin. cbn. lia.
    + rewrite Hkeys. now apply NoDup_snoc.
    + intros fid aid0 Hgt [entry [Hget _]]. exfalso.
      assert (fid <= FactStorage.factIdCounter (factStorage e)); [|lia].
      eapply stored_below_counter; eauto.
  - unfold tracked, e'. cbn [activations with_activations].
    apply (map_get_set_same _ _ Nat.eqb nat_eqb_eq).
Qed.

Lemma ok_check_pre (e1 : t) (pre : list value) (bnd : bindings) (rid : string) :
  wf e1 -> ok e1 (fst (Run.check_pre h e1 pre bnd rid)).
Proof.
  intros Hwf. unfold Run.check_pre. destruct pre as [|g gs]; [now apply ok_refl|].
  destruct (Run.pre_every h (g :: gs) bnd rid) as [evs okb].
  assert (Hok3 : ok e1 (emit_all (emit e1 (rule_beforePreConditions rid)) evs)).
  { eapply ok_trans; [apply ok_emit; exact Hwf|].
    apply ok_emit_all. now apply ok_emit. }
  destruct okb; cbn [fst];
    (eapply ok_trans; [exact Hok3|apply ok_emit; now apply ok_wf in Hok3]).
Qed.

Lemma ok_execute (e4 : t) (activation : Activation) :
  wf e4 -> ok e4 (fst (Run.execute h depth e4 activation)).
Proof.
  intros Hwf4. unfold Run.execute.
  set (rid := def_id (act_rule activation)).
  set (bnd := act_bindings activation).
  set (x := {| ruleId := rid; consumed := consumedFactIds activation; produced := [] |}).
  destruct (ok_track e4 x Hwf4) as [Hok6 Ht6].
  set (aid := S (activationCounter e4)) in *.
  set (e6 := with_activations (with_activationCounter e4 aid)
               (JSMap.set Nat.eqb (activations e4) aid x)) in *.
  set (e7 := emit e6 (rule_beforeAction rid)).
  assert (Hok7 : ok e4 e7).
  { eapply ok_trans; [exact Hok6|]. apply ok_emit. now apply ok_wf in Hok6. }
  assert (Ht7 : exists y, tracked e7 aid y) by (exists x; exact Ht6).
  set (ran := match act_rule activation with
              | DRule r0 => Run.run_action h depth (rule_then r0 bnd) aid rid e7
              | DQuery _ => (e7, Some TypeError_)
              end).
  assert (Hrun : ok e4 (fst ran)).
  { unfold ran. destruct (act_rule activation) as [r0|q]; [|exact Hok7].
    eapply ok_trans; [exact Hok7|].
    apply ok_run_action; [now apply ok_wf in Hok7|exact Ht7]. }
  destruct ran as [e8 thrown]. cbn [fst] in *.
  pose proof (ok_wf _ _ Hrun) as Hwf8.
  eapply ok_trans; [exact Hrun|].
  destruct thrown as [ex|].
  - eapply ok_trans; [apply ok_emit; exact Hwf8|].
    eapply ok_trans; [apply ok_emit; apply ok_emit; exact Hwf8|].
    apply ok_emit. apply ok_emit. apply ok_emit. exact Hwf8.
  - eapply ok_trans; [apply ok_emit; exact Hwf8|].
    apply ok_emit. apply ok_emit. exact Hwf8.
Qed.

(** Firing an activation keeps the invariant. *)
Lemma ok_fire (e : t) (activation : Activation) :
  wf e -> ok e (fst (Run.fire h depth e activation)).
Proof.
  intros Hwf. unfold Run.fire.
  set (rid := def_id (act_rule activation)).
  set (bnd := act_bindings activation).
  set (e1 := emit e (rule_activationFound rid bnd)).
  assert (Hok1 : ok e e1) by (now apply ok_emit).
  pose proof (ok_check_pre e1
                (match act_rule activation with DRule r0 => rule_pre r0 | DQuery _ => [] end)
                bnd rid (ok_wf _ _ Hok1)) as Hok4.
  destruct (Run.check_pre h e1 _ bnd rid) as [e4 [|]]; cbn [fst] in *.
  - eapply ok_trans; [exact (ok_trans _ _ _ Hok1 Hok4)|].
    apply ok_execute. now apply ok_wf in Hok4.
  - exact (ok_trans _ _ _ Hok1 Hok4).
Qed.

Lemma wf_with_agenda (e : t) (a : Agenda.t) : wf e -> wf (with_agenda e a).
Proof. intros Hwf. exact Hwf. Qed.

(** One turn of the loop: the invariant holds afterwards, the state evolved
    from the one with the task taken off the agenda, and after a retract
    task no tracked activation consumes the retracted identity. *)
Lemma step_spec (e e' : t) (y : option (definition * bindings)) :
  wf e -> Run.step h depth e = Run.Turned e' y ->
  exists task rest,
    agenda e = task :: rest
    /\ wf e'
    /\ evolves (with_agenda e rest) e'
    /\ (Agenda.task_type_of task = Agenda.TRetract ->
        forall aid a, tracked e' aid a ->
                      JSSet.has (consumed a) (Agenda.task_fact_id task) = false).
Proof.
  intros Hwf Hstep. unfold Run.step in Hstep.
  destruct (agenda e) as [|task rest] eqn:Hag; cbn [Agenda.shift] in Hstep; [discriminate|].
  exists task, rest. split; [reflexivity|].
  set (e0 := with_agenda e rest) in *.
  assert (Hwf0 : wf e0) by exact Hwf.
  set (e1 := emit e0 (agenda_taskProcessed task)) in *.
  assert (Hok1 : ok e0 e1) by (now apply ok_emit).
  pose proof (ok_wf _ _ Hok1) as Hwf1.
  destruct (Agenda.task_type_of task) eqn:Ty.
  - (* an assert task *)
    set (g := Join.findMatches h depth e1) in *.
    set (e2 := emit_all e1 (Join.gen_events g)) in *.
    assert (Hok2 : ok e0 e2).
    { eapply ok_trans; [exact Hok1|]. now apply ok_emit_all. }
    destruct (Join.gen_thrown g); [discriminate|].
    destruct (Resolver.resolve (Join.gen_yields g)) as [activation|].
    + pose proof (ok_fire e2 activation (ok_wf _ _ Hok2)) as Hok3.
      destruct (Run.fire h depth e2 activation) as [e3 y3]. cbn [fst] in Hok3.
      injection Hstep as <- <-.
      pose proof (ok_trans _ _ _ Hok2 Hok3) as [Hw [Hev _]].
      split; [assumption|]. split; [assumption|]. discriminate.
    + injection Hstep as <- <-. destruct Hok2 as [Hw [Hev _]].
      split; [assumption|]. split; [assumption|]. discriminate.
  - (* a retract task *)
    injection Hstep as <- <-.
    destruct (truthMaintenance_spec (Agenda.task_fact_id task) e1 Hwf1)
      as [Hw [Hev [Hnone _]]].
    split; [assumption|]. split; [|intros _; exact Hnone].
    exact (evolves_trans _ _ _ (proj1 (proj2 Hok1)) Hev).
Qed.

End RunLoop.

Section Drain.
Import Engine Inv.
Variable h : Host.
Variable depth : nat.

Lemma wf_init : wf init.
Proof.
  split; [apply empty_store_wf|]. split; [intros aid []|]. split; [constructor|].
  intros fid aid [entry [H _]]. discriminate H.
Qed.

(** The loop keeps the invariant. *)
Lemma wf_loop (fuel : nat) :
  forall e, wf e -> wf (Run.final (Run.loop h depth fuel e)).
Proof.
  induction fuel as [|fuel IH]; intros e Hwf; cbn [Run.loop Run.final]; [assumption|].
  destruct (Run.step h depth e) as [|e' y|e' ex] eqn:Hstep; cbn [Run.final].
  - now apply ok_emit.
  - apply IH. destruct (step_spec h depth e e' y Hwf Hstep) as [task [rest [_ [Hw _]]]].
    exact Hw.
  - unfold Run.step in Hstep.
    destruct (agenda e) as [|task rest]; cbn [Agenda.shift] in Hstep; [discriminate|].
    destruct (Agenda.task_type_of task); [|discriminate].
    destruct (Join.gen_thrown _); [|destruct (Resolver.resolve _);
                                     [destruct (Run.fire _ _ _ _)|]; discriminate].
    injection Hstep as <- _.
    apply ok_emit_all. apply ok_emit. exact Hwf.
Qed.

Lemma doomed_step (r aid fid : nat) (e e' : t) (y : option (definition * bindings)) :
  wf e -> doomed r aid fid e -> Run.step h depth e = Run.Turned e' y ->
  doomed r aid fid e'.
Proof.
  intros Hwf Hd Hstep.
  destruct (step_spec h depth e e' y Hwf Hstep)
    as [task [rest [Hag [Hwf' [Hev Hretract]]]]].
  pose proof Hev as [Hc [Hf [Hcc [Hta [more Hm]]]]].
  cbn [factStorage with_agenda activationCounter agenda] in Hc, Hf, Hcc, Hm.
  destruct Hd as [[Hgone Hle]|[Hlp [[a [Ht Hcons]] Hpend]]].
  - left. split; [|lia].
    destruct (FactStorage.getFactEntry (factStorage e') fid) as [x|] eqn:G; [|reflexivity].
    apply Hf in G; [|assumption]. cbn [factStorage with_agenda] in G. congruence.
  - assert (Hle : fid <= FactStorage.factIdCounter (factStorage e)).
    { destruct Hlp as [x [Hx _]]. eapply stored_below_counter; eauto. }
    destruct (FactStorage.getFactEntry (factStorage e') fid) as [x|] eqn:G;
      [|left; split; [exact G|lia]].
    right.
    assert (Hlp' : logically_produced e' fid aid).
    { destruct Hlp as [x0 [Hx0 Hrest]]. pose proof (Hf fid x Hle G) as Hx.
      assert (x = x0) by congruence. subst x0. exists x. auto. }
    destruct Hwf' as [Hs' [Ha1' [Hnd' Hprov']]].
    destruct (Hprov' fid aid Hlp') as [a' [Ht' _]].
    assert (Haid : aid <= activationCounter e).
    { destruct Hwf as [_ [Ha1 _]]. apply Ha1. unfold tracked in Ht.
      now apply get_some_in_keys in Ht. }
    destruct (Hta aid a' Haid Ht') as [a0 [Ht0 [Hc0 _]]].
    assert (a0 = a) by (unfold tracked in *; cbn [activations with_agenda] in Ht0; congruence).
    subst a0.
    assert (Hcons' : JSSet.has (consumed a') r = true) by (now rewrite Hc0).
    split; [exact Hlp'|]. split; [exists a'; auto|].
    destruct Hpend as [tk [Hin [Hty Hid]]].
    rewrite Hag in Hin. destruct Hin as [<-|Hin].
    + (* the task taken is a retract task for [r]: the activation cannot be tracked *)
      exfalso. pose proof (Hretract Hty aid a' Ht') as Hno. rewrite Hid in Hno. congruence.
    + exists tk. split; [|auto]. rewrite Hm. apply in_or_app. now left.
Qed.

(** Draining the agenda to quiescence retracts the fact. *)
Lemma doomed_loop (r aid fid : nat) (fuel : nat) :
  forall e,
    wf e -> doomed r aid fid e ->
    Run.ended (Run.loop h depth fuel e) = Run.Quiescent ->
    FactStorage.getFactEntry (factStorage (Run.final (Run.loop h depth fuel e))) fid = None.
Proof.
  induction fuel as [|fuel IH]; intros e Hwf Hd; cbn [Run.loop Run.ended Run.final];
    [discriminate|].
  destruct (Run.step h depth e) as [|e' y|e' ex] eqn:Hstep; cbn [Run.ended Run.final].
  - intros _. destruct Hd as [[Hgone _]|[_ [_ [tk [Hin _]]]]]; [exact Hgone|].
    unfold Run.step in Hstep.
    destruct (agenda e) as [|task rest]; [contradiction|].
    cbn [Agenda.shift] in Hstep.
    destruct (Agenda.task_type_of task); [|discriminate].
    destruct (Join.gen_thrown _); [discriminate|].
    destruct (Resolver.resolve _); [destruct (Run.fire _ _ _ _)|]; discriminate.
  - intros Hq. apply IH; [| |exact Hq].
    + destruct (step_spec h depth e e' y Hwf Hstep) as [task [rest [_ [Hw _]]]]. exact Hw.
    + exact (doomed_step r aid fid e e' y Hwf Hd Hstep).
  - discriminate.
Qed.

(** C1. On a retract task every tracked activation that consumed the
    retracted identity is dropped, after each fact of its produced set that
    the store still resolves, that is marked logical and that it produced
    is retracted; the other activations and facts are left alone; each
    retraction appends a retract task to the agenda and does nothing more;
    and once the agenda is drained to quiescence, a fact logically produced
    by an activation that consumed the retracted fact resolves no more. *)
Theorem truth_maintenance_retracts_logical_facts :
  forall (e : t) (r : nat),
    wf e ->
    let e' := Run.truthMaintenance e r in
    (forall aid a, tracked e aid a -> JSSet.has (consumed a) r = true ->
       JSMap.get Nat.eqb (activations e') aid = None)
    /\ (forall aid a, tracked e aid a -> JSSet.has (consumed a) r = false ->
          tracked e' aid a)
    /\ (forall aid a fid,
          tracked e aid a -> JSSet.has (consumed a) r = true -> In fid (produced a) ->
          logically_produced e fid aid ->
          FactStorage.getFactEntry (factStorage e') fid = None /\ pending_retract e' fid)
    /\ (forall fid x,
          FactStorage.getFactEntry (factStorage e) fid = Some x ->
          (forall aid a, tracked e aid a -> JSSet.has (consumed a) r = true ->
                         ~ logically_produced e fid aid) ->
          FactStorage.getFactEntry (factStorage e') fid = Some x)
    /\ appends_retracts e e'
    /\ (forall fuel aid a fid,
          tracked e aid a -> JSSet.has (consumed a) r = true ->
          logically_produced e fid aid -> pending_retract e r ->
          Run.ended (Run.run h depth fuel e) = Run.Quiescent ->
          FactStorage.getFactEntry (factStorage (Run.final (Run.run h depth fuel e))) fid
          = None).
Proof.
  intros e r Hwf e'.
  destruct (truthMaintenance_spec r e Hwf) as [_ [_ [_ [Hdrop [Hkeep [Hrm [Hrest Happ]]]]]]].
  split; [exact Hdrop|]. split; [exact Hkeep|]. split; [exact Hrm|].
  split; [exact Hrest|]. split; [exact Happ|].
  intros fuel aid a fid Ht Hc Hlp Hpend Hq. unfold Run.run in *.
  apply (doomed_loop r aid fid fuel); [now apply ok_emit| |exact Hq].
  right. split; [exact Hlp|]. split; [exists a; auto|exact Hpend].
Qed.

End Drain.

Lemma engineRetracted_wf : Inv.wf Sample.engineRetracted.
Proof.
  unfold Sample.engineRetracted, Sample.engineFired, Run.run.
  apply ok_retractFact. apply wf_loop. apply ok_emit. apply ok_assertFact.
  apply ok_addDefinition. apply wf_init.
Qed.

Lemma truth_maintenance_retracts_logical_facts_witness :
  FactStorage.getFactEntry (Engine.factStorage Sample.engineRetracted) 2 <> None
  /\ FactStorage.getFactEntry
       (Engine.factStorage (Run.final (Run.run sampleHost 5 10 Sample.engineRetracted))) 2
     = None
  /\ FactStorage.getFactEntry
       (Engine.factStorage (Run.truthMaintenance Sample.engineRetracted 1)) 2
     = None.
Proof.
  pose proof (truth_maintenance_retracts_logical_facts sampleHost 5
                Sample.engineRetracted 1 engineRetracted_wf) as [_ [_ [H3 [_ [_ H6]]]]].
  assert (Ht : Inv.tracked Sample.engineRetracted 1
                 {| Engine.ruleId := "R1"; Engine.consumed := [1]; Engine.produced := [2] |})
    by (vm_compute; reflexivity).
  assert (Hlp : Inv.logically_produced Sample.engineRetracted 2 1).
  { eexists. split; [vm_compute; reflexivity|]. split; reflexivity. }
  assert (Hpend : Inv.pending_retract Sample.engineRetracted 1).
  { eexists. split; [vm_compute; left; reflexivity|]. split; reflexivity. }
  split; [vm_compute; discriminate|]. split.
  - apply (H6 10 1 _ 2 Ht eq_refl Hlp Hpend). vm_compute. reflexivity.
  - apply (H3 1 _ 2 Ht eq_refl (or_introl eq_refl) Hlp).
Defined.

(** ** Ordering of query results *)

Section Sorting.
Import Query.
Variable cmp : value -> value -> Z.

Lemma insert_perm (x : value) (s : list value) : Permutation (insert cmp x s) (x :: s).
Proof.
  induction s as [|y s IH]; cbn [insert]; [reflexivity|].
  destruct (cmp x y <? 0)%Z; [reflexivity|].
  rewrite IH. apply perm_swap.
Qed.

Lemma sort_fold_perm (l : list value) :
  forall s, Permutation (fold_left (fun sorted x => insert cmp x sorted) l s) (s ++ l).
Proof.
  induction l as [|x l IH]; intros s; cbn [fold_left]; [now rewrite app_nil_r|].
  rewrite IH. rewrite insert_perm. now rewrite <- Permutation_middle.
Qed.

Lemma sort_perm (l : list value) : Permutation (sort cmp l) l.
Proof. unfold sort. now rewrite sort_fold_perm. Qed.

(** *** Rows without a key *)

Variable undef : value -> bool.
Hypothesis undef_tie : forall x y, undef x = true -> undef y = true -> before cmp x y = false.

Section UndefinedLast.
Hypothesis undef_after : forall x y, undef x = true -> undef y = false -> before cmp x y = false.
Hypothesis def_before : forall x y, undef x = false -> undef y = true -> before cmp x y = true.

Lemma insert_defined_last (x : value) (D U : list value) :
  undef x = false -> Forall (fun u => undef u = true) U ->
  insert cmp x (D ++ U) = insert cmp x D ++ U.
Proof.
  intros Hx HU. induction D as [|d D IH]; cbn [app insert].
  - destruct U as [|u U]; [reflexivity|]. cbn [insert].
    inversion HU; subst. fold (before cmp x u). now rewrite def_before.
  - destruct (cmp x d <? 0)%Z; [reflexivity|]. now rewrite IH.
Qed.

Lemma insert_undefined_last (x : value) (D U : list value) :
  undef x = true -> Forall (fun d => undef d = false) D -> Forall (fun u => undef u = true) U ->
  insert cmp x (D ++ U) = D ++ U ++ [x].
Proof.
  intros Hx HD HU. induction D as [|d D IH]; cbn [app].
  - induction U as [|u U IHU]; [reflexivity|]. cbn [insert app].
    inversion HU; subst. fold (before cmp x u). rewrite undef_tie by assumption.
    now rewrite IHU.
  - cbn [insert]. inversion HD; subst. fold (before cmp x d).
    rewrite undef_after by assumption. now rewrite IH.
Qed.

Lemma sort_fold_undefined_last (l : list value) :
  forall D U,
    Forall (fun d => undef d = false) D -> Forall (fun u => undef u = true) U ->
    exists D',
      fold_left (fun sorted x => insert cmp x sorted) l (D ++ U) = D' ++ U ++ filter undef l
      /\ Forall (fun d => undef d = false) D'.
Proof.
  induction l as [|x l IH]; intros D U HD HU; cbn [fold_left filter].
  - exists D. now rewrite app_nil_r.
  - destruct (undef x) eqn:Hx.
    + rewrite insert_undefined_last by assumption.
      destruct (IH D (U ++ [x]) HD) as [D' [HD' HF]].
      { apply Forall_app. split; [assumption|]. now constructor. }
      exists D'. split; [|assumption]. rewrite HD'. now rewrite <- app_assoc.
    + rewrite insert_defined_last by assumption.
      destruct (IH (insert cmp x D) U) as [D' [HD' HF]]; [|assumption|eauto].
      apply Forall_forall. intros d Hd.
      apply (Permutation_in _ (insert_perm x D)) in Hd.
      destruct Hd as [<-|Hd]; [assumption|].
      rewrite Forall_forall in HD. now apply HD.
Qed.

Lemma sort_undefined_last (l : list value) :
  exists D, sort cmp l = D ++ filter undef l /\ Forall (fun d => undef d = false) D.
Proof.
  destruct (sort_fold_undefined_last l [] [] (Forall_nil _) (Forall_nil _)) as [D [HD HF]].
  exists D. split; [exact HD|exact HF].
Qed.

End UndefinedLast.

Section UndefinedFirst.
Hypothesis undef_before : forall x y, undef x = true -> undef y = false -> before cmp x y = true.
Hypothesis def_after : forall x y, undef x = false -> undef y = true -> before cmp x y = false.

Lemma insert_defined_first (x : value) (U D : list value) :
  undef x = false -> Forall (fun u => undef u = true) U ->
  insert cmp x (U ++ D) = U ++ insert cmp x D.
Proof.
  intros Hx HU. induction U as [|u U IH]; cbn [app]; [reflexivity|].
  cbn [insert]. inversion HU; subst. fold (before cmp x u).
  rewrite def_after by assumption. now rewrite IH.
Qed.

Lemma insert_undefined_first (x : value) (U D : list value) :
  undef x = true -> Forall (fun u => undef u = true) U -> Forall (fun d => undef d = false) D ->
  insert cmp x (U ++ D) = (U ++ [x]) ++ D.
Proof.
  intros Hx HU HD. induction U as [|u U IH]; cbn [app].
  - destruct D as [|d D]; [reflexivity|]. cbn [insert].
    inversion HD; subst. fold (before cmp x d). now rewrite undef_before.
  - cbn [insert]. inversion HU; subst. fold (before cmp x u).
    rewrite undef_tie by assumption. now rewrite IH.
Qed.

Lemma sort_fold_undefined_first (l : list value) :
  forall U D,
    Forall (fun u => undef u = true) U -> Forall (fun d => undef d = false) D ->
    exists D',
      fold_left (fun sorted x => insert cmp x sorted) l (U ++ D) = (U ++ filter undef l) ++ D'
      /\ Forall (fun d => undef d = false) D'.
Proof.
  induction l as [|x l IH]; intros U D HU HD; cbn [fold_left filter].
  - exists D. now rewrite app_nil_r.
  - destruct (undef x) eqn:Hx.
    + rewrite insert_undefined_first by assumption.
      destruct (IH (U ++ [x]) D) as [D' [HD' HF]]; [|assumption|].
      { apply Forall_app. split; [assumption|]. now constructor. }
      exists D'. split; [|assumption]. rewrite HD'. cbn [app].
      now rewrite <- (app_assoc U [x]).
    + rewrite insert_defined_first by assumption.
      destruct (IH U (insert cmp x D) HU) as [D' [HD' HF]]; [|eauto].
      apply Forall_forall. intros d Hd.
      apply (Permutation_in _ (insert_perm x D)) in Hd.
      destruct Hd as [<-|Hd]; [assumption|].
      rewrite Forall_forall in HD. now apply HD.
Qed.

Lemma sort_undefined_first (l : list value) :
  exists D, sort cmp l = filter undef l ++ D /\ Forall (fun d => undef d = false) D.
Proof.
  destruct (sort_fold_undefined_first l [] [] (Forall_nil _) (Forall_nil _)) as [D [HD HF]].
  exists D. split; [exact HD|exact HF].
Qed.

End UndefinedFirst.
End Sorting.

(** *** Stability *)

Section Stability.
Import Query.
Variable cmp : value -> value -> Z.
Variable rows : list value.
Hypothesis consistent : consistent_on cmp rows = true.

Lemma before_asym (x y : value) :
  In x rows -> In y rows -> before cmp x y = true -> before cmp y x = false.
Proof.
  intros Hx Hy Hb. unfold consistent_on in consistent.
  rewrite forallb_forall in consistent. specialize (consistent x Hx).
  rewrite forallb_forall in consistent. specialize (consistent y Hy).
  apply andb_prop in consistent. destruct consistent as [Ha _].
  rewrite Hb in Ha. cbn in Ha. now apply negb_true_iff in Ha.
Qed.

Lemma not_before_trans (x y z : value) :
  In x rows -> In y rows -> In z rows ->
  before cmp x y = false -> before cmp y z = false -> before cmp x z = false.
Proof.
  intros Hx Hy Hz Hxy Hyz. unfold consistent_on in consistent.
  rewrite forallb_forall in consistent. specialize (consistent x Hx).
  rewrite forallb_forall in consistent. specialize (consistent y Hy).
  apply andb_prop in consistent. destruct consistent as [_ Hn].
  rewrite forallb_forall in Hn. specialize (Hn z Hz).
  rewrite Hxy, Hyz in Hn. cbn in Hn. now apply negb_true_iff in Hn.
Qed.

Lemma filter_none (p : value -> bool) (l : list value) :
  (forall z, In z l -> p z = false) -> filter p l = [].
Proof.
  induction l as [|y l IH]; intros H; cbn [filter]; [reflexivity|].
  rewrite (H y (or_introl eq_refl)). apply IH. intros z Hz. apply H. now right.
Qed.

(** No row of an ordered list goes before a row that precedes it. *)
Local Abbreviation ordered := (StronglySorted (fun u v => before cmp v u = false)).

Lemma insert_in (x y : value) (s : list value) : In y (insert cmp x s) -> y = x \/ In y s.
Proof.
  intros H. apply (Permutation_in _ (insert_perm cmp x s)) in H.
  destruct H as [<-|H]; auto.
Qed.

Lemma insert_ordered (x : value) (s : list value) :
  In x rows -> incl s rows -> ordered s -> ordered (insert cmp x s).
Proof.
  intros Hx Hs Hord. induction Hord as [|y s Hord IH Hall]; cbn [insert].
  - constructor; constructor.
  - assert (Hy : In y rows) by (apply Hs; now left).
    assert (Hs' : incl s rows) by (intros z Hz; apply Hs; now right).
    fold (before cmp x y). destruct (before cmp x y) eqn:Hb.
    + constructor; [now constructor|].
      constructor; [now apply before_asym|].
      rewrite Forall_forall in *. intros z Hz.
      assert (Hzr : In z rows) by now apply Hs'.
      destruct (before cmp z x) eqn:Hzx; [|reflexivity].
      assert (Hxz : before cmp x z = false) by now apply before_asym.
      rewrite (not_before_trans x z y) in Hb; auto.
    + constructor; [now apply IH|].
      rewrite Forall_forall in *. intros z Hz.
      destruct (insert_in _ _ _ Hz) as [->|Hz']; auto.
Qed.

Lemma insert_ties (a x : value) (s : list value) :
  In a rows -> In x rows -> incl s rows -> ordered s ->
  filter (tie cmp a) (insert cmp x s) = filter (tie cmp a) s ++ filter (tie cmp a) [x].
Proof.
  intros Ha Hx Hs Hord. induction Hord as [|y s Hord IH Hall]; cbn [insert].
  - reflexivity.
  - assert (Hy : In y rows) by (apply Hs; now left).
    assert (Hs' : incl s rows) by (intros z Hz; apply Hs; now right).
    fold (before cmp x y). destruct (before cmp x y) eqn:Hb.
    + cbn [filter]. destruct (tie cmp a x) eqn:Hax; [|now rewrite app_nil_r].
      assert (Hnone : filter (tie cmp a) (y :: s) = []).
      { apply filter_none. intros z Hz.
        destruct (tie cmp a z) eqn:Haz; [|reflexivity].
        exfalso. assert (Hzr : In z rows) by now apply Hs.
        unfold tie in Hax, Haz.
        apply andb_prop in Hax. destruct Hax as [_ Hxa].
        apply andb_prop in Haz. destruct Haz as [Haz _].
        apply negb_true_iff in Hxa, Haz.
        assert (Hxz : before cmp x z = false) by now apply (not_before_trans x a z).
        assert (Hzy : before cmp z y = false).
        { destruct Hz as [<-|Hz].
          - destruct (before cmp y y) eqn:Hyy; [|reflexivity].
            now rewrite (before_asym y y) in Hyy.
          - rewrite Forall_forall in Hall. now apply Hall. }
        rewrite (not_before_trans x z y) in Hb; auto. discriminate. }
      cbn [filter] in Hnone. now rewrite Hnone.
    + cbn [filter]. rewrite IH by assumption.
      destruct (tie cmp a y); reflexivity.
Qed.

Lemma sort_fold_ties (a : value) (l : list value) :
  In a rows -> incl l rows ->
  forall s, incl s rows -> ordered s ->
    filter (tie cmp a) (fold_left (fun sorted x => insert cmp x sorted) l s)
    = filter (tie cmp a) s ++ filter (tie cmp a) l.
Proof.
  intros Ha. induction l as [|x l IH]; intros Hl s Hs Hord; cbn [fold_left].
  - now rewrite app_nil_r.
  - assert (Hx : In x rows) by (apply Hl; now left).
    rewrite IH.
    + rewrite insert_ties by assumption. rewrite <- app_assoc.
      cbn [filter]. destruct (tie cmp a x); reflexivity.
    + intros z Hz. apply Hl. now right.
    + intros z Hz. destruct (insert_in _ _ _ Hz) as [->|Hz']; auto.
    + now apply insert_ordered.
Qed.

Lemma sort_ties (a : value) :
  In a rows -> filter (tie cmp a) (sort cmp rows) = filter (tie cmp a) rows.
Proof.
  intros Ha. unfold sort.
  rewrite (sort_fold_ties a rows Ha (incl_refl _) [] (incl_nil_l _)); [reflexivity|].
  constructor.
Qed.

Lemma sort_ordered : ordered (sort cmp rows).
Proof.
  unfold sort.
  assert (H : forall l s, incl l rows -> incl s rows -> ordered s ->
            ordered (fold_left (fun sorted x => insert cmp x sorted) l s)).
  { induction l as [|x l IH]; intros s Hl Hs Hord; cbn [fold_left]; [assumption|].
    apply IH.
    - intros z Hz. apply Hl. now right.
    - intros z Hz. destruct (insert_in _ _ _ Hz) as [->|Hz']; auto. apply Hl. now left.
    - apply insert_ordered; auto. apply Hl. now left. }
  apply H; [apply incl_refl|apply incl_nil_l|constructor].
Qed.

End Stability.

(** *** Number keys are compared consistently *)

Section NumberKeys.
Import Query.
Variable h : Host.
Variable key : string.

Lemma num_eq_not_lt (x y : number) : num_eq x y = true -> num_lt x y = false.
Proof.
  unfold num_eq, num_lt, SFeqb, SFltb. now destruct (SFcompare x y) as [[]|].
Qed.

Lemma num_eq_not_gt (x y : number) : num_eq x y = true -> num_lt y x = false.
Proof.
  unfold num_eq, num_lt, SFeqb, SFltb.
  destruct x as [[]|[]| |[] mx ex], y as [[]|[]| |[] my ey]; cbn; try congruence;
    fold (Pos.compare mx my); fold (Pos.compare my mx);
    (destruct (Z.compare_spec ex ey) as [->|He|He]; cbn; try discriminate);
    rewrite Z.compare_refl;
    (destruct (Pos.compare_spec mx my) as [->|Hm|Hm]; cbn; try discriminate);
    now rewrite Pos.compare_refl.
Qed.

(** The place of a row in the order: nothing for a missing key. *)
Local Abbreviation place := (fun row =>
  match resolvePath row (split_dot key) with
  | VNum x => Some (rank x)
  | _ => None
  end).

Lemma before_asc_numbers (x y : value) :
  key_number key x = true -> key_number key y = true ->
  before (compareRows h key Asc) x y = true
  <-> match place x, place y with
      | Some a, Some b => lex_lt a b
      | Some _, None => True
      | None, _ => False
      end.
Proof.
  unfold key_number, before, compareRows.
  destruct (resolvePath x (split_dot key)) as [| | |nx| | | | |] eqn:Ex; try discriminate;
    destruct (resolvePath y (split_dot key)) as [| | |ny| | | | |] eqn:Ey; try discriminate;
    cbn; intros Hx Hy; try (split; [discriminate|tauto]); try tauto.
  apply negb_true_iff in Hx, Hy.
  rewrite <- (num_lt_rank nx ny Hx Hy).
  destruct (num_eq nx ny) eqn:E.
  - rewrite (num_eq_not_lt _ _ E). cbn. split; discriminate.
  - destruct (num_lt nx ny); cbn; [tauto|].
    destruct (num_lt ny nx); cbn; split; discriminate.
Qed.

Lemma before_desc_numbers (x y : value) :
  key_number key x = true -> key_number key y = true ->
  before (compareRows h key Desc) x y = true
  <-> match place x, place y with
      | Some a, Some b => lex_lt b a
      | None, Some _ => True
      | _, None => False
      end.
Proof.
  unfold key_number, before, compareRows.
  destruct (resolvePath x (split_dot key)) as [| | |nx| | | | |] eqn:Ex; try discriminate;
    destruct (resolvePath y (split_dot key)) as [| | |ny| | | | |] eqn:Ey; try discriminate;
    cbn; intros Hx Hy; try (split; [discriminate|tauto]); try tauto.
  apply negb_true_iff in Hx, Hy.
  rewrite <- (num_lt_rank ny nx Hy Hx).
  destruct (num_eq nx ny) eqn:E.
  - rewrite (num_eq_not_gt _ _ E). cbn. split; discriminate.
  - destruct (num_lt nx ny) eqn:L; cbn.
    + split; [discriminate|]. intros L'.
      apply (num_lt_rank nx ny Hx Hy) in L. apply (num_lt_rank ny nx Hy Hx) in L'.
      exfalso. exact (lex_lt_irrefl _ (lex_lt_trans _ _ _ L L')).
    + destruct (num_lt ny nx); cbn; [tauto|split; discriminate].
Qed.

Lemma compareRows_consistent_numbers (dir : direction) (rows : list value) :
  forallb (key_number key) rows = true ->
  consistent_on (compareRows h key dir) rows = true.
Proof.
  intros Hn. rewrite forallb_forall in Hn. unfold consistent_on.
  apply forallb_forall. intros x Hx. apply forallb_forall. intros y Hy.
  apply andb_true_intro. split.
  - destruct (before (compareRows h key dir) x y) eqn:Bxy; [|reflexivity]. cbn.
    apply negb_true_iff.
    destruct (before (compareRows h key dir) y x) eqn:Byx; [|reflexivity]. exfalso.
    destruct dir.
    + apply before_asc_numbers in Bxy, Byx; auto.
      destruct (place x), (place y); try tauto.
      exact (lex_lt_irrefl _ (lex_lt_trans _ _ _ Bxy Byx)).
    + apply before_desc_numbers in Bxy, Byx; auto.
      destruct (place x), (place y); try tauto.
      exact (lex_lt_irrefl _ (lex_lt_trans _ _ _ Bxy Byx)).
  - apply forallb_forall. intros z Hz.
    destruct (before (compareRows h key dir) x y) eqn:Bxy; [reflexivity|].
    destruct (before (compareRows h key dir) y z) eqn:Byz; [reflexivity|]. cbn.
    apply negb_true_iff.
    destruct (before (compareRows h key dir) x z) eqn:Bxz; [|reflexivity]. exfalso.
    apply not_true_iff_false in Bxy, Byz.
    destruct dir.
    + rewrite before_asc_numbers in Bxy, Byz, Bxz by auto.
      destruct (place x), (place y), (place z); try tauto.
      apply Bxy. exact (lex_lt_le_trans _ _ _ Bxz Byz).
    + rewrite before_desc_numbers in Bxy, Byz, Bxz by auto.
      destruct (place x), (place y), (place z); try tauto.
      apply Byz. exact (lex_lt_le_trans _ _ _ Bxz Bxy).
Qed.

End NumberKeys.

(** *** The comparison function of [queryAll] *)

Section QueryOrder.
Import Query.
Variable h : Host.
Variable key : string.

Lemma is_undefined_eq (v : value) : is_undefined v = true -> v = VUndef.
Proof. destruct v; cbn; congruence. Qed.

Lemma compareRows_undefined_tie (dir : direction) (x y : value) :
  key_undefined key x = true -> key_undefined key y = true ->
  before (compareRows h key dir) x y = false.
Proof.
  unfold key_undefined, before, compareRows. intros Hx Hy.
  apply is_undefined_eq in Hx, Hy. rewrite Hx, Hy. reflexivity.
Qed.

Lemma compareRows_asc_undefined_after (x y : value) :
  key_undefined key x = true -> key_undefined key y = false ->
  before (compareRows h key Asc) x y = false.
Proof.
  unfold key_undefined, before, compareRows. intros Hx Hy.
  rewrite Hx, Hy. reflexivity.
Qed.

Lemma compareRows_asc_defined_before (x y : value) :
  key_undefined key x = false -> key_undefined key y = true ->
  before (compareRows h key Asc) x y = true.
Proof.
  unfold key_undefined, before, compareRows. intros Hx Hy.
  rewrite Hx, Hy. reflexivity.
Qed.

Lemma compareRows_desc_undefined_before (x y : value) :
  key_undefined key x = true -> key_undefined key y = false ->
  before (compareRows h key Desc) x y = true.
Proof.
  unfold key_undefined, before, compareRows. intros Hx Hy.
  rewrite Hx, Hy. reflexivity.
Qed.

Lemma compareRows_desc_defined_after (x y : value) :
  key_undefined key x = false -> key_undefined key y = true ->
  before (compareRows h key Desc) x y = false.
Proof.
  unfold key_undefined, before, compareRows. intros Hx Hy.
  rewrite Hx, Hy. reflexivity.
Qed.


End QueryOrder.



(** ** Closed instances *)


(** Of two activations tied at the highest salience the earlier wins,
    whichever comes first in the input. *)
Example resolve_tie_is_positional :
  Resolver.resolve
    [Sample.withSalience "a" (num 10); Sample.withSalience "b" (num 20);
     Sample.withSalience "c" (num 20)]
  = Some (Sample.withSalience "b" (num 20))
  /\ Resolver.resolve
       [Sample.withSalience "c" (num 20); Sample.withSalience "a" (num 10);
        Sample.withSalience "b" (num 20)]
     = Some (Sample.withSalience "c" (num 20)).
Proof. split; vm_compute; reflexivity. Qed.

(** A salience that is not a number counts as 0; the salience NaN is a
    number, makes [Math.max] answer NaN, and its own group is selected. *)
Example resolve_salience_not_a_number :
  Resolver.resolve
    [Sample.withSalience "a" (num (-1)); Sample.withSalience "b" (VStr "high");
     Sample.withSalience "c" VUndef]
  = Some (Sample.withSalience "b" (VStr "high"))
  /\ Resolver.resolve
       [Sample.withSalience "a" (num 5); Sample.withSalience "b" (VNum NaN)]
     = Some (Sample.withSalience "b" (VNum NaN)).
Proof. split; vm_compute; reflexivity. Qed.


(** [R_DIV] over one fact with [y = 0] and one with [y = 2]: the run ends
    with an empty agenda, the rule is activated for [y = 2] only, and a
    guard error is reported for [y = 0] each time the candidates are tried. *)
Example division_by_zero_run :
  let r := Run.run sampleHost 5 10 Sample.engineDiv in
  Run.ended r = Run.Quiescent
  /\ map (fun y => (def_id (fst y), obj_get (snd y) "?y")) (Run.yields r)
     = [("R_DIV", num 2); ("R_DIV", num 2)]
  /\ map (fun ev => match ev with
                    | engine_guardError rid _ ex b => Some (rid, ex, obj_get b "?y")
                    | _ => None
                    end)
       (filter (fun ev => match ev with engine_guardError _ _ _ _ => true | _ => false end)
          (Engine.emitted (Run.final r)))
     = [Some (Some "R_DIV", GuardError DivisionByZero, num 0);
        Some (Some "R_DIV", GuardError DivisionByZero, num 0)].
Proof. vm_compute. repeat split. Qed.

(** The ascending and the descending order of the sample rows. *)
Example query_order_sample :
  Query.applyOrder sampleHost (Sample.queryBy "val" Asc) Sample.rows
  = [Sample.rowC; Sample.rowA; Sample.rowD; Sample.rowB]
  /\ Query.applyOrder sampleHost (Sample.queryBy "val" Desc) Sample.rows
     = [Sample.rowB; Sample.rowA; Sample.rowD; Sample.rowC].
Proof. split; vm_compute; reflexivity. Qed.

(** The rows that tie with [rowA] are [rowA] and [rowD], in this order
    before and after sorting, in both directions. *)
Example query_order_sample_ties :
  filter (Query.tie (Query.compareRows sampleHost "val" Asc) Sample.rowA) Sample.rows
  = [Sample.rowA; Sample.rowD]
  /\ filter (Query.tie (Query.compareRows sampleHost "val" Desc) Sample.rowA)
       (Query.applyOrder sampleHost (Sample.queryBy "val" Desc) Sample.rows)
     = [Sample.rowA; Sample.rowD].
Proof. split; vm_compute; reflexivity. Qed.

(** ** The type index of the fact store *)

Section MapGeneric.
Variables K V : Type.
Variable eqb : K -> K -> bool.
Hypothesis eqb_eq : forall x y, eqb x y = true <-> x = y.

Lemma map_set_fresh (m : JSMap.t K V) (k : K) (v : V) :
  JSMap.get eqb m k = None -> JSMap.set eqb m k v = m ++ [(k, v)].
Proof.
  induction m as [|[k0 v0] m IH]; cbn [JSMap.get JSMap.set app]; [reflexivity|].
  destruct (eqb k0 k); [discriminate|]. intros H. now rewrite IH.
Qed.

Lemma map_delete_fresh (m : JSMap.t K V) (k : K) :
  JSMap.get eqb m k = None -> JSMap.delete eqb m k = m.
Proof.
  induction m as [|[k0 v0] m IH]; cbn [JSMap.get JSMap.delete]; [reflexivity|].
  destruct (eqb k0 k); [discriminate|]. intros H. now rewrite IH.
Qed.

Lemma map_delete_snoc (m : JSMap.t K V) (k : K) (v : V) :
  JSMap.get eqb m k = None -> JSMap.delete eqb (m ++ [(k, v)]) k = m.
Proof.
  induction m as [|[k0 v0] m IH]; cbn [JSMap.get JSMap.delete app].
  - intros _. now rewrite (eqb_refl_of K eqb eqb_eq).
  - destruct (eqb k0 k); [discriminate|]. intros H. now rewrite IH.
Qed.

Lemma map_delete_in (m : JSMap.t K V) (k : K) (p : K * V) :
  In p (JSMap.delete eqb m k) -> In p m.
Proof.
  induction m as [|[k0 v0] m IH]; cbn [JSMap.delete]; [tauto|].
  destruct (eqb k0 k); cbn [In]; tauto.
Qed.

Lemma map_delete_keys_NoDup (m : JSMap.t K V) (k : K) :
  NoDup (map fst m) -> NoDup (map fst (JSMap.delete eqb m k)).
Proof.
  induction m as [|[k0 v0] m IH]; cbn [JSMap.delete map fst]; [tauto|].
  intros Hnd. inversion Hnd as [|? ? Hnotin Hnd']; subst.
  destruct (eqb k0 k); [assumption|]. cbn [map fst]. constructor; [|now apply IH].
  intros Hin. apply Hnotin. apply in_map_iff in Hin. destruct Hin as [p [<- Hp]].
  apply in_map. now apply map_delete_in in Hp.
Qed.

Lemma map_set_keys_NoDup (m : JSMap.t K V) (k : K) (v : V) :
  NoDup (map fst m) -> NoDup (map fst (JSMap.set eqb m k v)).
Proof.
  induction m as [|[k0 v0] m IH]; cbn [JSMap.set map fst].
  - intros _. constructor; [intros []|constructor].
  - intros Hnd. inversion Hnd as [|? ? Hnotin Hnd']; subst.
    destruct (eqb k0 k) eqn:E; cbn [map fst]; [assumption|].
    constructor; [|now apply IH].
    rewrite map_keys_set. destruct (JSMap.has eqb m k); [assumption|].
    intros Hin. apply in_app_or in Hin. destruct Hin as [Hin|[<-|[]]]; [contradiction|].
    rewrite (eqb_refl_of K eqb eqb_eq) in E. discriminate.
Qed.

End MapGeneric.

Section StoreIndexProperties.
Import FactStorage StoreIndex.

Local Abbreviation listed := (fun p : nat * FactEntry => (fst p, fact (snd p))).

Lemma of_type_keys (st : t) (type : string) (id : nat) (f : fields) :
  In (id, f) (of_type st type) ->
  exists entry, In (id, entry) (facts st) /\ fact entry = f /\ has_type type entry = true.
Proof.
  unfold of_type. intros Hin. apply in_map_iff in Hin.
  destruct Hin as [[id' entry] [Heq Hin]]. apply filter_In in Hin.
  destruct Hin as [Hin Hty]. cbn in Heq. injection Heq as -> <-.
  exists entry. auto.
Qed.

Lemma of_type_get_none (st : t) (type : string) (id : nat) :
  getFactEntry st id = None -> JSMap.get Nat.eqb (of_type st type) id = None.
Proof.
  intros Hnone.
  destruct (JSMap.get Nat.eqb (of_type st type) id) as [f|] eqn:G; [|reflexivity].
  apply (map_get_some_in _ _ Nat.eqb nat_eqb_eq) in G. apply of_type_keys in G.
  destruct G as [entry [Hin _]]. exfalso.
  apply (get_none_not_in _ _ _ Hnone). now apply (in_map fst) in Hin.
Qed.

Lemma listed_delete (type : string) (m : JSMap.t nat FactEntry) (id : nat) :
  NoDup (map fst m) ->
  JSMap.delete Nat.eqb (map listed (filter (fun p => has_type type (snd p)) m)) id
  = map listed (filter (fun p => has_type type (snd p)) (JSMap.delete Nat.eqb m id)).
Proof.
  induction m as [|[k v] m IH]; cbn [JSMap.delete filter map]; [reflexivity|].
  intros Hnd. inversion Hnd as [|? ? Hnotin Hnd']; subst. cbn [snd].
  destruct (has_type type v) eqn:Hty; cbn [map JSMap.delete fst snd].
  - destruct (Nat.eqb k id) eqn:E; [reflexivity|].
    cbn [filter snd]. rewrite Hty. cbn [map fst snd]. now rewrite IH.
  - destruct (Nat.eqb k id) eqn:E.
    + apply Nat.eqb_eq in E. subst k.
      apply (map_delete_fresh nat fields Nat.eqb).
      destruct (JSMap.get Nat.eqb _ id) as [f|] eqn:G; [|reflexivity].
      apply (map_get_some_in _ _ Nat.eqb nat_eqb_eq) in G. apply in_map_iff in G.
      destruct G as [[id' entry] [Heq Hin]]. apply filter_In in Hin.
      destruct Hin as [Hin _]. cbn in Heq. injection Heq as -> _.
      exfalso. apply Hnotin. now apply (in_map fst) in Hin.
    + cbn [filter snd]. rewrite Hty. now apply IH.
Qed.

Lemma listed_set_metadata (type : string) (m : JSMap.t nat FactEntry) (id : nat)
    (entry entry' : FactEntry) :
  JSMap.get Nat.eqb m id = Some entry -> fact entry' = fact entry ->
  map listed (filter (fun p => has_type type (snd p)) (JSMap.set Nat.eqb m id entry'))
  = map listed (filter (fun p => has_type type (snd p)) m).
Proof.
  intros Hget Hfact.
  induction m as [|[k v] m IH]; cbn [JSMap.get JSMap.set] in *; [discriminate|].
  destruct (Nat.eqb k id) eqn:E.
  - injection Hget as ->. cbn [filter snd]. unfold has_type. rewrite Hfact.
    destruct (type_of (fact entry)) as [s|]; [|reflexivity].
    destruct (String.eqb s type); [|reflexivity]. cbn [map fst snd]. now rewrite Hfact.
  - cbn [filter snd]. destruct (has_type type v); cbn [map]; now rewrite IH.
Qed.

Lemma coherent_empty : coherent empty.
Proof.
  split; [|split; [constructor|split]].
  - split; [intros id []|]. split; [constructor|]. intros id entry H. discriminate H.
  - intros id entry [].
  - reflexivity.
Qed.

Lemma type_of_stored (fs : fields) (kind : string) (v : value) :
  obj_get fs "type" = VStr kind -> type_of (obj_set fs "_id" v) = Some kind.
Proof.
  intros Hk. unfold type_of. rewrite obj_get_set_other by discriminate. now rewrite Hk.
Qed.

Lemma coherent_assert (st : t) (f : value) (md : Metadata) :
  coherent st -> coherent (fst (assert st f md)).
Proof.
  intros Hc. destruct (assert_cases st f md) as [->|[fs [kind [-> Hkind]]]]; [exact Hc|].
  destruct Hc as [Hwf [Hnd [Htyped Hidx]]].
  destruct (assert_accepts st fs kind md Hkind Hwf)
    as [st' [Has [Hfresh [Hcnt [Hfacts [_ [_ [_ [_ Hwf']]]]]]]]].
  rewrite Has. cbn [fst].
  set (id := S (factIdCounter st)) in *.
  set (stored := obj_set fs "_id" (VNum (num_of_nat id))) in *.
  set (entry := {| fact := stored; fact_id := id; metadata := md |}) in *.
  assert (Hfacts' : facts st' = facts st ++ [(id, entry)]).
  { rewrite Hfacts. now apply map_set_fresh. }
  assert (Halpha : alphaNetwork st'
                   = JSMap.set String.eqb (alphaNetwork st) kind
                       (of_type st kind ++ [(id, stored)])).
  { unfold assert in Has. cbn [to_boolean negb] in Has.
    change (get_prop (VObj fs) "type") with (obj_get fs "type") in Has.
    rewrite Hkind in Has. injection Has as <-. cbn [alphaNetwork].
    fold id. fold stored.
    pose proof (Hidx kind) as Hk. unfold getFactsByType in Hk.
    destruct (JSMap.get String.eqb (alphaNetwork st) kind) as [idx|] eqn:G.
    - rewrite Hk. f_equal. apply map_set_fresh. now apply of_type_get_none.
    - now rewrite <- Hk. }
  assert (Hof : forall type,
             of_type st' type
             = of_type st type ++ (if String.eqb kind type then [(id, stored)] else [])).
  { intros type. unfold of_type. rewrite Hfacts'. rewrite filter_app, map_app.
    f_equal. cbn [filter snd]. unfold has_type. cbn [fact entry].
    unfold stored. rewrite (type_of_stored fs kind _ Hkind).
    now destruct (String.eqb kind type). }
  split; [exact Hwf'|]. split; [|split].
  - rewrite Halpha. now apply (map_set_keys_NoDup _ _ String.eqb string_eqb_eq).
  - intros id' entry' Hin. rewrite Hfacts' in Hin. apply in_app_or in Hin.
    destruct Hin as [Hin|[Heq|[]]]; [now apply (Htyped id')|].
    injection Heq as _ <-. exists kind. cbn [fact]. now apply type_of_stored.
  - intros type. rewrite Hof. unfold getFactsByType. rewrite Halpha.
    destruct (String.eqb kind type) eqn:E.
    + apply String.eqb_eq in E. subst type.
      now rewrite (map_get_set_same _ _ String.eqb string_eqb_eq).
    + rewrite (map_get_set_other _ _ String.eqb string_eqb_eq)
        by (intros ->; rewrite String.eqb_refl in E; discriminate).
      rewrite app_nil_r. apply Hidx.
Qed.

Lemma coherent_retract (st : t) (id : nat) :
  coherent st -> coherent (fst (retract st id)).
Proof.
  intros [Hwf [Hnd [Htyped Hidx]]].
  destruct (retract_spec st id Hwf) as [_ [_ [_ [_ [_ Hwf']]]]].
  unfold retract in *. unfold getFactEntry in *.
  destruct (JSMap.get Nat.eqb (facts st) id) as [entry|] eqn:G;
    [|split; [exact Hwf|split; [exact Hnd|split; [exact Htyped|exact Hidx]]]].
  cbn [fst] in *.
  destruct Hwf as [_ [Hkeys _]].
  assert (Hin : In (id, entry) (facts st))
    by now apply (map_get_some_in _ _ Nat.eqb nat_eqb_eq).
  destruct (Htyped id entry Hin) as [kind Hkind]. rewrite Hkind in *.
  assert (Hlisted : In (id, fact entry) (of_type st kind)).
  { unfold of_type. apply in_map_iff. exists (id, entry). split; [reflexivity|].
    apply filter_In. split; [exact Hin|]. cbn [snd]. unfold has_type.
    rewrite Hkind. apply String.eqb_refl. }
  pose proof (Hidx kind) as Hk. unfold getFactsByType in Hk.
  destruct (JSMap.get String.eqb (alphaNetwork st) kind) as [idx|] eqn:Ga;
    [|rewrite <- Hk in Hlisted; destruct Hlisted].
  subst idx.
  set (st' := {| factIdCounter := factIdCounter st;
                 facts := JSMap.delete Nat.eqb (facts st) id;
                 alphaNetwork := _ |}) in *.
  assert (Hof : forall type,
             of_type st' type = JSMap.delete Nat.eqb (of_type st type) id).
  { intros type. unfold of_type. cbn [facts st']. symmetry. now apply listed_delete. }
  assert (Hother : forall type, type <> kind ->
             JSMap.delete Nat.eqb (of_type st type) id = of_type st type).
  { intros type Hne. apply (map_delete_fresh nat fields Nat.eqb).
    destruct (JSMap.get Nat.eqb (of_type st type) id) as [f|] eqn:Gf; [|reflexivity].
    apply (map_get_some_in _ _ Nat.eqb nat_eqb_eq) in Gf. apply of_type_keys in Gf.
    destruct Gf as [entry' [Hin' [_ Hty]]].
    assert (entry' = entry).
    { apply (get_of_in _ _ _ _ Hkeys) in Hin'. congruence. }
    subst entry'. unfold has_type in Hty. rewrite Hkind in Hty.
    apply String.eqb_eq in Hty. congruence. }
  split; [exact Hwf'|]. split; [|split].
  - cbn [alphaNetwork st'].
    destruct (JSMap.size _ =? 0).
    + now apply map_delete_keys_NoDup.
    + now apply (map_set_keys_NoDup _ _ String.eqb string_eqb_eq).
  - intros id' entry' Hin'. cbn [facts st'] in Hin'.
    apply map_delete_in in Hin'. now apply (Htyped id').
  - intros type. rewrite Hof. unfold getFactsByType. cbn [alphaNetwork st'].
    destruct (String.eqb kind type) eqn:E.
    + apply String.eqb_eq in E. subst type.
      destruct (JSMap.size (JSMap.delete Nat.eqb (of_type st kind) id) =? 0) eqn:Z.
      * rewrite (map_get_delete_same _ _ String.eqb string_eqb_eq) by assumption.
        apply Nat.eqb_eq in Z. unfold JSMap.size in Z.
        now destruct (JSMap.delete Nat.eqb (of_type st kind) id).
      * now rewrite (map_get_set_same _ _ String.eqb string_eqb_eq).
    + assert (Hne : kind <> type)
        by (intros ->; rewrite String.eqb_refl in E; discriminate).
      rewrite (Hother type) by (intros Heq; apply Hne; now symmetry).
      destruct (JSMap.size (JSMap.delete Nat.eqb (of_type st kind) id) =? 0).
      * rewrite (map_get_delete_other _ _ String.eqb string_eqb_eq) by assumption.
        apply Hidx.
      * rewrite (map_get_set_other _ _ String.eqb string_eqb_eq) by assumption.
        apply Hidx.
Qed.

Lemma coherent_set_metadata (st : t) (id : nat) (m : Metadata) :
  coherent st -> coherent (set_metadata st id m).
Proof.
  intros [Hwf [Hnd [Htyped Hidx]]].
  destruct (set_metadata_spec st id m Hwf) as [_ [_ [_ Hwf']]].
  unfold set_metadata in *.
  destruct (JSMap.get Nat.eqb (facts st) id) as [entry|] eqn:G;
    [|split; [exact Hwf|split; [exact Hnd|split; [exact Htyped|exact Hidx]]]].
  split; [exact Hwf'|]. split; [exact Hnd|]. split.
  - intros id' entry' Hin. cbn [facts] in Hin.
    destruct (Nat.eq_dec id' id) as [->|Hne].
    + destruct Hwf' as [_ [Hkeys' _]]. cbn [facts] in Hkeys'.
      apply (get_of_in _ _ _ _ Hkeys') in Hin.
      rewrite (map_get_set_same _ _ Nat.eqb nat_eqb_eq) in Hin. injection Hin as <-.
      cbn [fact]. apply (Htyped id). now apply (map_get_some_in _ _ Nat.eqb nat_eqb_eq).
    + destruct Hwf' as [_ [Hkeys' _]]. cbn [facts] in Hkeys'.
      apply (get_of_in _ _ _ _ Hkeys') in Hin.
      rewrite (map_get_set_other _ _ Nat.eqb nat_eqb_eq) in Hin by congruence.
      apply (Htyped id'). now apply (map_get_some_in _ _ Nat.eqb nat_eqb_eq).
  - intros type. unfold getFactsByType, of_type. cbn [alphaNetwork facts].
    rewrite (listed_set_metadata type _ id entry) by (assumption || reflexivity).
    apply Hidx.
Qed.

Lemma reachable_coherent (st : t) : reachable st -> coherent st.
Proof.
  induction 1.
  - apply coherent_empty.
  - now apply coherent_assert.
  - now apply coherent_retract.
  - now apply coherent_set_metadata.
  - apply coherent_empty.
Qed.

Lemma has_type_iff (type : string) (entry : FactEntry) :
  has_type type entry = true <-> obj_get (fact entry) "type" = VStr type.
Proof.
  unfold has_type, type_of. destruct (obj_get (fact entry) "type"); try (split; discriminate).
  rewrite String.eqb_eq. split; congruence.
Qed.

Lemma coherent_listed (st : t) (type : string) (id : nat) (f : fields) :
  coherent st ->
  In (id, f) (getFactsByType st type)
  <-> exists entry,
        getFactEntry st id = Some entry /\ fact entry = f /\ obj_get f "type" = VStr type.
Proof.
  intros [[_ [Hkeys _]] [_ [_ Hidx]]]. rewrite Hidx. split.
  - intros Hin. apply of_type_keys in Hin. destruct Hin as [entry [Hin [Hf Hty]]].
    exists entry. split; [now apply get_of_in|]. split; [exact Hf|].
    subst f. now apply has_type_iff.
  - intros [entry [Hget [Hf Hty]]]. unfold of_type. apply in_map_iff.
    exists (id, entry). split; [cbn; now rewrite Hf|].
    apply filter_In. split; [now apply (map_get_some_in _ _ Nat.eqb nat_eqb_eq)|].
    cbn [snd]. apply has_type_iff. now rewrite Hf.
Qed.

(** X1. The type index of a store that [assert], [retract] and [clear]
    produced lists, for every type, exactly the stored facts of that type,
    in the order they were asserted: a fact object is listed under a type
    if and only if its identity resolves to an entry with that fact and the
    fact's [type] is the type asked for. *)
Theorem store_index_lists_stored_facts :
  forall (st : t) (type : string),
    reachable st ->
    getFactsByType st type = of_type st type
    /\ (forall id f,
          In (id, f) (getFactsByType st type)
          <-> exists entry,
                getFactEntry st id = Some entry
                /\ fact entry = f
                /\ obj_get f "type" = VStr type).
Proof.
  intros st type Hr. apply reachable_coherent in Hr. split.
  - destruct Hr as [_ [_ [_ Hidx]]]. apply Hidx.
  - intros id f. now apply coherent_listed.
Qed.

Lemma retract_facts (st : t) (id : nat) :
  facts (fst (retract st id)) = JSMap.delete Nat.eqb (facts st) id.
Proof.
  unfold retract. destruct (JSMap.get Nat.eqb (facts st) id) eqn:G; cbn [fst facts].
  - reflexivity.
  - symmetry. now apply map_delete_fresh.
Qed.

Lemma retract_absent (st : t) (id : nat) :
  getFactEntry st id = None -> retract st id = (st, None).
Proof. unfold retract, getFactEntry. now intros ->. Qed.

(** X2. Asserting a fact and retracting the identity it was given is a
    round trip: [retract] returns the entry [assert] stored, and afterwards
    every identity and every type resolves to what it did before; only the
    identity counter has moved on. *)
Theorem store_assert_retract_round_trip :
  forall (st : t) (fs : fields) (kind : string) (md : Metadata),
    reachable st ->
    obj_get fs "type" = VStr kind ->
    exists st1 entry,
      assert st (VObj fs) md = (st1, Some entry)
      /\ snd (retract st1 (fact_id entry)) = Some entry
      /\ facts (fst (retract st1 (fact_id entry))) = facts st
      /\ (forall id, getFactEntry (fst (retract st1 (fact_id entry))) id = getFactEntry st id)
      /\ (forall type,
            getFactsByType (fst (retract st1 (fact_id entry))) type
            = getFactsByType st type)
      /\ factIdCounter (fst (retract st1 (fact_id entry))) = S (factIdCounter st).
Proof.
  intros st fs kind md Hr Hkind.
  pose proof (reachable_coherent st Hr) as Hc.
  destruct (assert_accepts st fs kind md Hkind (proj1 Hc))
    as [st1 [Has [Hfresh [Hcnt [Hfacts [Hget1 [_ [_ [_ Hwf1]]]]]]]]].
  set (id := S (factIdCounter st)) in *.
  set (entry0 := {| fact := obj_set fs "_id" (VNum (num_of_nat id));
                    fact_id := id; metadata := md |}) in *.
  exists st1, entry0. split; [exact Has|]. cbn [fact_id entry0].
  destruct (retract_spec st1 id Hwf1) as [Hcnt2 [Hsnd _]]. cbn zeta in Hcnt2.
  assert (Hf2 : facts (fst (retract st1 id)) = facts st).
  { rewrite retract_facts, Hfacts.
    rewrite (map_set_fresh _ _ Nat.eqb) by exact Hfresh.
    now apply (map_delete_snoc _ _ Nat.eqb nat_eqb_eq). }
  split; [now rewrite Hsnd|]. split; [exact Hf2|]. split; [|split].
  - intros id'. unfold getFactEntry. now rewrite Hf2.
  - intros type.
    assert (Hr2 : reachable (fst (retract st1 id))).
    { apply reach_retract. change st1 with (fst (st1, Some entry0)).
      rewrite <- Has. now apply reach_assert. }
    apply reachable_coherent in Hr2.
    destruct Hr2 as [_ [_ [_ Hidx2]]]. destruct Hc as [_ [_ [_ Hidx]]].
    rewrite Hidx2, Hidx. unfold of_type. now rewrite Hf2.
  - now rewrite Hcnt2.
Qed.

(** X3. [retract] forgets one identity and nothing else: it returns the
    entry the identity resolved to ([null] for an identity that resolves to
    nothing, the store being left as it was); afterwards the identity
    resolves to nothing and is listed under no type, every other identity
    resolves and is listed as before, and the identity is not given out
    again: the next fact asserted gets the identity after the counter,
    which [retract] does not move. *)
Theorem store_retract_forgets_one_identity :
  forall (st : t) (id : nat),
    reachable st ->
    snd (retract st id) = getFactEntry st id
    /\ (getFactEntry st id = None -> fst (retract st id) = st)
    /\ getFactEntry (fst (retract st id)) id = None
    /\ (forall id', id' <> id ->
          getFactEntry (fst (retract st id)) id' = getFactEntry st id')
    /\ (forall type f, ~ In (id, f) (getFactsByType (fst (retract st id)) type))
    /\ (forall type id' f, id' <> id ->
          (In (id', f) (getFactsByType (fst (retract st id)) type)
           <-> In (id', f) (getFactsByType st type)))
    /\ (forall fact md st' entry,
          assert (fst (retract st id)) fact md = (st', Some entry) ->
          fact_id entry = S (factIdCounter st)
          /\ (getFactEntry st id <> None -> id < fact_id entry)).
Proof.
  intros st id Hr.
  pose proof (reachable_coherent st Hr) as Hc.
  pose proof (reachable_coherent _ (@reach_retract st id Hr)) as Hc'.
  destruct (retract_spec st id (proj1 Hc)) as [Hcnt [Hsnd [Hgone [_ [Hother Hwf']]]]].
  cbn zeta in *.
  split; [exact Hsnd|]. split; [|split; [exact Hgone|split; [exact Hother|split; [|split]]]].
  - intros Hnone. now rewrite retract_absent.
  - intros type f Hin. apply (coherent_listed _ _ _ _ Hc') in Hin.
    destruct Hin as [entry [Hget _]]. congruence.
  - intros type id' f Hne.
    rewrite (coherent_listed _ type id' f Hc'), (coherent_listed _ type id' f Hc).
    now rewrite Hother.
  - intros f md st' entry Has.
    destruct (assert_cases (fst (retract st id)) f md) as [Hno|[fs [kind [-> Hkind]]]];
      [congruence|].
    destruct (assert_accepts _ fs kind md Hkind Hwf') as [st'' [Has' _]].
    rewrite Has' in Has. injection Has as _ <-. cbn [fact_id]. rewrite Hcnt.
    split; [reflexivity|]. intros Hsome.
    destruct Hc as [[Hle _] _].
    assert (id <= factIdCounter st); [|lia].
    apply Hle. apply (map_get_in_keys _ _ Nat.eqb nat_eqb_eq). exact Hsome.
Qed.

End StoreIndexProperties.

Lemma storeA_reachable : StoreIndex.reachable Sample.storeA.
Proof. apply StoreIndex.reach_assert. apply StoreIndex.reach_empty. Qed.

Lemma store_index_lists_stored_facts_witness :
  FactStorage.getFactsByType Sample.storeA "a"
  = [(1, [("type", VStr "a"); ("_id", num 1)])]
  /\ FactStorage.getFactsByType Sample.storeA "b" = [].
Proof.
  split.
  - rewrite (proj1 (store_index_lists_stored_facts Sample.storeA "a" storeA_reachable)).
    reflexivity.
  - rewrite (proj1 (store_index_lists_stored_facts Sample.storeA "b" storeA_reachable)).
    reflexivity.
Defined.

Lemma store_assert_retract_round_trip_witness :
  exists st1 entry,
    FactStorage.assert Sample.storeA (VObj [("type", VStr "b")]) FactStorage.no_metadata
    = (st1, Some entry)
    /\ FactStorage.fact_id entry = 2
    /\ FactStorage.facts (fst (FactStorage.retract st1 (FactStorage.fact_id entry)))
       = FactStorage.facts Sample.storeA.
Proof.
  destruct (store_assert_retract_round_trip Sample.storeA [("type", VStr "b")] "b"
              FactStorage.no_metadata storeA_reachable eq_refl)
    as [st1 [entry [Has [_ [Hfacts _]]]]].
  exists st1, entry. split; [exact Has|]. split; [|exact Hfacts].
  injection Has as _ <-. reflexivity.
Defined.

Lemma store_retract_forgets_one_identity_witness :
  FactStorage.getFactEntry (fst (FactStorage.retract Sample.storeA 1)) 1 = None
  /\ forall f, ~ In (1, f) (FactStorage.getFactsByType
                              (fst (FactStorage.retract Sample.storeA 1)) "a").
Proof.
  destruct (store_retract_forgets_one_identity Sample.storeA 1 storeA_reachable)
    as [_ [_ [Hgone [_ [Hunlisted _]]]]].
  split; [exact Hgone|]. intros f. apply Hunlisted.
Defined.

(** ** More on the pattern matcher *)

Section MatcherBindings.
Variable h : Host.

Lemma obj_has_set_mono (b : bindings) (k k' : string) (v : value) :
  obj_has b k = true -> obj_has (obj_set b k' v) k = true.
Proof.
  unfold obj_has. intros H. destruct (String.eqb k' k) eqn:E.
  - apply String.eqb_eq in E. subst. now rewrite assoc_set_same.
  - rewrite assoc_set_other; [exact H|]. intros ->. rewrite String.eqb_refl in E. discriminate.
Qed.

(** No key of [b] is missing from [b']. *)
Local Abbreviation keeps_keys := (fun b b' : bindings =>
  forall k, obj_has b k = true -> obj_has b' k = true).

Section Loops.
Variable rec : value -> value -> bindings -> option match_result.
Hypothesis rec_keeps :
  forall p f b r, rec p f b = Some r -> keeps_keys b (result_bindings r).

Lemma match_positional_keeps (ps fact : list value) :
  forall idx b r,
    match_positional rec ps fact idx b = Some r -> keeps_keys b (result_bindings r).
Proof.
  induction ps as [|p ps IH]; intros idx b r; cbn [match_positional].
  - intros H. injection H as <-. auto.
  - destruct (rec p (nth idx fact VUndef) b) as [r1|] eqn:R; [|discriminate].
    destruct (isMatch r1).
    + intros H k Hk. apply (IH _ _ _ H). now apply (rec_keeps _ _ _ _ R).
    + intros H. injection H as <-. cbn [result_bindings]. now apply (rec_keeps _ _ _ _ R).
Qed.

Lemma match_keys_keeps (pattern : fields) (fact : value) (ks : list string) :
  forall b r,
    match_keys rec ks pattern fact b = Some r -> keeps_keys b (result_bindings r).
Proof.
  induction ks as [|key ks IH]; intros b r; cbn [match_keys].
  - intros H. injection H as <-. auto.
  - destruct (negb (hasOwnProperty fact key)); [intros H; injection H as <-; auto|].
    destruct (rec (obj_get pattern key) (get_prop fact key) b) as [r1|] eqn:R; [|discriminate].
    destruct (isMatch r1).
    + intros H k Hk. apply (IH _ _ H). now apply (rec_keeps _ _ _ _ R).
    + intros H. injection H as <-. cbn [result_bindings]. now apply (rec_keeps _ _ _ _ R).
Qed.

End Loops.

Lemma match_keeps (depth : nat) :
  forall p f b r, match_ h depth p f b = Some r -> keeps_keys b (result_bindings r).
Proof.
  induction depth as [|depth IH]; intros p f b r; [discriminate|].
  cbn [match_]. destruct (is_ANY p); [intros H; injection H as <-; auto|].
  destruct p as [| | | |s|n|fn|ps|pfs]; try (intros H; injection H as <-; auto; fail).
  - destruct (startsWith s "?"); [|intros H; injection H as <-; auto].
    destruct (negb (is_undefined (obj_get b s))); [apply IH|].
    intros H. injection H as <-. cbn [result_bindings]. intros k. apply obj_has_set_mono.
  - destruct (call_fn h fn f); intros H; injection H as <-; auto.
  - destruct f as [| | | | | | |fs|]; try (intros H; injection H as <-; auto; fail).
    destruct (findIndex is_rest ps) as [i|].
    + destruct (1 <? _); [intros H; injection H as <-; auto|].
      destruct (_ <? _); [intros H; injection H as <-; auto|].
      destruct (match_positional (match_ h depth) (firstn i ps) fs 0 b) as [rh|] eqn:Rh;
        [|discriminate].
      pose proof (match_positional_keeps _ IH _ _ _ _ _ Rh) as Kh.
      destruct (negb (isMatch rh)); [intros H; injection H as <-; auto|].
      destruct (match_positional (match_ h depth) (skipn (i + 1) ps) fs _ (result_bindings rh))
        as [rt|] eqn:Rt; [|discriminate].
      pose proof (match_positional_keeps _ IH _ _ _ _ _ Rt) as Kt.
      destruct (negb (isMatch rt)); intros H; injection H as <-; cbn [result_bindings].
      * auto.
      * intros k Hk. apply obj_has_set_mono. auto.
    + destruct (negb (_ =? _)); [intros H; injection H as <-; auto|].
      apply (match_positional_keeps _ IH).
  - destruct (negb (is_object f)); [intros H; injection H as <-; auto|].
    apply (match_keys_keeps _ IH).
Qed.

(** X4. Matching never takes a binding away: whatever the pattern, the
    value and the outcome, every variable bound before the call is still
    bound in the bindings the call returns. *)
Theorem match_keeps_bound_keys :
  forall (depth : nat) (pattern fact : value) (b : bindings) (r : match_result),
    match_ h depth pattern fact b = Some r ->
    forall k, obj_has b k = true -> obj_has (result_bindings r) k = true.
Proof. intros depth pattern fact b r H. exact (match_keeps depth _ _ _ _ H). Qed.

(** X5. A variable bound to its own name is never resolved: the matcher
    follows the binding to the same variable again and again, and the call
    ends in the stack overflow, whatever the value it is matched against. *)
Theorem match_self_bound_variable_overflows :
  forall (depth : nat) (name : string) (v : value) (b : bindings),
    obj_get b ("?" ++ name) = VStr ("?" ++ name) ->
    match_ h depth (VStr ("?" ++ name)) v b = None.
Proof.
  induction depth as [|depth IH]; intros name v b Hb; [reflexivity|].
  cbn [match_ is_ANY]. rewrite startsWith_question, Hb. cbn [is_undefined negb].
  now apply IH.
Qed.

(** X6. The rest variable of an array pattern is bound without looking at
    what it was bound to: whenever a pattern with one rest marker matches,
    the rest variable holds the slice between head and tail in the bindings
    returned, whatever it held before and whatever head and tail bound. *)
Theorem match_rest_variable_rebound :
  forall (depth : nat) (head tail fs : list value) (name : string) (b : bindings)
         (r : match_result),
    existsb is_rest head = false -> existsb is_rest tail = false ->
    match_ h (S depth) (VArr (head ++ VStr ("..." ++ name) :: tail)) (VArr fs) b = Some r ->
    isMatch r = true ->
    obj_get (result_bindings r) name
    = VArr (slice (List.length head) (List.length fs - List.length tail) fs).
Proof.
  intros depth head tail fs name b r Hh Ht.
  cbn [match_ is_ANY].
  rewrite findIndex_rest_at by (assumption || apply is_rest_marker).
  rewrite filter_app. cbn [filter]. rewrite is_rest_marker.
  rewrite !filter_rest_none by assumption. cbn [app List.length].
  replace (1 <? 1) with false by reflexivity.
  rewrite firstn_app, Nat.sub_diag, firstn_all, firstn_O, app_nil_r.
  replace (List.length head + 1) with (S (List.length head)) by lia.
  rewrite app_nth2 by lia. rewrite Nat.sub_diag. cbn [nth].
  assert (Hsk : skipn (S (List.length head)) (head ++ VStr ("..." ++ name) :: tail) = tail).
  { rewrite skipn_app. rewrite skipn_all2 by lia.
    replace (S (List.length head) - List.length head) with 1 by lia. reflexivity. }
  rewrite Hsk. rewrite rest_variable_name.
  destruct (_ <? _); [intros H; injection H as <-; discriminate|].
  destruct (match_positional _ head fs 0 b) as [rh|]; [|discriminate].
  destruct (negb (isMatch rh)); [intros H; injection H as <-; discriminate|].
  destruct (match_positional _ tail fs _ _) as [rt|]; [|discriminate].
  destruct (negb (isMatch rt)); [intros H; injection H as <-; discriminate|].
  intros H _. injection H as <-. cbn [result_bindings]. apply obj_get_set_same.
Qed.

Lemma match_literal_result (depth : nat) (p v : value) (b : bindings) (r : match_result) :
  is_literal p = true -> match_ h depth p v b = Some r -> isMatch r = Object_is p v.
Proof.
  intros Hl. destruct depth as [|depth]; [discriminate|].
  destruct p; simpl in Hl; try discriminate; cbn [match_ is_ANY];
    try (intros H; injection H as <-; reflexivity).
  - apply negb_true_iff in Hl. rewrite Hl. intros H. now injection H as <-.
  - destruct n; [discriminate|]. intros H. now injection H as <-.
Qed.

Lemma match_keys_sound (depth : nat) (pfs : fields) (fact : value) (ks : list string) :
  forall b r,
    match_keys (match_ h depth) ks pfs fact b = Some r -> isMatch r = true ->
    forall k, In k ks ->
      hasOwnProperty fact k = true
      /\ (is_literal (obj_get pfs k) = true -> get_prop fact k = obj_get pfs k).
Proof.
  induction ks as [|key ks IH]; intros b r; cbn [match_keys]; [intros _ _ k []|].
  destruct (hasOwnProperty fact key) eqn:Hown; cbn [negb];
    [|intros H; injection H as <-; discriminate].
  destruct (match_ h depth (obj_get pfs key) (get_prop fact key) b) as [r1|] eqn:R;
    [|discriminate].
  destruct (isMatch r1) eqn:M1; [|intros H; injection H as <-; discriminate].
  intros H Hr k [<-|Hin]; [|now apply (IH _ _ H Hr)].
  split; [exact Hown|]. intros Hl.
  rewrite (match_literal_result _ _ _ _ _ Hl R) in M1.
  now apply Object_is_literal_eq in M1.
Qed.

(** X7. An object pattern that matches says something of the fact: the
    fact is an object (or an array) that owns every key of the pattern, and
    at every key where the pattern holds a literal the fact holds that very
    value. *)
Theorem match_object_pattern_sound :
  forall (depth : nat) (pfs : fields) (fact : value) (b : bindings) (r : match_result),
    match_ h depth (VObj pfs) fact b = Some r ->
    isMatch r = true ->
    is_object fact = true
    /\ forall k, In k (keys pfs) ->
         hasOwnProperty fact k = true
         /\ (is_literal (obj_get pfs k) = true -> get_prop fact k = obj_get pfs k).
Proof.
  intros [|depth] pfs fact b r; [discriminate|]. cbn [match_ is_ANY].
  destruct (is_object fact); cbn [negb]; [|intros H; injection H as <-; discriminate].
  intros H Hr. split; [reflexivity|]. now apply (match_keys_sound depth pfs fact _ _ _ H Hr).
Qed.

End MatcherBindings.

Lemma match_keeps_bound_keys_witness :
  obj_has [("?y", num 1); ("?x", num 5)] "?y" = true.
Proof.
  refine (match_keeps_bound_keys sampleHost 2 (VStr "?x") (num 5) [("?y", num 1)]
            (MatchResult true [("?y", num 1); ("?x", num 5)]) _ "?y" _); reflexivity.
Defined.

Lemma match_self_bound_variable_overflows_witness :
  match_ sampleHost 1000 (VStr "?x") (num 5) [("?x", VStr "?x")] = None.
Proof.
  apply (match_self_bound_variable_overflows sampleHost 1000 "x" (num 5)). reflexivity.
Defined.

Lemma match_rest_variable_rebound_witness :
  obj_get [("?r", VArr [num 2; num 3]); ("?a", num 1)] "?r" = VArr [num 2; num 3].
Proof.
  refine (match_rest_variable_rebound sampleHost 1 [VStr "?a"] [] [num 1; num 2; num 3]
            "?r" [("?r", VStr "old")]
            (MatchResult true [("?r", VArr [num 2; num 3]); ("?a", num 1)]) _ _ _ _);
    reflexivity.
Defined.

Lemma match_object_pattern_sound_witness :
  is_object (VObj [("type", VStr "user"); ("age", num 30)]) = true
  /\ forall k, In k ["type"; "age"] ->
       hasOwnProperty (VObj [("type", VStr "user"); ("age", num 30)]) k = true
       /\ (is_literal (obj_get [("type", VStr "user"); ("age", VStr "?a")] k) = true ->
           get_prop (VObj [("type", VStr "user"); ("age", num 30)]) k
           = obj_get [("type", VStr "user"); ("age", VStr "?a")] k).
Proof.
  refine (match_object_pattern_sound sampleHost 2
            [("type", VStr "user"); ("age", VStr "?a")]
            (VObj [("type", VStr "user"); ("age", num 30)]) []
            (MatchResult true [("?a", num 30)]) _ _); reflexivity.
Defined.

(** ** The guard interpreter *)

Section GuardInterpreter.
Import Eff GuardParts.
Variable h : Host.

Lemma value_nested_ind (P : value -> Prop) :
  P VUndef -> P VNull -> (forall b, P (VBool b)) -> (forall x, P (VNum x)) ->
  (forall s, P (VStr s)) -> (forall n, P (VSym n)) -> (forall n, P (VFun n)) ->
  (forall xs, Forall P xs -> P (VArr xs)) ->
  (forall fs, Forall (fun kv => P (snd kv)) fs -> P (VObj fs)) ->
  forall v, P v.
Proof.
  intros HU HN HB HX HS HY HF HA HO.
  fix IH 1.
  intros [| |b|x|s|n|n|xs|fs];
    [exact HU|exact HN|apply HB|apply HX|apply HS|apply HY|apply HF| |].
  - apply HA. induction xs as [|x xs IHxs]; constructor; [apply IH|exact IHxs].
  - apply HO. induction fs as [|[k v] fs IHfs]; constructor; [apply IH|exact IHfs].
Qed.

Lemma executeGuard_unfold (op : value) (args : list value) (b : bindings)
    (rid : option string) :
  Guard.executeGuard h (VArr (op :: args)) b rid
  = (let is_op := fun (name : string) =>
       match op with VStr o => String.eqb o name | _ => false end in
     if is_op "path" || is_op "pathOr" then
       let isOr := is_op "pathOr" in
       let defaultValue := if isOr then nth 0 args VUndef else VUndef in
       let pathSegments := if isOr then skipn 2 args else skipn 1 args in
       bind (resolve_nth h b args (if isOr then 1 else 0)) (fun obj =>
       let r := Guard.walk_path h obj pathSegments in
       ret (if is_undefined r && isOr then defaultValue else r))
     else if is_op "isNil" then
       if negb (List.length args =? 1)
       then throw (GuardTypeError (WrongArity "isNil" (List.length args)))
       else bind (resolve_nth h b args 0) (fun val => ret (VBool (is_nullish val)))
     else if is_op "isDefined" then
       if negb (List.length args =? 1)
       then throw (GuardTypeError (WrongArity "isDefined" (List.length args)))
       else bind (resolve_nth h b args 0) (fun val => ret (VBool (negb (is_nullish val))))
     else if is_op "hasSize" then
       if negb (List.length args =? 2)
       then throw (GuardTypeError (WrongArity "hasSize" (List.length args)))
       else
         bind (resolve_nth h b args 0) (fun target =>
         bind (resolve_nth h b args 1) (fun sizeMatcher =>
         let len := get_prop target "length" in
         let size := if is_nullish len then get_prop target "size" else len in
         match size with
         | VNum _ =>
             match sizeMatcher with
             | VFun f =>
                 match call_fn h f size with
                 | Some r => ret r
                 | None => throw (UserError "Error")
                 end
             | _ => ret (VBool (Guard.strict_eq h size sizeMatcher))
             end
         | _ => ret (VBool false)
         end))
     else
       bind (resolve_all h b args) (fun resolvedArgs =>
       Guard.apply_operator h (VArr (op :: args)) b rid op resolvedArgs)).
Proof. reflexivity. Qed.

(** A computation reports at most the error it raises: nothing when it
    returns, nothing or one guard-error event carrying the exception and
    the bindings [b] when it throws. *)
Local Abbreviation quiet := (fun (A : Type) (b : bindings) (c : M A) =>
  match c with
  | (evs, inl _) => evs = []
  | (evs, inr ex) => evs = [] \/ exists rid g, evs = [engine_guardError rid g ex b]
  end).

Lemma quiet_bind (A B : Type) (b : bindings) (c : M A) (k : A -> M B) :
  quiet A b c -> (forall a, quiet B b (k a)) -> quiet B b (bind c k).
Proof.
  destruct c as [evs [a|ex]]; cbn [bind].
  - intros -> Hk. specialize (Hk a). destruct (k a) as [evs' r]. exact Hk.
  - intros H _. exact H.
Qed.

Lemma quiet_ret (A : Type) (b : bindings) (a : A) : quiet A b (ret a).
Proof. reflexivity. Qed.

Lemma quiet_throw (A : Type) (b : bindings) (ex : exn) : quiet A b (throw ex).
Proof. now left. Qed.

Lemma quiet_report (A : Type) (b : bindings) (rid : option string) (g : value) (ex : exn) :
  quiet A b (bind (emit (engine_guardError rid g ex b)) (fun _ => throw ex)).
Proof. right. now exists rid, g. Qed.

Lemma expect_quiet (guard : value) (b : bindings) (rid : option string) (o : string)
    (operands : list value) (n : option nat) :
  quiet unit b (Guard.expectNumericOperands guard b rid o operands n).
Proof.
  unfold Guard.expectNumericOperands.
  destruct n as [n|]; [destruct (negb _); [apply quiet_report|]|];
    (destruct (Guard.first_non_numeric operands 0); [apply quiet_report|apply quiet_ret]).
Qed.

Lemma apply_operator_quiet (guard : value) (b : bindings) (rid : option string)
    (op : value) (resolvedArgs : list value) :
  quiet value b (Guard.apply_operator h guard b rid op resolvedArgs).
Proof.
  unfold Guard.apply_operator.
  destruct op; try apply quiet_report.
  repeat match goal with
         | |- context [if String.eqb s ?o then _ else _] => destruct (String.eqb s o)
         end;
    try apply quiet_report; try apply quiet_ret;
    try (apply quiet_bind; [apply expect_quiet|intros _; try apply quiet_ret]).
  - destruct (existsb _ _); [apply quiet_ret|].
    apply quiet_bind; [apply expect_quiet|intros _; apply quiet_ret].
  - destruct (map Guard.numeric resolvedArgs) as [|x [|y l]]; apply quiet_ret.
  - destruct (num_eq _ _); [apply quiet_report|apply quiet_ret].
Qed.

Lemma resolveGuardValue_quiet (b : bindings) (v : value) :
  (forall rid, quiet value b (Guard.executeGuard h v b rid)) ->
  quiet value b (resolveGuardValue h b v).
Proof.
  intros Hv. destruct v; try apply quiet_ret; cbn [resolveGuardValue].
  - destruct (startsWith s "?"); apply quiet_ret.
  - apply Hv.
Qed.

Lemma resolve_nth_quiet (b : bindings) (args : list value) :
  Forall (fun v => forall b rid, quiet value b (Guard.executeGuard h v b rid)) args ->
  forall i, quiet value b (resolve_nth h b args i).
Proof.
  induction 1 as [|v args Hv _ IH]; intros i; [destruct i; apply quiet_ret|].
  destruct i as [|i]; cbn [resolve_nth]; [|apply IH].
  apply resolveGuardValue_quiet. apply Hv.
Qed.

Lemma resolve_all_quiet (b : bindings) (args : list value) :
  Forall (fun v => forall b rid, quiet value b (Guard.executeGuard h v b rid)) args ->
  quiet (list value) b (GuardParts.resolve_all h b args).
Proof.
  induction 1 as [|v args Hv _ IH]; [apply quiet_ret|].
  cbn [GuardParts.resolve_all]. apply quiet_bind.
  - apply resolveGuardValue_quiet. apply Hv.
  - intros x. apply quiet_bind; [exact IH|intros xs; apply quiet_ret].
Qed.

Lemma executeGuard_quiet (guard : value) :
  forall b rid, quiet value b (Guard.executeGuard h guard b rid).
Proof.
  induction guard as [| |x|x|s|n|n|xs IH|fs _] using value_nested_ind; intros b rid;
    try (right; eexists; eexists; reflexivity).
  destruct xs as [|op args]; [right; eexists; eexists; reflexivity|].
  inversion IH as [|? ? _ Hargs]; subst.
  rewrite executeGuard_unfold. cbv zeta.
  destruct (_ || _).
  { apply quiet_bind; [now apply resolve_nth_quiet|intros obj; apply quiet_ret]. }
  destruct (match op with VStr o => String.eqb o "isNil" | _ => false end).
  { destruct (negb _); [apply quiet_throw|].
    apply quiet_bind; [now apply resolve_nth_quiet|intros obj; apply quiet_ret]. }
  destruct (match op with VStr o => String.eqb o "isDefined" | _ => false end).
  { destruct (negb _); [apply quiet_throw|].
    apply quiet_bind; [now apply resolve_nth_quiet|intros obj; apply quiet_ret]. }
  destruct (match op with VStr o => String.eqb o "hasSize" | _ => false end).
  { destruct (negb _); [apply quiet_throw|].
    apply quiet_bind; [now apply resolve_nth_quiet|intros target].
    apply quiet_bind; [now apply resolve_nth_quiet|intros sizeMatcher].
    cbv zeta. destruct (if is_nullish _ then _ else _); try apply quiet_ret.
    destruct sizeMatcher; try apply quiet_ret.
    destruct (call_fn h _ _); [apply quiet_ret|apply quiet_throw]. }
  apply quiet_bind; [now apply resolve_all_quiet|intros resolvedArgs].
  apply apply_operator_quiet.
Qed.

(** X8. A guard reports at most the error it raises.  Evaluating a guard
    that returns a value emits no event; a guard that throws has emitted
    either nothing or exactly one guard-error event, and that event carries
    the exception thrown and the bindings the guard was evaluated in. *)
Theorem guard_reports_only_its_error :
  forall (guard : value) (b : bindings) (rid : option string),
    match Guard.executeGuard h guard b rid with
    | (evs, inl _) => evs = []
    | (evs, inr ex) => evs = [] \/ exists rid' g, evs = [engine_guardError rid' g ex b]
    end.
Proof. intros guard b rid. apply executeGuard_quiet. Qed.

Lemma resolve_all_plain (b : bindings) (args : list value) :
  existsb is_array args = false ->
  GuardParts.resolve_all h b args = ret (map (Guard.resolve_plain b) args).
Proof.
  induction args as [|v args IH]; [reflexivity|]. cbn [existsb]. intros H.
  apply orb_false_iff in H. destruct H as [Hv Hargs].
  cbn [GuardParts.resolve_all map]. rewrite (IH Hargs).
  destruct v; try discriminate; try reflexivity.
  cbn [resolveGuardValue Guard.resolve_plain]. now destruct (startsWith s "?").
Qed.

Lemma resolve_nth_plain (b : bindings) (args : list value) (i : nat) :
  existsb is_array args = false ->
  resolve_nth h b args i = ret (Guard.resolve_plain b (nth i args VUndef)).
Proof.
  revert i. induction args as [|v args IH]; intros i; [now destruct i|].
  cbn [existsb]. intros H. apply orb_false_iff in H. destruct H as [Hv Hargs].
  destruct i as [|i]; cbn [resolve_nth nth]; [|now apply IH].
  destruct v; try discriminate; try reflexivity.
  cbn [resolveGuardValue Guard.resolve_plain]. now destruct (startsWith s "?").
Qed.

(** X9. The comparison guards compare numbers and nothing else.  With two
    operands that resolve to numbers or booleans (a boolean counting as 1
    or 0) the guard returns the comparison and emits nothing; an operand
    that resolves to anything else, a numeric string or an unbound variable
    included, is not coerced: the guard reports and raises a type error
    that names the first such operand; and so does any number of operands
    other than two. *)
Theorem guard_comparison_requires_numbers :
  forall (o : string) (args : list value) (b : bindings) (rid : option string),
    In o [">"; ">="; "<"; "<="] ->
    existsb is_array args = false ->
    let guard := VArr (VStr o :: args) in
    let resolved := map (Guard.resolve_plain b) args in
    let x := Guard.numeric (nth 0 resolved VUndef) in
    let y := Guard.numeric (nth 1 resolved VUndef) in
    let report := fun f =>
      ([engine_guardError rid guard (GuardTypeError f) b], inr (GuardTypeError f)) in
    (List.length args <> 2 ->
     Guard.executeGuard h guard b rid = report (WrongArity o (List.length args)))
    /\ (List.length args = 2 ->
        forall i, Guard.first_non_numeric resolved 0 = Some i ->
        Guard.executeGuard h guard b rid = report (NonNumericOperand o i))
    /\ (List.length args = 2 ->
        forallb Guard.is_numeric_operand resolved = true ->
        Guard.executeGuard h guard b rid
        = ([], inl (VBool (if String.eqb o ">" then num_lt y x
                           else if String.eqb o ">=" then SFleb y x
                           else if String.eqb o "<" then num_lt x y
                           else SFleb x y)))).
Proof.
  intros o args b rid Ho Hplain guard resolved x y report.
  assert (Hrun : Guard.executeGuard h guard b rid
                 = Guard.apply_operator h guard b rid (VStr o) resolved).
  { unfold guard. rewrite executeGuard_unfold. cbv zeta.
    rewrite resolve_all_plain by assumption. fold resolved.
    destruct Ho as [<-|[<-|[<-|[<-|[]]]]]; cbn [orb String.eqb Ascii.eqb Bool.eqb];
      cbn [bind ret app]; now destruct (Guard.apply_operator _ _ _ _ _ _). }
  assert (Hlen : List.length resolved = List.length args) by apply length_map.
  assert (Hall : forallb Guard.is_numeric_operand resolved = true ->
                 Guard.first_non_numeric resolved 0 = None).
  { clear. generalize 0. induction resolved as [|v l IH]; intros n; [reflexivity|].
    cbn [forallb Guard.first_non_numeric]. intros H. apply andb_prop in H.
    destruct H as [-> H]. now apply IH. }
  rewrite Hrun. unfold Guard.apply_operator, Guard.expectNumericOperands.
  rewrite Hlen. fold x. fold y.
  split; [|split].
  - intros Hne. apply Nat.eqb_neq in Hne. rewrite Hne. cbn [negb].
    destruct Ho as [<-|[<-|[<-|[<-|[]]]]]; reflexivity.
  - intros He i Hi. rewrite He, Hi. cbn [Nat.eqb negb].
    destruct Ho as [<-|[<-|[<-|[<-|[]]]]]; reflexivity.
  - intros He Hnum. rewrite He, (Hall Hnum). cbn [Nat.eqb negb].
    change (nth 0 (map Guard.numeric resolved) NaN)
      with (nth 0 (map Guard.numeric resolved) (Guard.numeric VUndef)).
    change (nth 1 (map Guard.numeric resolved) NaN)
      with (nth 1 (map Guard.numeric resolved) (Guard.numeric VUndef)).
    rewrite !map_nth. fold x. fold y.
    destruct Ho as [<-|[<-|[<-|[<-|[]]]]]; reflexivity.
Qed.


End GuardInterpreter.

Lemma guard_comparison_requires_numbers_witness :
  Guard.executeGuard sampleHost (VArr [VStr ">"; VStr "?age"; num 18])
    [("?age", VStr "21")] (Some "R")
  = ([engine_guardError (Some "R") (VArr [VStr ">"; VStr "?age"; num 18])
        (GuardTypeError (NonNumericOperand ">" 1)) [("?age", VStr "21")]],
     inr (GuardTypeError (NonNumericOperand ">" 1)))
  /\ Guard.executeGuard sampleHost (VArr [VStr ">"; VStr "?age"; num 18])
       [("?age", num 21)] (Some "R")
     = ([], inl (VBool true)).
Proof.
  split.
  - refine (proj1 (proj2 (guard_comparison_requires_numbers sampleHost ">"
                            [VStr "?age"; num 18] [("?age", VStr "21")] (Some "R") _ _))
              _ 1 _); [now left|reflexivity|reflexivity|reflexivity].
  - refine (proj2 (proj2 (guard_comparison_requires_numbers sampleHost ">"
                            [VStr "?age"; num 18] [("?age", num 21)] (Some "R") _ _))
              _ _); [now left|reflexivity|reflexivity|reflexivity].
Defined.


(** ** Definitions and facts of the engine *)

Section EngineOperations.
Import Engine.
Variable h : Host.

Lemma has_false_get (V : Type) (m : JSMap.t string V) (k : string) :
  JSMap.has String.eqb m k = false -> JSMap.get String.eqb m k = None.
Proof. unfold JSMap.has. now destruct (JSMap.get String.eqb m k). Qed.

(** X11. Definitions are kept by identity.  A definition whose identity is
    blank is refused with an error event.  Otherwise [addDefinition] makes
    the identity resolve to the definition and leaves the others alone; a
    definition that replaces one of the same identity takes its place in
    the order of the table, a new one goes last; and [retractDefinition]
    of that identity answers [true] and makes it resolve to nothing, while
    for an identity the table does not have it answers [false], reports an
    error and changes nothing else. *)
Theorem definition_add_retract_round_trip :
  forall (e : t) (d : definition),
    NoDup (map fst (definitions e)) ->
    (is_blank (def_id d) = true -> addDefinition e d = emit e engine_error)
    /\ (is_blank (def_id d) = false ->
        let e1 := addDefinition e d in
        JSMap.get String.eqb (definitions e1) (def_id d) = Some d
        /\ (forall id, id <> def_id d ->
              JSMap.get String.eqb (definitions e1) id
              = JSMap.get String.eqb (definitions e) id)
        /\ (JSMap.has String.eqb (definitions e) (def_id d) = true ->
            map fst (definitions e1) = map fst (definitions e))
        /\ (JSMap.has String.eqb (definitions e) (def_id d) = false ->
            definitions e1 = definitions e ++ [(def_id d, d)])
        /\ NoDup (map fst (definitions e1))
        /\ snd (retractDefinition e1 (def_id d)) = true
        /\ JSMap.get String.eqb (definitions (fst (retractDefinition e1 (def_id d))))
             (def_id d) = None
        /\ (JSMap.has String.eqb (definitions e) (def_id d) = false ->
            definitions (fst (retractDefinition e1 (def_id d))) = definitions e))
    /\ (forall id,
          JSMap.has String.eqb (definitions e) id = false ->
          retractDefinition e id = (emit e engine_error, false)).
Proof.
  intros e d Hnd. split; [|split].
  - intros Hb. unfold addDefinition. now rewrite Hb.
  - intros Hb e1.
    assert (Hdefs : definitions e1 = JSMap.set String.eqb (definitions e) (def_id d) d).
    { unfold e1, addDefinition. now rewrite Hb. }
    assert (Hget : JSMap.get String.eqb (definitions e1) (def_id d) = Some d).
    { rewrite Hdefs. apply (map_get_set_same _ _ String.eqb string_eqb_eq). }
    assert (Hnd1 : NoDup (map fst (definitions e1))).
    { rewrite Hdefs. now apply (map_set_keys_NoDup _ _ String.eqb string_eqb_eq). }
    assert (Hret : retractDefinition e1 (def_id d)
                   = (emit (with_definitions e1
                              (JSMap.delete String.eqb (definitions e1) (def_id d)))
                        (engine_definitionRetracted (def_id d)), true)).
    { unfold retractDefinition, JSMap.has. now rewrite Hget. }
    split; [exact Hget|]. split; [|split; [|split; [|split; [exact Hnd1|split; [|split]]]]].
    + intros id Hne. rewrite Hdefs.
      apply (map_get_set_other _ _ String.eqb string_eqb_eq). congruence.
    + intros Hhas. rewrite Hdefs, map_keys_set. now rewrite Hhas.
    + intros Hhas. rewrite Hdefs. apply map_set_fresh. now apply has_false_get.
    + now rewrite Hret.
    + rewrite Hret. cbn [fst emit with_definitions definitions].
      now apply (map_get_delete_same _ _ String.eqb string_eqb_eq).
    + intros Hhas. rewrite Hret. cbn [fst emit with_definitions definitions].
      rewrite Hdefs. rewrite (map_set_fresh _ _ String.eqb) by now apply has_false_get.
      apply (map_delete_snoc _ _ String.eqb string_eqb_eq). now apply has_false_get.
  - intros id Hhas. unfold retractDefinition. now rewrite Hhas.
Qed.

(** X12. Retracting a fact twice is retracting it once: the second
    [retractFact] of an identity, like the [retractFact] of an identity that
    never resolved, changes nothing: no event, no task. *)
Theorem retractFact_idempotent :
  forall (e : t) (id : nat),
    FactStorage.wf (factStorage e) ->
    retractFact (retractFact e id) id = retractFact e id
    /\ (FactStorage.getFactEntry (factStorage e) id = None -> retractFact e id = e).
Proof.
  intros e id Hwf. split; [|apply retractFact_absent].
  apply retractFact_absent.
  destruct (retract_spec (factStorage e) id Hwf) as [_ [Hsnd [Hgone _]]].
  cbn zeta in Hgone. unfold retractFact.
  destruct (FactStorage.retract (factStorage e) id) as [fs' [entry|]] eqn:R.
  - cbn [fst] in Hgone. exact Hgone.
  - cbn [snd] in Hsnd. now symmetry.
Qed.

Lemma assoc_delete_other (fs : fields) (k k' : string) :
  k <> k' -> assoc (obj_delete fs k) k' = assoc fs k'.
Proof.
  intros Hne. induction fs as [|[k0 v0] fs IH]; [reflexivity|]. cbn [obj_delete assoc].
  destruct (String.eqb k0 k) eqn:E.
  - apply String.eqb_eq in E. subst k0.
    destruct (String.eqb k k') eqn:E'; [|exact IH].
    apply String.eqb_eq in E'. contradiction.
  - cbn [assoc]. now rewrite IH.
Qed.

Lemma obj_get_spread_absent (b : fields) :
  forall (a : fields) (k : string),
    obj_has b k = false -> obj_get (obj_spread a b) k = obj_get a k.
Proof.
  unfold obj_spread, obj_has.
  induction b as [|[k0 v0] b IH]; intros a k; [reflexivity|]. cbn [assoc fold_left fst snd].
  destruct (String.eqb k0 k) eqn:E; [discriminate|]. intros H.
  rewrite IH by exact H. apply obj_get_set_other.
  intros ->. rewrite String.eqb_refl in E. discriminate.
Qed.

Lemma obj_get_spread_present (b : fields) :
  forall (a : fields) (k : string) (v : value),
    NoDup (keys b) -> assoc b k = Some v -> obj_get (obj_spread a b) k = v.
Proof.
  induction b as [|[k0 v0] b IH]; intros a k v Hnd; [discriminate|].
  cbn [assoc]. inversion Hnd as [|? ? Hnotin Hnd']; subst.
  change (obj_spread a ((k0, v0) :: b)) with (obj_spread (obj_set a k0 v0) b).
  destruct (String.eqb k0 k) eqn:E.
  - apply String.eqb_eq in E. subst k0. intros H. injection H as ->.
    rewrite obj_get_spread_absent; [apply obj_get_set_same|].
    unfold obj_has. destruct (assoc b k) eqn:G; [|reflexivity].
    exfalso. apply Hnotin. clear - G. induction b as [|[k1 v1] b IHb]; [discriminate|].
    cbn [assoc] in G. cbn. destruct (String.eqb k1 k) eqn:E1.
    + left. now apply String.eqb_eq.
    + right. now apply IHb.
  - intros H. now apply IH.
Qed.

(** X13. [modifyFact] replaces a fact by a new one.  For an identity that
    resolves to a fact of a non-blank type, the type passing the schema
    step: the old identity resolves to nothing afterwards; the new fact is
    stored under the next identity with the old type, with the value of the
    updates at every key they have and the old value at every other key,
    and with empty metadata, whatever the metadata of the old entry were
    (a logical fact stops being logical); the agenda receives the retract
    task of the old fact and then the assert task of the new one; every
    other identity resolves as before.  For an identity that resolves to
    nothing only an error is reported. *)
Theorem modifyFact_replaces_fact :
  forall (e : t) (id : nat) (entry : FactStorage.FactEntry) (kind : string)
         (updates : fields),
    FactStorage.wf (factStorage e) ->
    FactStorage.getFactEntry (factStorage e) id = Some entry ->
    obj_get (FactStorage.fact entry) "type" = VStr kind ->
    is_blank kind = false ->
    let newData :=
      obj_set (obj_delete (obj_spread (FactStorage.fact entry) updates) "_id")
        "type" (VStr kind) in
    schema_validate h kind newData = Some newData ->
    let id' := S (FactStorage.factIdCounter (factStorage e)) in
    let stored := obj_set newData "_id" (VNum (num_of_nat id')) in
    let e' := modifyFact h e id updates in
    FactStorage.getFactEntry (factStorage e') id = None
    /\ FactStorage.getFactEntry (factStorage e') id'
       = Some {| FactStorage.fact := stored; FactStorage.fact_id := id';
                 FactStorage.metadata := FactStorage.no_metadata |}
    /\ obj_get stored "type" = VStr kind
    /\ (forall k, k <> "type" -> k <> "_id" -> obj_has updates k = false ->
          obj_get stored k = obj_get (FactStorage.fact entry) k)
    /\ (forall k v, k <> "type" -> k <> "_id" -> NoDup (keys updates) ->
          assoc updates k = Some v -> obj_get stored k = v)
    /\ agenda e'
       = agenda e
         ++ [{| Agenda.task_type_of := Agenda.TRetract;
                Agenda.task_fact := FactStorage.fact entry;
                Agenda.task_fact_id := id |};
             {| Agenda.task_type_of := Agenda.TAssert;
                Agenda.task_fact := stored;
                Agenda.task_fact_id := id' |}]
    /\ (forall other, other <> id -> other <> id' ->
          FactStorage.getFactEntry (factStorage e') other
          = FactStorage.getFactEntry (factStorage e) other)
    /\ activations e' = activations e
    /\ (forall e0 id0 u,
          FactStorage.getFactEntry (factStorage e0) id0 = None ->
          modifyFact h e0 id0 u = emit e0 engine_error).
Proof.
  intros e id entry kind updates Hwf Hget Hkind Hblank newData Hschema id' stored e'.
  assert (Hid : FactStorage.fact_id entry = id) by (apply Hwf; exact Hget).
  destruct (retract_spec (factStorage e) id Hwf) as [Hcnt [Hsnd [Hgone [_ [Hother Hwf1]]]]].
  cbn zeta in *.
  assert (Hret : FactStorage.retract (factStorage e) id
                 = (fst (FactStorage.retract (factStorage e) id), Some entry)).
  { rewrite <- Hget, <- Hsnd. now destruct (FactStorage.retract (factStorage e) id). }
  set (st1 := fst (FactStorage.retract (factStorage e) id)) in *.
  assert (Htype : obj_get newData "type" = VStr kind) by apply obj_get_set_same.
  destruct (assert_accepts st1 newData kind FactStorage.no_metadata Htype Hwf1)
    as [st2 [Has [Hfresh [Hcnt2 [Hfacts2 [Hget2 [_ [Hkeep [Hold _]]]]]]]]].
  rewrite Hcnt in *. fold id' in Has, Hfresh, Hcnt2, Hfacts2, Hget2, Hkeep.
  fold stored in Has, Hfacts2, Hget2, Hkeep.
  assert (He' : e' = with_agenda
                       (emit (with_storage (retractFact e id) st2) (fact_asserted stored))
                       (Agenda.push (agenda (retractFact e id))
                          {| Agenda.task_type_of := Agenda.TAssert;
                             Agenda.task_fact := stored;
                             Agenda.task_fact_id := id' |})).
  { unfold e', modifyFact. rewrite Hget. cbv zeta. rewrite Hkind. fold newData.
    unfold assertFact.
    rewrite Htype, Hblank, Hschema.
    replace (factStorage (retractFact e id)) with st1
      by (unfold retractFact; now rewrite Hret).
    rewrite Has. reflexivity. }
  assert (Hst : factStorage e' = st2) by now rewrite He'.
  assert (Hag : agenda (retractFact e id)
                = agenda e ++ [{| Agenda.task_type_of := Agenda.TRetract;
                                  Agenda.task_fact := FactStorage.fact entry;
                                  Agenda.task_fact_id := id |}]).
  { unfold retractFact. rewrite Hret. cbn [agenda with_agenda emit with_storage Agenda.push].
    now rewrite Hid. }
  assert (Hneq : id <> id').
  { intros Heq. destruct Hwf as [Hle _].
    assert (id <= FactStorage.factIdCounter (factStorage e)); [|unfold id' in Heq; lia].
    apply Hle. apply (map_get_in_keys _ _ Nat.eqb nat_eqb_eq).
    unfold FactStorage.getFactEntry in Hget. congruence. }
  split; [|split; [|split; [|split; [|split; [|split; [|split; [|split]]]]]]].
  - rewrite Hst.
    destruct (FactStorage.getFactEntry st2 id) as [x|] eqn:G; [|reflexivity].
    exfalso. unfold FactStorage.getFactEntry in G, Hgone.
    rewrite Hfacts2 in G.
    rewrite (map_get_set_other _ _ Nat.eqb nat_eqb_eq) in G by congruence. congruence.
  - now rewrite Hst.
  - unfold stored. rewrite obj_get_set_other by discriminate. exact Htype.
  - intros k Hk1 Hk2 Hno. unfold stored, newData.
    rewrite !obj_get_set_other by congruence.
    unfold obj_get at 1. rewrite assoc_delete_other by congruence.
    now apply obj_get_spread_absent.
  - intros k v Hk1 Hk2 Hnd Hv. unfold stored, newData.
    rewrite !obj_get_set_other by congruence.
    unfold obj_get at 1. rewrite assoc_delete_other by congruence.
    now apply obj_get_spread_present.
  - rewrite He'. cbn [agenda with_agenda]. unfold Agenda.push. rewrite Hag.
    now rewrite <- app_assoc.
  - intros other Ho1 Ho2. rewrite Hst. rewrite <- (Hother other Ho1).
    destruct (FactStorage.getFactEntry st1 other) as [x|] eqn:G; [now apply Hold|].
    destruct (FactStorage.getFactEntry st2 other) as [x|] eqn:G2; [|reflexivity].
    exfalso. unfold FactStorage.getFactEntry in G, G2.
    rewrite Hfacts2 in G2.
    rewrite (map_get_set_other _ _ Nat.eqb nat_eqb_eq) in G2 by congruence. congruence.
  - rewrite He'. cbn [activations with_agenda emit with_storage].
    unfold retractFact. rewrite Hret. reflexivity.
  - intros e0 id0 u Hnone. unfold modifyFact. now rewrite Hnone.
Qed.

End EngineOperations.

Lemma definition_add_retract_round_trip_witness :
  JSMap.get String.eqb
    (Engine.definitions (Engine.addDefinition Engine.init (DRule Sample.ruleR1))) "R1"
  = Some (DRule Sample.ruleR1)
  /\ snd (Engine.retractDefinition
            (Engine.addDefinition Engine.init (DRule Sample.ruleR1)) "R1") = true.
Proof.
  destruct (definition_add_retract_round_trip Engine.init (DRule Sample.ruleR1)
              (NoDup_nil _)) as [_ [Hadd _]].
  destruct (Hadd eq_refl) as [Hget [_ [_ [_ [_ [Hret _]]]]]].
  split; [exact Hget|exact Hret].
Defined.

Lemma engineFired_store_wf : FactStorage.wf (Engine.factStorage Sample.engineFired).
Proof.
  split; [|split].
  - intros id [<-|[<-|[]]]; vm_compute; lia.
  - vm_compute. repeat constructor; cbn; intuition discriminate.
  - intros id entry. vm_compute. destruct id as [|[|[|id]]]; intros H;
      try discriminate; injection H as <-; reflexivity.
Qed.

Lemma retractFact_idempotent_witness :
  Engine.retractFact (Engine.retractFact Sample.engineFired 1) 1
  = Engine.retractFact Sample.engineFired 1.
Proof.
  exact (proj1 (retractFact_idempotent Sample.engineFired 1 engineFired_store_wf)).
Defined.

Lemma modifyFact_replaces_fact_witness :
  FactStorage.getFactEntry
    (Engine.factStorage (Engine.modifyFact sampleHost Sample.engineFired 2 [("n", num 2)])) 2
  = None
  /\ FactStorage.getFactEntry
       (Engine.factStorage (Engine.modifyFact sampleHost Sample.engineFired 2 [("n", num 2)])) 3
     = Some {| FactStorage.fact := [("type", VStr "b"); ("n", num 2); ("_id", num 3)];
               FactStorage.fact_id := 3;
               FactStorage.metadata := FactStorage.no_metadata |}.
Proof.
  destruct (modifyFact_replaces_fact sampleHost Sample.engineFired 2
              {| FactStorage.fact := [("type", VStr "b"); ("_id", num 2)];
                 FactStorage.fact_id := 2;
                 FactStorage.metadata := {| FactStorage.logical := true;
                                            FactStorage.producedBy := Some 1 |} |}
              "b" [("n", num 2)] engineFired_store_wf eq_refl eq_refl eq_refl eq_refl)
    as [Hgone [Hnew _]].
  split; [exact Hgone|exact Hnew].
Defined.

(** ** Reading the working memory *)

Section ReadingFacts.
Import Engine Facts.
Variable h : Host.
Variable depth : nat.

Lemma plainFact_is_object (f : fields) :
  to_boolean (Join.plainFact_of f) && is_object (Join.plainFact_of f) = true.
Proof.
  unfold Join.plainFact_of. destruct (is_object (obj_get f "fact")) eqn:E; [|reflexivity].
  now destruct (obj_get f "fact").
Qed.

Lemma candidates_all (l : list (nat * fields)) :
  filter (fun fact => to_boolean fact && is_object fact)
    (map (fun entry => Join.plainFact_of (snd entry)) l)
  = map (fun entry => Join.plainFact_of (snd entry)) l.
Proof.
  induction l as [|[id f] l IH]; [reflexivity|]. cbn [map filter snd].
  now rewrite plainFact_is_object, IH.
Qed.

Lemma filter_matching_sound (pattern : value) (candidates : list value) :
  forall kept,
    filter_matching h depth pattern candidates = inl kept ->
    forall f, In f kept ->
      In f candidates
      /\ exists r, match_ h depth pattern f [] = Some r /\ isMatch r = true.
Proof.
  induction candidates as [|c candidates IH]; intros kept; cbn [filter_matching].
  - intros H. injection H as <-. intros f [].
  - destruct (match_ h depth pattern c []) as [r|] eqn:R; [|discriminate].
    destruct (filter_matching h depth pattern candidates) as [kept'|]; [|discriminate].
    intros H. injection H as <-. intros f Hin.
    destruct (isMatch r) eqn:M.
    + destruct Hin as [<-|Hin].
      * split; [now left|]. now exists r.
      * destruct (IH kept' eq_refl f Hin) as [Hc Hm]. split; [now right|exact Hm].
    + destruct (IH kept' eq_refl f Hin) as [Hc Hm]. split; [now right|exact Hm].
Qed.

Lemma keys_delete (fs : fields) (k k' : string) :
  k' <> k -> In k' (keys fs) -> In k' (keys (obj_delete fs k)).
Proof.
  intros Hne. induction fs as [|[k0 v0] fs IH]; [intros []|]. cbn [keys map fst obj_delete].
  intros [->|Hin].
  - destruct (String.eqb k' k) eqn:E; [apply String.eqb_eq in E; contradiction|now left].
  - destruct (String.eqb k0 k); [now apply IH|right; now apply IH].
Qed.

(** X14. [getFacts] reads the type index.  Without a [type] that is a
    non-empty string it returns nothing, whatever the working memory holds;
    with a pattern that has just a [type] it returns every fact listed
    under that type, in the order of assertion; and with further fields
    every fact it returns is one of those, owns each of the fields, and
    at each field where the pattern holds a literal carries that value. *)
Theorem getFacts_reads_the_type_index :
  forall (e : t) (patternObject : fields),
    ((forall type, obj_get patternObject "type" = VStr type -> type = EmptyString) ->
     getFacts h depth e patternObject = inl [])
    /\ (forall type, type <> EmptyString ->
          getFacts h depth e [("type", VStr type)]
          = inl (map (fun entry => Join.plainFact_of (snd entry))
                   (FactStorage.getFactsByType (factStorage e) type)))
    /\ (forall type facts,
          obj_get patternObject "type" = VStr type ->
          getFacts h depth e patternObject = inl facts ->
          forall f, In f facts ->
            (exists id fs,
                In (id, fs) (FactStorage.getFactsByType (factStorage e) type)
                /\ f = Join.plainFact_of fs)
            /\ forall k, k <> "type" -> In k (keys patternObject) ->
                 hasOwnProperty f k = true
                 /\ (is_literal (obj_get patternObject k) = true ->
                     get_prop f k = obj_get patternObject k)).
Proof.
  intros e po. split; [|split].
  - intros Hty. unfold getFacts. destruct (obj_get po "type") as [| | | |s| | | |];
      try reflexivity.
    now rewrite (Hty s eq_refl).
  - intros type Hne. unfold getFacts. cbn [obj_get assoc String.eqb Ascii.eqb Bool.eqb].
    cbn [to_boolean]. destruct type as [|c type]; [congruence|].
    cbn [String.eqb negb keys map List.length Nat.eqb orb andb]. now rewrite candidates_all.
  - intros type facts Hty. unfold getFacts. rewrite Hty.
    destruct (negb (to_boolean (VStr type))); [intros H; injection H as <-; intros f []|].
    rewrite candidates_all.
    set (listed := FactStorage.getFactsByType (factStorage e) type).
    assert (Hlisted : forall f,
               In f (map (fun entry => Join.plainFact_of (snd entry)) listed) ->
               exists id fs, In (id, fs) listed /\ f = Join.plainFact_of fs).
    { intros f Hin. apply in_map_iff in Hin. destruct Hin as [[id fs] [<- Hin]].
      now exists id, fs. }
    assert (Honly : forall k, In k (keys po) -> k <> "type" ->
               (List.length (keys (obj_delete po "type")) =? 0) = false).
    { intros k Hin Hne. apply (keys_delete po "type" k Hne) in Hin.
      destruct (keys (obj_delete po "type")); [destruct Hin|reflexivity]. }
    destruct ((List.length (keys po) =? 0) || _) eqn:Hshort.
    + intros H. injection H as <-. intros f Hin. split; [now apply Hlisted|].
      intros k Hne Hk. exfalso.
      apply orb_prop in Hshort. destruct Hshort as [Hz|Hone].
      * apply Nat.eqb_eq in Hz. destruct (keys po); [destruct Hk|discriminate].
      * apply andb_prop in Hone. destruct Hone as [Hone _]. apply Nat.eqb_eq in Hone.
        destruct po as [|[k0 v0] [|? ?]]; cbn in Hone; try discriminate.
        cbn in Hk. destruct Hk as [<-|[]].
        unfold obj_get in Hty. cbn [assoc] in Hty.
        destruct (String.eqb k0 "type") eqn:E; [|discriminate].
        apply String.eqb_eq in E. contradiction.
    + destruct (List.length (keys (obj_delete po "type")) =? 0) eqn:Hnone.
      * intros H. injection H as <-. intros f Hin. split; [now apply Hlisted|].
        intros k Hne Hk. pose proof (Honly k Hk Hne) as Hno. congruence.
      * intros Hfilter f Hin.
        destruct (filter_matching_sound _ _ _ Hfilter f Hin) as [Hc [r [Hr Hm]]].
        split; [now apply Hlisted|]. intros k Hne Hk.
        destruct depth as [|depth']; [discriminate|]. cbn [match_ is_ANY] in Hr.
        destruct (negb (is_object f)); [injection Hr as <-; discriminate|].
        destruct (match_keys_sound h depth' _ f _ _ _ Hr Hm k
                    (keys_delete po "type" k Hne Hk)) as [Hown Hlit].
        split; [exact Hown|]. intros Hl.
        unfold obj_get in Hlit at 1 2. rewrite assoc_delete_other in Hlit by congruence.
        now apply Hlit.
Qed.

End ReadingFacts.

Lemma getFacts_reads_the_type_index_witness :
  Facts.getFacts sampleHost 3 Sample.engineFired [] = inl []
  /\ Facts.getFacts sampleHost 3 Sample.engineFired [("type", VStr "b")]
     = inl [VObj [("type", VStr "b"); ("_id", num 2)]].
Proof.
  destruct (getFacts_reads_the_type_index sampleHost 3 Sample.engineFired [])
    as [Hnone [Hall _]].
  split.
  - apply Hnone. intros type H. discriminate H.
  - rewrite (Hall "b"); [reflexivity|discriminate].
Defined.

(** ** More on the condition join *)

Section JoinMore.
Import Join Eff.
Variable h : Host.
Variable depth : nat.

Lemma set_has_add_inv (s : JSSet.t) (x y : nat) :
  JSSet.has (JSSet.add s x) y = true -> JSSet.has s y = true \/ y = x.
Proof.
  unfold JSSet.add. destruct (JSSet.has s x); [now left|].
  unfold JSSet.has. rewrite existsb_app. cbn [existsb]. rewrite orb_false_r.
  intros H. apply orb_prop in H. destruct H as [H|H]; [now left|].
  right. now apply Nat.eqb_eq.
Qed.

Lemma candidates_listed (fs : FactStorage.t) (type : value) (id : nat) (f : fields) :
  In (id, f) (candidates_of fs type) ->
  exists ty, In (id, f) (FactStorage.getFactsByType fs ty).
Proof. destruct type; try (intros []). intros H. now exists s. Qed.

Lemma checkRule_consumes_listed (fs : FactStorage.t) (rule : definition)
    (conds : list condition) :
  forall (b : bindings) (consumed : JSSet.t) (a : Activation),
    In a (gen_yields (checkRule h depth fs rule conds b consumed)) ->
    act_rule a = rule
    /\ forall id, JSSet.has (consumedFactIds a) id = true ->
         JSSet.has consumed id = true
         \/ exists ty f, In (id, f) (FactStorage.getFactsByType fs ty).
Proof.
  induction conds as [|[p|src name fld tgt|po guards] conds IH]; intros b consumed a;
    cbn [checkRule].
  - intros [<-|[]]. split; [reflexivity|]. intros id Hid. now left.
  - destruct (lacks_scan _ _ _ _ _) as [[|]|ex]; try (intros []). apply IH.
  - destruct (accumulate_scan _ _ _ _ _) as [sourceFacts|ex]; [|intros []].
    destruct (accumulators h name) as [fn|]; [|intros []].
    destruct (fn fld sourceFacts); [|intros []]. apply IH.
  - destruct (hd_error (keys po)) as [factAlias|]; [|intros []].
    destruct (is_nullish _); [intros []|].
    intros Hin. apply pattern_loop_yields in Hin.
    destruct Hin as [[cid cf] [r [Hc [_ [_ Hin]]]]]. apply IH in Hin.
    destruct Hin as [Hrule Hids]. split; [exact Hrule|]. intros id Hid.
    destruct (Hids id Hid) as [Hadd|Hl]; [|now right]. cbn [fst] in Hadd.
    apply set_has_add_inv in Hadd. destruct Hadd as [Hold | ->]; [now left|].
    right. apply candidates_listed in Hc. destruct Hc as [ty Hc]. now exists ty, cf.
Qed.

Lemma findMatches_in_yields (fs : FactStorage.t) (defs : list definition) (a : Activation) :
  In a (gen_yields (findMatches_in h depth fs defs)) ->
  (exists r, act_rule a = DRule r /\ In (DRule r) defs)
  /\ forall id, JSSet.has (consumedFactIds a) id = true ->
       exists ty f, In (id, f) (FactStorage.getFactsByType fs ty).
Proof.
  induction defs as [|[r|q] defs IH]; cbn [findMatches_in]; [intros []| |].
  - intros Hin. apply gen_seq_yields in Hin. destruct Hin as [Hin|Hin].
    + apply checkRule_consumes_listed in Hin. destruct Hin as [Hrule Hids].
      split; [exists r; split; [exact Hrule|now left]|].
      intros id Hid. destruct (Hids id Hid) as [Hno|Hl]; [discriminate|exact Hl].
    + destruct (IH Hin) as [[r' [Hr Hd]] Hids]. split; [|exact Hids].
      exists r'. split; [exact Hr|now right].
  - intros Hin. destruct (IH Hin) as [[r' [Hr Hd]] Hids]. split; [|exact Hids].
    exists r'. split; [exact Hr|now right].
Qed.

(** X15. The activations found for a task belong to rules of the table,
    never to queries, and consume only facts of the working memory: every
    identity in the consumed set of an activation is listed in the type
    index, and so, the store being one its operations produced, resolves
    to a stored fact. *)
Theorem join_consumes_stored_facts :
  forall (e : Engine.t) (a : Activation),
    StoreIndex.reachable (Engine.factStorage e) ->
    In a (gen_yields (findMatches h depth e)) ->
    (exists id r, act_rule a = DRule r /\ In (id, DRule r) (Engine.definitions e))
    /\ forall id, JSSet.has (consumedFactIds a) id = true ->
         exists entry,
           FactStorage.getFactEntry (Engine.factStorage e) id = Some entry.
Proof.
  intros e a Hr Hin. unfold findMatches in Hin. apply findMatches_in_yields in Hin.
  destruct Hin as [[r [Hrule Hd]] Hids]. split.
  - unfold JSMap.values in Hd. apply in_map_iff in Hd. destruct Hd as [[id d] [Hd Hin]].
    cbn in Hd. subst d. now exists id, r.
  - intros id Hid. destruct (Hids id Hid) as [ty [f Hl]].
    apply (coherent_listed _ _ _ _ (reachable_coherent _ Hr)) in Hl.
    destruct Hl as [entry [Hget _]]. now exists entry.
Qed.

(** X16. What the conditions after a Pattern condition throw never leaves
    the join.  A condition list that starts with a well-formed Pattern
    condition throws nothing but the matcher's stack overflow on one of its
    own candidates: an unknown accumulator, a malformed condition or any
    other exception further down the list is swallowed with the candidate
    it arose for.  The same unknown accumulator in first position does
    leave the join, as a type error. *)
Theorem join_swallows_errors_after_pattern :
  forall (fs : FactStorage.t) (rule : definition) (po : fields) (guards : list value)
         (rest : list condition) (b : bindings) (consumed : JSSet.t),
    (forall factAlias ex,
        hd_error (keys po) = Some factAlias ->
        is_nullish (obj_get po factAlias) = false ->
        gen_thrown (checkRule h depth fs rule (CPattern po guards :: rest) b consumed)
        = Some ex ->
        ex = StackOverflow)
    /\ (forall from name on into sourceFacts,
          accumulate_scan h depth (source_pattern from) (source_candidates fs from) b
          = inl sourceFacts ->
          accumulators h name = None ->
          gen_thrown (checkRule h depth fs rule (CAccumulate from name on into :: rest)
                        b consumed)
          = Some TypeError_).
Proof.
  intros fs rule po guards rest b consumed. split.
  - intros factAlias ex Hk Hp. cbn [checkRule]. rewrite Hk, Hp. apply pattern_loop_thrown.
  - intros from name on into sourceFacts Hscan Hacc. cbn [checkRule].
    now rewrite Hscan, Hacc.
Qed.

End JoinMore.

Lemma engineDiv_store_reachable :
  StoreIndex.reachable (Engine.factStorage Sample.engineDiv).
Proof.
  change (Engine.factStorage Sample.engineDiv)
    with (fst (FactStorage.assert
                 (fst (FactStorage.assert FactStorage.empty
                         (VObj [("type", VStr "n"); ("y", num 0)]) FactStorage.no_metadata))
                 (VObj [("type", VStr "n"); ("y", num 2)]) FactStorage.no_metadata)).
  repeat constructor.
Qed.

Lemma join_consumes_stored_facts_witness :
  exists entry,
    FactStorage.getFactEntry (Engine.factStorage Sample.engineDiv) 2 = Some entry.
Proof.
  refine (proj2 (join_consumes_stored_facts sampleHost 5 Sample.engineDiv
                   {| act_rule := DRule Sample.ruleDiv;
                      act_bindings :=
                        [("?y", num 2);
                         ("n", VObj [("type", VStr "n"); ("y", num 2); ("_id", num 2)]);
                         ("?n", VObj [("type", VStr "n"); ("y", num 2); ("_id", num 2)])];
                      consumedFactIds := [2] |}
                   engineDiv_store_reachable _) 2 _).
  - left. reflexivity.
  - reflexivity.
Defined.

Lemma join_swallows_errors_after_pattern_witness :
  (forall ex,
      Join.gen_thrown
        (Join.checkRule sampleHost 5 Sample.storeA (DRule Sample.ruleR1)
           [Sample.patternA; CAccumulate [("a", VObj [])] "median" (VStr "v") "?m"] [] [])
      = Some ex ->
      ex = StackOverflow)
  /\ Join.gen_thrown
       (Join.checkRule sampleHost 5 Sample.storeA (DRule Sample.ruleR1)
          [CAccumulate [("a", VObj [])] "median" (VStr "v") "?m"] [] [])
     = Some TypeError_.
Proof.
  split.
  - intros ex.
    exact (proj1 (join_swallows_errors_after_pattern sampleHost 5 Sample.storeA
                    (DRule Sample.ruleR1) [("a", VObj [("type", VStr "a")])] []
                    [CAccumulate [("a", VObj [])] "median" (VStr "v") "?m"] [] [])
             "a" ex eq_refl eq_refl).
  - exact (proj2 (join_swallows_errors_after_pattern sampleHost 5 Sample.storeA
                    (DRule Sample.ruleR1) [] [] [] [] [])
             [("a", VObj [])] "median" (VStr "v") "?m"
             [VObj [("type", VStr "a"); ("_id", num 1)]] eq_refl eq_refl).
Defined.

(** The rule whose second condition names an accumulator that does not
    exist is silently never activated. *)
Example join_unknown_accumulator_is_silent :
  Join.checkRule sampleHost 5 Sample.storeA (DRule Sample.ruleR1)
    [Sample.patternA; CAccumulate [("a", VObj [])] "median" (VStr "v") "?m"] [] []
  = Join.gen_empty.
Proof. reflexivity. Qed.

(** ** More on firing a rule *)

Section FiringMore.
Import Engine Inv.
Variable h : Host.
Variable depth : nat.

(** X17. A fact asserted through the context of an activation is recorded
    as its product.  When [context.assertFact] returns a fact, the fact has
    the next identity, the activation is still tracked with the same rule
    and consumed set, and the identity is in its produced set; with the
    [logical] option the stored entry is marked logical and produced by
    that activation, without it the metadata stay empty. *)
Theorem context_assert_records_production :
  forall (aid : nat) (rid : string) (e e' : t) (factData f : fields) (isLogical : bool)
         (id : nat) (x : TrackedActivation),
    wf e -> tracked e aid x ->
    Run.ctx_assertFact h aid rid e factData isLogical = (e', Some (id, f)) ->
    id = S (FactStorage.factIdCounter (factStorage e))
    /\ FactStorage.getFactEntry (factStorage e') id
       = Some {| FactStorage.fact := f; FactStorage.fact_id := id;
                 FactStorage.metadata :=
                   if isLogical
                   then {| FactStorage.logical := true;
                           FactStorage.producedBy := Some aid |}
                   else FactStorage.no_metadata |}
    /\ tracked e' aid {| ruleId := ruleId x; consumed := consumed x;
                         produced := JSSet.add (produced x) id |}
    /\ (isLogical = true -> logically_produced e' id aid).
Proof.
  intros aid rid e e' factData f isLogical id x Hwf Hx.
  pose proof (assertFact_spec h e factData Hwf) as [_ [Hact [_ Hpost]]].
  unfold Run.ctx_assertFact.
  destruct (assertFact h e factData) as [e1 [[id1 f1]|]] eqn:A; [|discriminate].
  cbn [fst snd] in *.
  destruct (Hpost id1 f1 eq_refl) as [Hid [_ Hget]].
  rewrite Hget. intros H. injection H as <- <- <-.
  assert (Hstore :
    FactStorage.getFactEntry
      (factStorage
         (if isLogical
          then with_storage e1
                 (FactStorage.set_metadata (factStorage e1) id1
                    {| FactStorage.logical := true; FactStorage.producedBy := Some aid |})
          else e1)) id1
    = Some {| FactStorage.fact := f1; FactStorage.fact_id := id1;
              FactStorage.metadata :=
                if isLogical
                then {| FactStorage.logical := true; FactStorage.producedBy := Some aid |}
                else FactStorage.no_metadata |}).
  { destruct isLogical; [|exact Hget]. cbn [factStorage with_storage].
    unfold FactStorage.set_metadata. unfold FactStorage.getFactEntry in *. rewrite Hget.
    cbn [FactStorage.facts FactStorage.fact FactStorage.fact_id].
    apply (map_get_set_same _ _ Nat.eqb nat_eqb_eq). }
  assert (Hacts :
    activations
      (if isLogical
       then with_storage e1
              (FactStorage.set_metadata (factStorage e1) id1
                 {| FactStorage.logical := true; FactStorage.producedBy := Some aid |})
       else e1) = activations e).
  { destruct isLogical; exact Hact. }
  set (e2 := if isLogical then _ else e1) in *.
  unfold tracked in Hx. rewrite Hacts, Hx.
  cbn [factStorage emit with_activations activations].
  split; [exact Hid|]. split; [exact Hstore|]. split.
  - unfold tracked. cbn [activations emit with_activations].
    apply (map_get_set_same _ _ Nat.eqb nat_eqb_eq).
  - intros ->. eexists. split; [exact Hstore|]. split; reflexivity.
Qed.

Lemma emit_all_fields (evs : list event) :
  forall e,
    factStorage (emit_all e evs) = factStorage e
    /\ agenda (emit_all e evs) = agenda e
    /\ definitions (emit_all e evs) = definitions e
    /\ activations (emit_all e evs) = activations e
    /\ activationCounter (emit_all e evs) = activationCounter e
    /\ emitted (emit_all e evs) = emitted e ++ evs.
Proof.
  unfold emit_all. induction evs as [|ev evs IH]; intros e; cbn [fold_left].
  - now rewrite app_nil_r.
  - destruct (IH (emit e ev)) as [H1 [H2 [H3 [H4 [H5 H6]]]]].
    rewrite H1, H2, H3, H4, H5, H6. cbn [emit factStorage agenda definitions activations
      activationCounter emitted]. now rewrite <- app_assoc.
Qed.

(** X18. A rule whose pre-conditions fail leaves no trace but events.
    Firing an activation either yields it, whatever its action does, or
    yields nothing; it yields nothing exactly when the rule has
    pre-conditions and they do not pass, and then no activation is tracked
    and no counter moves: working memory, agenda, definitions and
    activation table are what they were, and the events emitted are the
    activation found, the start of the pre-conditions, what the guards
    reported and the failure of the pre-conditions. *)
Theorem failed_precondition_leaves_no_trace :
  forall (e : t) (a : Activation),
    let rid := def_id (act_rule a) in
    let pre := match act_rule a with DRule r => rule_pre r | DQuery _ => [] end in
    (snd (Run.fire h depth e a) = None
     \/ snd (Run.fire h depth e a) = Some (act_rule a, act_bindings a))
    /\ (snd (Run.fire h depth e a) = None
        <-> pre <> [] /\ snd (Run.pre_every h pre (act_bindings a) rid) = false)
    /\ (snd (Run.fire h depth e a) = None ->
        let e' := fst (Run.fire h depth e a) in
        factStorage e' = factStorage e
        /\ agenda e' = agenda e
        /\ definitions e' = definitions e
        /\ activations e' = activations e
        /\ activationCounter e' = activationCounter e
        /\ emitted e'
           = emitted e
             ++ [rule_activationFound rid (act_bindings a); rule_beforePreConditions rid]
             ++ fst (Run.pre_every h pre (act_bindings a) rid)
             ++ [rule_preConditionsFailed rid]).
Proof.
  intros e a rid pre. unfold Run.fire. fold rid. fold pre.
  assert (Hexec : forall e4, snd (Run.execute h depth e4 a) = Some (act_rule a, act_bindings a)).
  { intros e4. unfold Run.execute.
    destruct (act_rule a) as [r|q];
      [destruct (Run.run_action h depth _ _ _ _) as [e8 thrown]|]; reflexivity. }
  unfold Run.check_pre.
  destruct pre as [|g pre'] eqn:Hpre.
  - rewrite Hexec. split; [now right|]. split; [|discriminate].
    split; [discriminate|]. intros [Hne _]. now contradiction Hne.
  - rewrite <- Hpre.
    destruct (Run.pre_every h pre (act_bindings a) rid) as [evs [|]] eqn:P.
    + rewrite Hexec. split; [now right|]. split; [|discriminate].
      split; [discriminate|]. intros [_ Hf]. discriminate Hf.
    + cbn [fst snd]. split; [now left|]. split.
      * split; [|reflexivity]. intros _. split; [rewrite Hpre; discriminate|reflexivity].
      * intros _.
        destruct (emit_all_fields evs
                    (emit (emit e (rule_activationFound rid (act_bindings a)))
                       (rule_beforePreConditions rid)))
          as [H1 [H2 [H3 [H4 [H5 H6]]]]].
        cbn [emit factStorage agenda definitions activations activationCounter emitted].
        rewrite H1, H2, H3, H4, H5, H6.
        cbn [emit factStorage agenda definitions activations activationCounter emitted].
        repeat (split; [reflexivity|]). rewrite <- !app_assoc. reflexivity.
Qed.

End FiringMore.

Lemma engineFired_wf : Inv.wf Sample.engineFired.
Proof.
  unfold Sample.engineFired, Run.run.
  apply wf_loop. apply ok_emit. apply ok_assertFact. apply ok_addDefinition. apply wf_init.
Qed.

Lemma context_assert_records_production_witness :
  Inv.logically_produced
    (fst (Run.ctx_assertFact sampleHost 1 "R1" Sample.engineFired [("type", VStr "c")] true))
    3 1
  /\ Inv.tracked
       (fst (Run.ctx_assertFact sampleHost 1 "R1" Sample.engineFired [("type", VStr "c")] true))
       1 {| Engine.ruleId := "R1"; Engine.consumed := [1]; Engine.produced := [2; 3] |}.
Proof.
  destruct (context_assert_records_production sampleHost 1 "R1" Sample.engineFired
              (fst (Run.ctx_assertFact sampleHost 1 "R1" Sample.engineFired
                      [("type", VStr "c")] true))
              [("type", VStr "c")] [("type", VStr "c"); ("_id", num 3)] true 3
              {| Engine.ruleId := "R1"; Engine.consumed := [1]; Engine.produced := [2] |}
              engineFired_wf eq_refl eq_refl)
    as [_ [_ [Htracked Hlogical]]].
  split; [exact (Hlogical eq_refl)|exact Htracked].
Defined.

Lemma failed_precondition_leaves_no_trace_witness :
  Engine.activations
    (fst (Run.fire sampleHost 5 Sample.engineDiv
            {| act_rule := DRule Sample.ruleDivPre;
               act_bindings := [("?y", num 0)]; consumedFactIds := [1] |}))
  = Engine.activations Sample.engineDiv
  /\ Engine.activationCounter
       (fst (Run.fire sampleHost 5 Sample.engineDiv
               {| act_rule := DRule Sample.ruleDivPre;
                  act_bindings := [("?y", num 0)]; consumedFactIds := [1] |}))
     = Engine.activationCounter Sample.engineDiv.
Proof.
  destruct (failed_precondition_leaves_no_trace sampleHost 5 Sample.engineDiv
              {| act_rule := DRule Sample.ruleDivPre;
                 act_bindings := [("?y", num 0)]; consumedFactIds := [1] |})
    as [_ [_ Hsame]].
  destruct (Hsame eq_refl) as [_ [_ [_ [Hacts [Hcnt _]]]]].
  split; [exact Hacts|exact Hcnt].
Defined.

(** ** Termination of the run loop *)

Section RunTermination.
Import Engine Passive.
Variable h : Host.
Variable depth : nat.

Lemma delete_length (V : Type) (m : JSMap.t nat V) (k : nat) (v : V) :
  JSMap.get Nat.eqb m k = Some v ->
  List.length m = S (List.length (JSMap.delete Nat.eqb m k)).
Proof.
  induction m as [|[k0 v0] m IH]; cbn [JSMap.get JSMap.delete]; [discriminate|].
  destruct (Nat.eqb k0 k); [reflexivity|]. intros H. cbn [List.length]. now rewrite <- IH.
Qed.

Lemma retractFact_load (e : t) (id : nat) :
  load (retractFact e id) = load e /\ definitions (retractFact e id) = definitions e.
Proof.
  unfold retractFact, FactStorage.retract.
  destruct (JSMap.get Nat.eqb (FactStorage.facts (factStorage e)) id) as [entry|] eqn:G;
    [|now split].
  split; [|reflexivity]. unfold load.
  cbn [agenda factStorage with_agenda emit with_storage FactStorage.facts].
  unfold Agenda.push. rewrite length_app. cbn [List.length]. rewrite (delete_length _ _ _ _ G). lia.
Qed.

Lemma retract_produced_load (aid : nat) (x : TrackedActivation) (r : nat) (e : t) (fid : nat) :
  load (Run.retract_produced aid x r e fid) = load e
  /\ definitions (Run.retract_produced aid x r e fid) = definitions e.
Proof.
  unfold Run.retract_produced.
  destruct (FactStorage.getFactEntry (factStorage e) fid) as [entry|]; [|now split].
  destruct (_ && _); [|now split].
  destruct (retractFact_load
              (emit e (tms_factRetracted (FactStorage.fact entry) (ruleId x) r)) fid)
    as [Hl Hd].
  now rewrite Hl, Hd.
Qed.

Lemma invalidate_load (r : nat) (e : t) (aid : nat) :
  load (Run.invalidate r e aid) = load e
  /\ definitions (Run.invalidate r e aid) = definitions e.
Proof.
  unfold Run.invalidate.
  destruct (JSMap.get Nat.eqb (activations e) aid) as [x|]; [|now split].
  cbv zeta.
  assert (H : forall ids e0,
             load (fold_left (Run.retract_produced aid x r) ids e0) = load e0
             /\ definitions (fold_left (Run.retract_produced aid x r) ids e0)
                = definitions e0).
  { induction ids as [|fid ids IH]; intros e0; [now split|]. cbn [fold_left].
    destruct (IH (Run.retract_produced aid x r e0 fid)) as [Hl Hd].
    destruct (retract_produced_load aid x r e0 fid) as [Hl0 Hd0].
    rewrite Hl, Hd. now split. }
  destruct (H (produced x) (emit e (tms_activationInvalidated (ruleId x) aid))) as [Hl Hd].
  unfold load in *. cbn [agenda factStorage definitions with_activations] in *.
  now split.
Qed.

Lemma truthMaintenance_load (e : t) (r : nat) :
  load (Run.truthMaintenance e r) = load e
  /\ definitions (Run.truthMaintenance e r) = definitions e.
Proof.
  unfold Run.truthMaintenance. cbv zeta.
  assert (H : forall ids e0,
             load (fold_left (Run.invalidate r) ids e0) = load e0
             /\ definitions (fold_left (Run.invalidate r) ids e0) = definitions e0).
  { induction ids as [|aid ids IH]; intros e0; [now split|]. cbn [fold_left].
    destruct (IH (Run.invalidate r e0 aid)) as [Hl Hd].
    destruct (invalidate_load r e0 aid) as [Hl0 Hd0].
    rewrite Hl, Hd. now split. }
  destruct (0 <? _); rewrite (proj1 (H _ _)), (proj2 (H _ _)); now split.
Qed.

Lemma group_step_members (l : list Activation) :
  forall (g : Resolver.groups),
    (forall k grp a, In (k, grp) g -> In a grp -> In a l) ->
    forall act, In act l ->
      forall k grp a, In (k, grp) (Resolver.group_step g act) -> In a grp -> In a l.
Proof.
  intros g Hg act Hact k grp a. unfold Resolver.group_step.
  set (s := Resolver.key_of (Resolver.salience_of act)).
  assert (Hset : forall v, (forall x, In x v -> In x l) ->
             In (k, grp) (JSMap.set num_same g s v) -> In a grp -> In a l).
  { intros v Hv. clear - Hg Hv. induction g as [|[k0 g0] g IH]; cbn [JSMap.set].
    - intros [H|[]]. injection H as _ <-. apply Hv.
    - destruct (num_same k0 s).
      + intros [H|H]; [injection H as _ <-; apply Hv|].
        apply (Hg k grp a). now right.
      + intros [H|H]; [apply (Hg k grp a); now left|].
        apply IH; [|exact H]. intros k' grp' a' Hin. apply (Hg k' grp' a'). now right. }
  destruct (JSMap.get num_same g s) as [grp0|] eqn:G.
  - apply Hset. intros x Hx. apply in_app_or in Hx. destruct Hx as [Hx|[<-|[]]]; [|exact Hact].
    apply (map_get_some_in _ _ num_same num_same_eq) in G. now apply (Hg s grp0).
  - apply Hset. intros x [<-|[]]. exact Hact.
Qed.

Lemma resolve_member (l : list Activation) (a : Activation) :
  Resolver.resolve l = Some a -> In a l.
Proof.
  destruct l as [|a0 [|a1 l]]; cbn [Resolver.resolve]; [discriminate| |].
  - intros H. injection H as <-. now left.
  - set (l0 := a0 :: a1 :: l).
    assert (Hgroups : forall k grp x,
               In (k, grp) (Resolver.groupedBySalience l0) -> In x grp -> In x l0).
    { unfold Resolver.groupedBySalience.
      assert (H : forall acts g,
                 (forall k grp x, In (k, grp) g -> In x grp -> In x l0) ->
                 (forall x, In x acts -> In x l0) ->
                 forall k grp x, In (k, grp) (fold_left Resolver.group_step acts g) ->
                                 In x grp -> In x l0).
      { induction acts as [|act acts IH]; intros g Hg Hacts; [exact Hg|].
        cbn [fold_left]. apply IH.
        - apply group_step_members; [exact Hg|]. apply Hacts. now left.
        - intros x Hx. apply Hacts. now right. }
      apply H; [intros k grp x []|auto]. }
    destruct (JSMap.get num_same _ _) as [grp|] eqn:G; [|discriminate].
    apply (map_get_some_in _ _ num_same num_same_eq) in G.
    destruct grp as [|x grp]; [discriminate|]. intros H. injection H as ->.
    apply (Hgroups _ _ a G). now left.
Qed.

Lemma fire_inert_load (e : t) (a : Activation) (r : rule) :
  act_rule a = DRule r -> inert (rule_then r (act_bindings a)) = true ->
  load (fst (Run.fire h depth e a)) = load e
  /\ definitions (fst (Run.fire h depth e a)) = definitions e.
Proof.
  intros Hr Hin. unfold Run.fire, Run.check_pre. rewrite Hr. cbn [def_id].
  assert (Hexec : forall e4,
             load (fst (Run.execute h depth e4 a)) = load e4
             /\ definitions (fst (Run.execute h depth e4 a)) = definitions e4).
  { intros e4. unfold Run.execute. rewrite Hr. cbn [def_id].
    destruct (rule_then r (act_bindings a)); try discriminate; cbn [Run.run_action];
      now split. }
  destruct (rule_pre r) as [|g pre].
  - destruct (Hexec (emit e (rule_activationFound (rule_id r) (act_bindings a))))
      as [Hl Hd]. rewrite Hl, Hd. now split.
  - destruct (Run.pre_every h (g :: pre) (act_bindings a) (rule_id r)) as [evs ok].
    set (e2 := emit (emit e _) _).
    destruct (emit_all_fields evs e2) as [H1 [H2 [H3 _]]].
    destruct ok.
    + destruct (Hexec (emit (emit_all e2 evs) (rule_afterPreConditions (rule_id r))))
        as [Hl Hd]. rewrite Hl, Hd. unfold load.
      cbn [emit agenda factStorage definitions]. rewrite H1, H2, H3. now split.
    + cbn [fst]. unfold load. cbn [emit agenda factStorage definitions].
      rewrite H1, H2, H3. now split.
Qed.

Lemma step_inert (e e' : t) (y : option (definition * bindings)) :
  inert_rules e -> Run.step h depth e = Run.Turned e' y ->
  load e' < load e /\ definitions e' = definitions e.
Proof.
  intros Hin. unfold Run.step.
  destruct (agenda e) as [|task rest] eqn:Ha; [discriminate|]. cbn [Agenda.shift].
  assert (Hload : forall e0, agenda e0 = rest -> factStorage e0 = factStorage e ->
             load e0 < load e).
  { intros e0 H1 H2. unfold load. rewrite H1, H2, Ha. cbn [List.length]. lia. }
  destruct (Agenda.task_type_of task).
  - set (e1 := emit (with_agenda e rest) (agenda_taskProcessed task)).
    destruct (Join.gen_thrown (Join.findMatches h depth e1)) as [ex|]; [discriminate|].
    destruct (emit_all_fields (Join.gen_events (Join.findMatches h depth e1)) e1)
      as [H1 [H2 [H3 _]]].
    destruct (Resolver.resolve _) as [a|] eqn:R.
    + destruct (Run.fire h depth _ a) as [e3 y3] eqn:F. intros H. injection H as <- <-.
      apply resolve_member in R. unfold Join.findMatches in R.
      apply findMatches_in_yields in R. destruct R as [[r [Hr Hd]] _].
      unfold JSMap.values in Hd. apply in_map_iff in Hd. destruct Hd as [[id d] [Hd Hdin]].
      cbn in Hd. subst d.
      assert (Hinert : inert (rule_then r (act_bindings a)) = true) by (apply (Hin id); exact Hdin).
      destruct (fire_inert_load (emit_all e1 (Join.gen_events (Join.findMatches h depth e1)))
                  a r Hr Hinert) as [Hl Hdefs].
      rewrite F in Hl, Hdefs. cbn [fst] in Hl, Hdefs. rewrite Hl, Hdefs, H3. split; [|reflexivity].
      apply Hload; [now rewrite H2|now rewrite H1].
    + intros H. injection H as <- _. rewrite H3. split; [|reflexivity].
      apply Hload; [now rewrite H2|now rewrite H1].
  - intros H. injection H as <- _.
    destruct (truthMaintenance_load
                (emit (with_agenda e rest) (agenda_taskProcessed task))
                (Agenda.task_fact_id task)) as [Hl Hd].
    rewrite Hl, Hd. split; [|reflexivity]. now apply Hload.
Qed.

Lemma loop_inert (fuel : nat) :
  forall e, inert_rules e -> load e < fuel ->
            Run.ended (Run.loop h depth fuel e) <> Run.OutOfFuel.
Proof.
  induction fuel as [|fuel IH]; intros e Hin Hlt; [lia|]. cbn [Run.loop].
  destruct (Run.step h depth e) as [|e' y|e' ex] eqn:S; cbn [Run.ended]; try discriminate.
  destruct (step_inert e e' y Hin S) as [Hl Hd].
  apply IH; [|lia]. unfold inert_rules. now rewrite Hd.
Qed.

Lemma loop_quiescent (fuel : nat) :
  forall e, Run.ended (Run.loop h depth fuel e) = Run.Quiescent ->
            agenda (Run.final (Run.loop h depth fuel e)) = [].
Proof.
  induction fuel as [|fuel IH]; intros e; cbn [Run.loop]; [discriminate|].
  destruct (Run.step h depth e) as [|e' y|e' ex] eqn:S; cbn [Run.ended Run.final];
    [|apply IH|discriminate].
  intros _. unfold Run.step in S.
  destruct (agenda e) as [|task rest] eqn:Ha; [cbn [emit agenda]; exact Ha|].
  cbn [Agenda.shift] in S. destruct (Agenda.task_type_of task).
  - destruct (Join.gen_thrown _); [discriminate|].
    destruct (Resolver.resolve _); [destruct (Run.fire _ _ _ _)|]; discriminate.
  - discriminate.
Qed.

(** X19. The run loop ends when the rules leave the working memory alone.
    If the action of every rule returns or throws without a call on its
    context, [run] does not need more turns than there are tasks on the
    agenda and facts in the store, plus one: it reaches quiescence, or is
    ended by an exception of the join, within them.  And whatever the
    rules, a run that reaches quiescence has emptied the agenda. *)
Theorem run_with_inert_rules_terminates :
  forall (e : t) (fuel : nat),
    (inert_rules e -> load e < fuel ->
     Run.ended (Run.run h depth fuel e) <> Run.OutOfFuel)
    /\ (Run.ended (Run.run h depth fuel e) = Run.Quiescent ->
        agenda (Run.final (Run.run h depth fuel e)) = []).
Proof.
  intros e fuel. unfold Run.run. split.
  - intros Hin Hlt. apply loop_inert; assumption.
  - apply loop_quiescent.
Qed.

End RunTermination.

Lemma run_with_inert_rules_terminates_witness :
  Run.ended (Run.run sampleHost 5 5 Sample.engineDiv) <> Run.OutOfFuel.
Proof.
  apply (proj1 (run_with_inert_rules_terminates sampleHost 5 Sample.engineDiv 5)).
  - intros id r b [H|[]]. injection H as _ <-. reflexivity.
  - vm_compute. lia.
Defined.

(** ** More on the ordering of query results *)

Section QuerySorted.
Import Query.
Variable h : Host.

Lemma StronglySorted_weaken (R R' : value -> value -> Prop) (l : list value) :
  StronglySorted R l ->
  (forall u v, In u l -> In v l -> R u v -> R' u v) ->
  StronglySorted R' l.
Proof.
  induction 1 as [|u l Hs IH Hall]; intros Himp; constructor.
  - apply IH. intros x y Hx Hy. apply Himp; now right.
  - rewrite Forall_forall in *. intros v Hv. apply Himp; [now left|now right|now apply Hall].
Qed.


End QuerySorted.


(** ** The accumulators *)

Section AccumulatorProperties.
Import Accumulators.
Variable field : string.

Lemma num_lt_trans (x y z : number) :
  is_nan x = false -> is_nan y = false -> is_nan z = false ->
  num_lt x y = true -> num_lt y z = true -> num_lt x z = true.
Proof.
  intros Hx Hy Hz Hxy Hyz.
  apply (num_lt_rank x y Hx Hy) in Hxy. apply (num_lt_rank y z Hy Hz) in Hyz.
  apply (num_lt_rank x z Hx Hz). exact (lex_lt_trans _ _ _ Hxy Hyz).
Qed.

Lemma num_lt_irrefl (x : number) : is_nan x = false -> num_lt x x = false.
Proof.
  intros Hx. apply not_true_iff_false. intros H.
  apply (num_lt_rank x x Hx Hx) in H. exact (lex_lt_irrefl _ H).
Qed.

Lemma not_below_infinity (x : number) :
  is_nan x = false -> num_lt x pos_infinity = false -> x = pos_infinity.
Proof. destruct x as [[]|[]| |[] m e]; cbn; intros; try discriminate; reflexivity. Qed.

Lemma not_above_neg_infinity (x : number) :
  is_nan x = false -> num_lt neg_infinity x = false -> x = neg_infinity.
Proof. destruct x as [[]|[]| |[] m e]; cbn; intros; try discriminate; reflexivity. Qed.

(** [x] is the value of the field of one of the facts, and a valid number. *)
Local Abbreviation valid_in := (fun (facts : list value) (x : number) =>
  exists fact, In fact facts /\ get_prop fact field = VNum x /\ is_nan x = false).

Lemma valid_in_snoc (seen : list value) (fact : value) (x : number) :
  valid_in (seen ++ [fact]) x
  <-> valid_in seen x \/ (get_prop fact field = VNum x /\ is_nan x = false).
Proof.
  split.
  - intros [f [Hin [Hf Hx]]]. apply in_app_or in Hin. destruct Hin as [Hin|[<-|[]]].
    + left. now exists f.
    + now right.
  - intros [[f [Hin [Hf Hx]]]|[Hf Hx]].
    + exists f. split; [apply in_or_app; now left|now split].
    + exists fact. split; [apply in_or_app; right; now left|now split].
Qed.

(** What the loops of [minNumber] and [maxNumber] keep, [below x y] being
    [x < y] for the minimum and [y < x] for the maximum. *)
Local Abbreviation extreme := (fun (below : number -> number -> bool) (start : number)
    (seen : list value) (st : number * bool) =>
  is_nan (fst st) = false
  /\ (snd st = false -> fst st = start /\ forall x, ~ valid_in seen x)
  /\ (snd st = true -> valid_in seen (fst st))
  /\ (forall x, valid_in seen x -> below x (fst st) = false)).

Lemma min_loop (facts : list value) :
  forall seen st,
    extreme num_lt pos_infinity seen st ->
    extreme num_lt pos_infinity (seen ++ facts)
      (fold_left
         (fun (st : number * bool) fact =>
            let '(min, found) := st in
            let v := get_prop fact field in
            match v with
            | VNum x =>
                if isValidNumber v then ((if num_lt x min then x else min), true) else st
            | _ => st
            end) facts st).
Proof.
  induction facts as [|fact facts IH]; intros seen [min found] Hinv;
    [now rewrite app_nil_r|].
  cbn [fold_left]. replace (seen ++ fact :: facts) with ((seen ++ [fact]) ++ facts)
    by now rewrite <- app_assoc.
  apply IH. clear IH. destruct Hinv as [Hnan [Hnone [Hsome Hleast]]]. cbn [fst snd] in *.
  assert (Hskip : (forall x, get_prop fact field = VNum x -> is_nan x = true) ->
                  extreme num_lt pos_infinity (seen ++ [fact]) (min, found)).
  { intros Hno. cbn [fst snd].
    assert (Hsame : forall x, valid_in (seen ++ [fact]) x -> valid_in seen x).
    { intros x Hx. apply valid_in_snoc in Hx. destruct Hx as [Hx|[Hf Hx]]; [exact Hx|].
      rewrite (Hno x Hf) in Hx. discriminate. }
    split; [exact Hnan|]. split; [|split].
    - intros Hf. destruct (Hnone Hf) as [Hm Hn]. split; [exact Hm|].
      intros x Hx. exact (Hn x (Hsame x Hx)).
    - intros Hf. destruct (Hsome Hf) as [f [Hin Hrest]]. exists f.
      split; [apply in_or_app; now left|exact Hrest].
    - intros x Hx. apply Hleast. now apply Hsame. }
  destruct (get_prop fact field) as [| | |x| | | | |] eqn:Hv;
    try (apply Hskip; intros x Hx; discriminate Hx).
  cbn [isValidNumber]. destruct (is_nan x) eqn:Hx; cbn [negb].
  { apply Hskip. intros x' Hx'. now injection Hx' as <-. }
  cbn [fst snd]. destruct (num_lt x min) eqn:Hlt.
  - split; [exact Hx|]. split; [discriminate|]. split.
    + intros _. apply valid_in_snoc. now right.
    + intros y Hy. apply valid_in_snoc in Hy. destruct Hy as [Hy|[Hf Hy]].
      * destruct (num_lt y x) eqn:Hyx; [|reflexivity].
        assert (Hyn : is_nan y = false) by (destruct Hy as [f [_ [_ Hyn]]]; exact Hyn).
        pose proof (num_lt_trans y x min Hyn Hx Hnan Hyx Hlt) as Hym.
        pose proof (Hleast y Hy) as Hl. congruence.
      * rewrite Hv in Hf. injection Hf as <-. now apply num_lt_irrefl.
  - split; [exact Hnan|]. split; [discriminate|]. split.
    + intros _. destruct found.
      * destruct (Hsome eq_refl) as [f [Hin Hrest]]. exists f.
        split; [apply in_or_app; now left|exact Hrest].
      * destruct (Hnone eq_refl) as [Hm _]. subst min. apply valid_in_snoc. right.
        split; [|reflexivity]. rewrite Hv. f_equal. now apply not_below_infinity.
    + intros y Hy. apply valid_in_snoc in Hy. destruct Hy as [Hy|[Hf Hy]].
      * now apply Hleast.
      * rewrite Hv in Hf. now injection Hf as <-.
Qed.

Lemma max_loop (facts : list value) :
  forall seen st,
    extreme (fun x y => num_lt y x) neg_infinity seen st ->
    extreme (fun x y => num_lt y x) neg_infinity (seen ++ facts)
      (fold_left
         (fun (st : number * bool) fact =>
            let '(max, found) := st in
            let v := get_prop fact field in
            match v with
            | VNum x =>
                if isValidNumber v then ((if num_lt max x then x else max), true) else st
            | _ => st
            end) facts st).
Proof.
  induction facts as [|fact facts IH]; intros seen [max found] Hinv;
    [now rewrite app_nil_r|].
  cbn [fold_left]. replace (seen ++ fact :: facts) with ((seen ++ [fact]) ++ facts)
    by now rewrite <- app_assoc.
  apply IH. clear IH. destruct Hinv as [Hnan [Hnone [Hsome Hleast]]]. cbn [fst snd] in *.
  assert (Hskip : (forall x, get_prop fact field = VNum x -> is_nan x = true) ->
                  extreme (fun x y => num_lt y x) neg_infinity (seen ++ [fact]) (max, found)).
  { intros Hno. cbn [fst snd].
    assert (Hsame : forall x, valid_in (seen ++ [fact]) x -> valid_in seen x).
    { intros x Hx. apply valid_in_snoc in Hx. destruct Hx as [Hx|[Hf Hx]]; [exact Hx|].
      rewrite (Hno x Hf) in Hx. discriminate. }
    split; [exact Hnan|]. split; [|split].
    - intros Hf. destruct (Hnone Hf) as [Hm Hn]. split; [exact Hm|].
      intros x Hx. exact (Hn x (Hsame x Hx)).
    - intros Hf. destruct (Hsome Hf) as [f [Hin Hrest]]. exists f.
      split; [apply in_or_app; now left|exact Hrest].
    - intros x Hx. apply Hleast. now apply Hsame. }
  destruct (get_prop fact field) as [| | |x| | | | |] eqn:Hv;
    try (apply Hskip; intros x Hx; discriminate Hx).
  cbn [isValidNumber]. destruct (is_nan x) eqn:Hx; cbn [negb].
  { apply Hskip. intros x' Hx'. now injection Hx' as <-. }
  cbn [fst snd]. destruct (num_lt max x) eqn:Hlt.
  - split; [exact Hx|]. split; [discriminate|]. split.
    + intros _. apply valid_in_snoc. now right.
    + intros y Hy. apply valid_in_snoc in Hy. destruct Hy as [Hy|[Hf Hy]].
      * destruct (num_lt x y) eqn:Hxy; [|reflexivity].
        assert (Hyn : is_nan y = false) by (destruct Hy as [f [_ [_ Hyn]]]; exact Hyn).
        pose proof (num_lt_trans max x y Hnan Hx Hyn Hlt Hxy) as Hmy.
        pose proof (Hleast y Hy) as Hl. cbn beta in Hl. congruence.
      * rewrite Hv in Hf. injection Hf as <-. now apply num_lt_irrefl.
  - split; [exact Hnan|]. split; [discriminate|]. split.
    + intros _. destruct found.
      * destruct (Hsome eq_refl) as [f [Hin Hrest]]. exists f.
        split; [apply in_or_app; now left|exact Hrest].
      * destruct (Hnone eq_refl) as [Hm _]. subst max. apply valid_in_snoc. right.
        split; [|reflexivity]. rewrite Hv. f_equal. now apply not_above_neg_infinity.
    + intros y Hy. apply valid_in_snoc in Hy. destruct Hy as [Hy|[Hf Hy]].
      * now apply Hleast.
      * rewrite Hv in Hf. now injection Hf as <-.
Qed.

(** X21. [minNumber] and [maxNumber] return the least and the greatest
    valid number of the field.  If no fact has a number other than NaN in
    the field, the results are [Infinity] and [-Infinity]; otherwise each
    result is the field of one of the facts, no valid number of the field is
    below the minimum or above the maximum, and the maximum is not below
    the minimum.  Values that are not numbers, and NaN, are passed over. *)
Theorem accumulator_min_max_bound_the_field :
  forall (facts : list value),
    ((forall x, ~ valid_in facts x) ->
     minNumber field facts = pos_infinity /\ maxNumber field facts = neg_infinity)
    /\ ((exists x, valid_in facts x) ->
        valid_in facts (minNumber field facts)
        /\ valid_in facts (maxNumber field facts)
        /\ (forall x, valid_in facts x ->
              num_lt x (minNumber field facts) = false
              /\ num_lt (maxNumber field facts) x = false)
        /\ num_lt (maxNumber field facts) (minNumber field facts) = false).
Proof.
  intros facts.
  assert (Hmin0 : extreme num_lt pos_infinity [] (pos_infinity, false)).
  { split; [reflexivity|]. split; [|split].
    - intros _. split; [reflexivity|]. intros x [f [[] _]].
    - discriminate.
    - intros x [f [[] _]]. }
  assert (Hmax0 : extreme (fun x y => num_lt y x) neg_infinity [] (neg_infinity, false)).
  { split; [reflexivity|]. split; [|split].
    - intros _. split; [reflexivity|]. intros x [f [[] _]].
    - discriminate.
    - intros x [f [[] _]]. }
  pose proof (min_loop facts [] _ Hmin0) as Hmin.
  pose proof (max_loop facts [] _ Hmax0) as Hmax.
  cbn [app] in Hmin, Hmax. unfold minNumber, maxNumber.
  destruct (fold_left _ facts (pos_infinity, false)) as [min fmin].
  destruct (fold_left _ facts (neg_infinity, false)) as [max fmax].
  cbn [fst snd] in Hmin, Hmax.
  destruct Hmin as [Hn1 [Hnone1 [Hsome1 Hleast1]]].
  destruct Hmax as [Hn2 [Hnone2 [Hsome2 Hleast2]]].
  split.
  - intros Hno. destruct fmin; [destruct (Hsome1 eq_refl) as [f Hf]; exfalso; apply (Hno min); now exists f|].
    destruct fmax; [destruct (Hsome2 eq_refl) as [f Hf]; exfalso; apply (Hno max); now exists f|].
    now split.
  - intros [x Hx].
    destruct fmin; [|exfalso; exact (proj2 (Hnone1 eq_refl) x Hx)].
    destruct fmax; [|exfalso; exact (proj2 (Hnone2 eq_refl) x Hx)].
    split; [now apply Hsome1|]. split; [now apply Hsome2|]. split.
    + intros y Hy. split; [now apply Hleast1|now apply Hleast2].
    + apply Hleast1. now apply Hsome2.
Qed.

Lemma average_loop (facts : list value) :
  forall total count,
    fold_left
      (fun (st : number * nat) fact =>
         let '(total, count) := st in
         match get_prop fact field with
         | VBool b => (Guard.add total (if b then Guard.one else pos_zero), S count)
         | VNum x => if negb (is_nan x) then (Guard.add total x, S count) else st
         | _ => st
         end) facts (total, count)
    = (fold_left (sum_step field) facts total,
       count + List.length (filter (counted field) facts)).
Proof.
  induction facts as [|fact facts IH]; intros total count; cbn [fold_left filter].
  - now rewrite Nat.add_0_r.
  - rewrite (surjective_pairing (fold_left _ facts _)).
    assert (Hstep :
      (match get_prop fact field with
       | VBool b => (Guard.add total (if b then Guard.one else pos_zero), S count)
       | VNum x => if negb (is_nan x) then (Guard.add total x, S count) else (total, count)
       | _ => (total, count)
       end)
      = (sum_step field total fact, if counted field fact then S count else count)).
    { unfold sum_step, counted.
      destruct (get_prop fact field) as [| |b|x| | | | |]; cbn [isValidNumber];
        try reflexivity.
      now destruct (negb (is_nan x)). }
    rewrite Hstep, IH. cbn [fst snd].
    destruct (counted field fact); cbn [List.length]; f_equal; lia.
Qed.

Lemma sum_loop_counted (facts : list value) :
  forall acc,
    fold_left (sum_step field) facts acc
    = fold_left (sum_step field) (filter (counted field) facts) acc.
Proof.
  induction facts as [|fact facts IH]; intros acc; [reflexivity|]. cbn [fold_left filter].
  destruct (counted field fact) eqn:C; [cbn [fold_left]; apply IH|].
  rewrite <- IH. f_equal. unfold sum_step. unfold counted in C.
  destruct (get_prop fact field); try reflexivity; try discriminate.
  cbn [isValidNumber] in C. now rewrite C.
Qed.

(** X22. [average] is [sum] divided by the number of fields counted.  Both
    accumulators count a boolean as 1 or 0 and a number other than NaN as
    itself, and pass over every other value: the sum over the facts is the
    sum over the facts they count, the average is that sum divided by how
    many facts are counted, and where none is counted, in particular for no
    fact at all, the sum is 0 and the average is 0, not NaN. *)
Theorem accumulator_average_is_sum_over_count :
  forall (facts : list value),
    let n := List.length (filter (counted field) facts) in
    sum field facts = sum field (filter (counted field) facts)
    /\ average field facts
       = (if n =? 0 then pos_zero else Guard.div (sum field facts) (num_of_nat n))
    /\ (n = 0 -> sum field facts = pos_zero /\ average field facts = pos_zero).
Proof.
  intros facts n.
  assert (Hsum : sum field facts = sum field (filter (counted field) facts))
    by apply sum_loop_counted.
  assert (Havg : average field facts
                 = (if n =? 0 then pos_zero else Guard.div (sum field facts) (num_of_nat n))).
  { unfold average. rewrite average_loop. reflexivity. }
  split; [exact Hsum|]. split; [exact Havg|].
  intros Hn. split.
  - rewrite Hsum. unfold n in Hn. apply length_zero_iff_nil in Hn. now rewrite Hn.
  - rewrite Havg, Hn. reflexivity.
Qed.

Lemma found_booleans_loop (facts : list value) :
  forall ff ft,
    let r :=
      fold_left
        (fun (st : bool * bool) fact =>
           let '(foundFalse, foundTrue) := st in
           match get_prop fact field with
           | VBool false => (true, foundTrue)
           | VBool true => (foundFalse, true)
           | _ => st
           end) facts (ff, ft) in
    (fst r = true <-> ff = true \/ In (VBool false) (collect field facts))
    /\ (snd r = true <-> ft = true \/ In (VBool true) (collect field facts)).
Proof.
  induction facts as [|fact facts IH]; intros ff ft; cbn [fold_left collect map In].
  - cbn [fst snd]. tauto.
  - fold (collect field facts).
    destruct (get_prop fact field) as [| |[|]| | | | | |] eqn:G;
      match goal with
      | |- context [fold_left _ facts (?a, ?b)] => destruct (IH a b) as [H1 H2]
      end;
      cbv zeta in H1, H2; rewrite H1, H2;
      (split; split; intros H; intuition (auto; try discriminate; try congruence)).
Qed.

Lemma found_booleans_spec (facts : list value) :
  (fst (found_booleans field facts) = true <-> In (VBool false) (collect field facts))
  /\ (snd (found_booleans field facts) = true <-> In (VBool true) (collect field facts)).
Proof.
  destruct (found_booleans_loop facts false false) as [H1 H2]. cbv zeta in H1, H2.
  unfold found_booleans. rewrite H1, H2.
  split; split; intros H; try (now right); destruct H as [H|H]; [discriminate|exact H| discriminate|exact H].
Qed.

(** X23. [minBoolean] and [maxBoolean] look for the values [false] and
    [true] among the fields: the minimum is [false] as soon as one field is
    [false], the maximum is [true] as soon as one field is [true], each is
    the other boolean where only that one occurs, and both are [null]
    where no field is a boolean. *)
Theorem accumulator_boolean_extremes :
  forall (facts : list value),
    let fields := collect field facts in
    (In (VBool false) fields -> minBoolean field facts = VBool false)
    /\ (In (VBool true) fields -> maxBoolean field facts = VBool true)
    /\ (~ In (VBool false) fields -> In (VBool true) fields ->
        minBoolean field facts = VBool true)
    /\ (~ In (VBool true) fields -> In (VBool false) fields ->
        maxBoolean field facts = VBool false)
    /\ (~ In (VBool false) fields -> ~ In (VBool true) fields ->
        minBoolean field facts = VNull /\ maxBoolean field facts = VNull).
Proof.
  intros facts fields. destruct (found_booleans_spec facts) as [Hf Ht].
  fold fields in Hf, Ht. unfold minBoolean, maxBoolean.
  destruct (found_booleans field facts) as [ff ft]. cbn [fst snd] in Hf, Ht.
  repeat split.
  - intros H. apply Hf in H. now rewrite H.
  - intros H. apply Ht in H. now rewrite H.
  - intros Hn H. apply Ht in H. rewrite H.
    destruct ff; [exfalso; apply Hn; now apply Hf|reflexivity].
  - intros Hn H. apply Hf in H. rewrite H.
    destruct ft; [exfalso; apply Hn; now apply Ht|reflexivity].
  - destruct ff; [exfalso; apply H; now apply Hf|].
    destruct ft; [exfalso; apply H0; now apply Ht|reflexivity].
  - destruct ft; [exfalso; apply H0; now apply Ht|].
    destruct ff; [exfalso; apply H; now apply Hf|reflexivity].
Qed.

End AccumulatorProperties.

Lemma accumulator_min_max_bound_the_field_witness :
  let facts := [VObj [("v", num 3)]; VObj [("v", VStr "x")]; VObj [("v", num 1)]] in
  Accumulators.minNumber "v" facts = num_of_Z 1
  /\ Accumulators.maxNumber "v" facts = num_of_Z 3
  /\ num_lt (Accumulators.maxNumber "v" facts) (Accumulators.minNumber "v" facts) = false.
Proof.
  intros facts. split; [reflexivity|]. split; [reflexivity|].
  refine (proj2 (proj2 (proj2
    (proj2 (accumulator_min_max_bound_the_field "v" facts) _)))).
  exists (num_of_Z 3), (VObj [("v", num 3)]).
  split; [now left|]. split; reflexivity.
Defined.

Lemma accumulator_average_is_sum_over_count_witness :
  Accumulators.sum "v" [VObj [("v", VStr "x")]; VObj [("w", num 2)]] = pos_zero
  /\ Accumulators.average "v" [VObj [("v", VStr "x")]; VObj [("w", num 2)]] = pos_zero.
Proof.
  exact (proj2 (proj2 (accumulator_average_is_sum_over_count "v"
           [VObj [("v", VStr "x")]; VObj [("w", num 2)]])) eq_refl).
Defined.

Lemma accumulator_boolean_extremes_witness :
  Accumulators.minBoolean "v" [VObj [("v", VBool true)]; VObj [("v", VBool false)]]
  = VBool false.
Proof.
  apply (proj1 (accumulator_boolean_extremes "v"
           [VObj [("v", VBool true)]; VObj [("v", VBool false)]])).
  right. now left.
Defined.
(** ** Retracting by pattern *)

Section RetractWhere.
Import Engine.
Variable h : Host.
Variable depth : nat.

Lemma retractFact_storage (e : t) (id : nat) :
  factStorage (retractFact e id) = fst (FactStorage.retract (factStorage e) id)
  /\ definitions (retractFact e id) = definitions e
  /\ activations (retractFact e id) = activations e.
Proof.
  unfold retractFact, FactStorage.retract.
  destruct (JSMap.get Nat.eqb (FactStorage.facts (factStorage e)) id); cbn; auto.
Qed.

Lemma retract_each (ids : list nat) :
  forall e,
    FactStorage.wf (factStorage e) ->
    let e' := fold_left retractFact ids e in
    FactStorage.wf (factStorage e')
    /\ (forall id,
          FactStorage.getFactEntry (factStorage e') id
          = if existsb (Nat.eqb id) ids then None
            else FactStorage.getFactEntry (factStorage e) id)
    /\ definitions e' = definitions e
    /\ activations e' = activations e.
Proof.
  induction ids as [|a ids IH]; intros e Hwf; cbn [fold_left existsb].
  - auto.
  - destruct (retractFact_storage e a) as [Hst [Hd Ha]].
    destruct (retract_spec (factStorage e) a Hwf) as [_ [_ [Hgone [_ [Hother Hwf1]]]]].
    rewrite <- Hst in Hgone, Hother, Hwf1.
    destruct (IH (retractFact e a) Hwf1) as [Hwf' [Hget [Hd' Ha']]].
    split; [exact Hwf'|]. split; [|split; congruence].
    intros id. rewrite Hget. destruct (existsb (Nat.eqb id) ids); [now rewrite orb_true_r|].
    rewrite orb_false_r. destruct (Nat.eqb id a) eqn:E.
    + apply Nat.eqb_eq in E. subst id. exact Hgone.
    + apply Nat.eqb_neq in E. now apply Hother.
Qed.

(** The loop of [retractWhere] over the facts listed under the type. *)
Local Abbreviation scan_step := (fun (pattern : value)
    (acc : list nat * option exn) (factEntry : nat * fields) =>
  match acc with
  | (_, Some _) => acc
  | (factsToRetract, None) =>
      let plainFact :=
        if is_undefined (obj_get (snd factEntry) "fact") then VObj (snd factEntry)
        else obj_get (snd factEntry) "fact" in
      if negb (to_boolean plainFact) then acc
      else match match_ h depth pattern plainFact [] with
           | None => (factsToRetract, Some StackOverflow)
           | Some r =>
               if isMatch r then (factsToRetract ++ [fst factEntry], None)
               else acc
           end
  end).

(** The pattern matches the fact object [f]. *)
Local Abbreviation matched := (fun (pattern : value) (f : fields) =>
  let plainFact := if is_undefined (obj_get f "fact") then VObj f else obj_get f "fact" in
  to_boolean plainFact = true
  /\ exists r, match_ h depth pattern plainFact [] = Some r /\ isMatch r = true).

Lemma scan_thrown (pattern : value) (listed : list (nat * fields)) :
  forall ids0 ex ids, fold_left (scan_step pattern) listed (ids0, Some ex) <> (ids, None).
Proof.
  induction listed as [|x listed IH]; intros ids0 ex ids; cbn [fold_left];
    [discriminate|apply IH].
Qed.

Lemma retract_where_scan (pattern : value) (listed : list (nat * fields)) :
  forall ids0 ids,
    fold_left (scan_step pattern) listed (ids0, None) = (ids, None) ->
    forall id,
      In id ids <->
      In id ids0 \/ exists f, In (id, f) listed /\ matched pattern f.
Proof.
  induction listed as [|[id0 f0] listed IH]; intros ids0 ids; cbn [fold_left fst snd].
  - intros H. injection H as <-. intros id. split; [now left|].
    intros [H|[f [[] _]]]. exact H.
  - assert (Hskip : forall ids1,
               (forall id, In id ids1 <-> In id ids0 \/ (id = id0 /\ matched pattern f0)) ->
               fold_left (scan_step pattern) listed (ids1, None) = (ids, None) ->
               forall id, In id ids <->
                 In id ids0 \/ exists f, In (id, f) ((id0, f0) :: listed) /\ matched pattern f).
    { intros ids1 H1 Hfold id. rewrite (IH ids1 ids Hfold id), H1. cbn [In]. split.
      - intros [[H|[-> Hm]]|[f [Hin Hp]]].
        + now left.
        + right. exists f0. split; [now left|exact Hm].
        + right. exists f. split; [now right|exact Hp].
      - intros [H|[f [[Heq|Hin] Hp]]].
        + left. now left.
        + injection Heq as -> ->. left. right. split; [reflexivity|exact Hp].
        + right. now exists f. }
    cbv zeta.
    destruct (to_boolean (if is_undefined (obj_get f0 "fact") then VObj f0
                          else obj_get f0 "fact")) eqn:T; cbn [negb].
    + destruct (match_ h depth pattern _ []) as [r|] eqn:R.
      * destruct (isMatch r) eqn:M.
        -- apply Hskip. intros id. rewrite in_app_iff. cbn [In]. split.
           ++ intros [H|[<-|[]]]; [now left|]. right. split; [reflexivity|].
              cbv zeta. rewrite T. split; [reflexivity|]. now exists r.
           ++ intros [H|[-> _]]; [now left|]. right. now left.
        -- apply Hskip. intros id. split; [now left|].
           intros [H|[_ [_ [r' [Hr' Hm']]]]]; [exact H|]. congruence.
      * intros Hfold. exfalso. exact (scan_thrown _ _ _ _ _ Hfold).
    + apply Hskip. intros id. split; [now left|].
      intros [H|[_ [Ht _]]]; [exact H|]. cbv zeta in Ht. congruence.
Qed.

(** X24. [retractWhere] retracts exactly the stored facts of the named
    type that the pattern matches.  When the call returns, a stored fact
    is gone if and only if it is of that type and the pattern matches it,
    every other stored fact is still the entry it was, no identity comes
    into being, and the definitions and the tracked activations are as
    they were. *)
Theorem retractWhere_retracts_matching_facts :
  forall (e e' : t) (factType : string) (pattern others : fields),
    StoreIndex.reachable (factStorage e) ->
    factType <> EmptyString ->
    retractWhere h depth e (VObj ((factType, VObj pattern) :: others)) = (e', None) ->
    (forall id entry,
        FactStorage.getFactEntry (factStorage e) id = Some entry ->
        let plainFact :=
          if is_undefined (obj_get (FactStorage.fact entry) "fact")
          then VObj (FactStorage.fact entry)
          else obj_get (FactStorage.fact entry) "fact" in
        (FactStorage.getFactEntry (factStorage e') id = None
         <-> obj_get (FactStorage.fact entry) "type" = VStr factType
             /\ to_boolean plainFact = true
             /\ exists r, match_ h depth (VObj pattern) plainFact [] = Some r
                          /\ isMatch r = true)
        /\ (FactStorage.getFactEntry (factStorage e') id <> None ->
            FactStorage.getFactEntry (factStorage e') id = Some entry))
    /\ (forall id,
          FactStorage.getFactEntry (factStorage e) id = None ->
          FactStorage.getFactEntry (factStorage e') id = None)
    /\ definitions e' = definitions e
    /\ activations e' = activations e.
Proof.
  intros e e' factType pattern others Hreach Hne.
  pose proof (reachable_coherent _ Hreach) as Hco.
  assert (Hwf : FactStorage.wf (factStorage e)) by apply Hco.
  unfold retractWhere. cbn [is_object negb first_key keys map fst hd_error].
  destruct (String.eqb factType EmptyString) eqn:E;
    [apply String.eqb_eq in E; contradiction|].
  assert (Hpat : get_prop (VObj ((factType, VObj pattern) :: others)) factType
                 = VObj pattern).
  { unfold get_prop, get_own. cbn [assoc]. now rewrite String.eqb_refl. }
  rewrite Hpat. cbn [is_object negb].
  match goal with
  | |- match ?scan with _ => _ end = _ -> _ => destruct scan as [ids [ex|]] eqn:Hscan
  end; [discriminate|].
  intros H. injection H as <-.
  pose proof (retract_where_scan _ _ _ _ Hscan) as Hids.
  destruct (retract_each ids e Hwf) as [_ [Hget [Hd Ha]]]. cbv zeta in Hget.
  assert (Hex : forall id, existsb (Nat.eqb id) ids = true <-> In id ids).
  { intros id. rewrite existsb_exists. split.
    - intros [x [Hx Hq]]. apply Nat.eqb_eq in Hq. now subst.
    - intros Hin. exists id. split; [exact Hin|apply Nat.eqb_refl]. }
  split; [|split; [|split; [exact Hd|exact Ha]]].
  - intros id entry Hentry. rewrite Hget, Hentry. split.
    + destruct (existsb (Nat.eqb id) ids) eqn:X.
      * split; [intros _|reflexivity]. apply Hex, Hids in X.
        destruct X as [[]|[f [Hin Hp]]].
        apply (coherent_listed _ _ _ _ Hco) in Hin.
        destruct Hin as [entry' [Hg [Hf Hty]]].
        assert (entry' = entry) by congruence. subst entry'. subst f.
        split; [exact Hty|]. exact Hp.
      * split; [discriminate|]. intros [Hty [Ht [r [Hr Hm]]]]. exfalso.
        apply not_true_iff_false in X. apply X, Hex, Hids. right.
        exists (FactStorage.fact entry). split.
        -- apply (coherent_listed _ _ _ _ Hco). now exists entry.
        -- split; [exact Ht|]. now exists r.
    + destruct (existsb (Nat.eqb id) ids); [congruence|reflexivity].
  - intros id Hnone. rewrite Hget, Hnone. now destruct (existsb (Nat.eqb id) ids).
Qed.

End RetractWhere.

Lemma retractWhere_retracts_matching_facts_witness :
  let e' := fst (Engine.retractWhere sampleHost 5 Sample.engineDiv
                   (VObj [("n", VObj [("y", num 0)])])) in
  FactStorage.getFactEntry (Engine.factStorage e') 1 = None
  /\ Engine.definitions e' = Engine.definitions Sample.engineDiv.
Proof.
  intros e'.
  destruct (retractWhere_retracts_matching_facts sampleHost 5 Sample.engineDiv e'
              "n" [("y", num 0)] [] engineDiv_store_reachable)
    as [Hstored [_ [Hdefs _]]].
  - discriminate.
  - reflexivity.
  - split; [|exact Hdefs].
    apply (Hstored 1 {| FactStorage.fact := [("type", VStr "n"); ("y", num 0); ("_id", num 1)];
                        FactStorage.fact_id := 1;
                        FactStorage.metadata := FactStorage.no_metadata |} eq_refl).
    split; [reflexivity|]. split; [reflexivity|].
    eexists. split; reflexivity.
Defined.
